(** * mpxgen: the MPX generator of [src/mpx_gen.c]

    A shallow embedding of [mpx_gen.c]: the sample formatter [postprocess],
    the teardown routine [terminate], the streaming function
    [generate_mpx] and the option handling of [main].

    - C [float] is IEEE binary32 and C [double] is IEEE binary64; both are
      modelled with the executable specification of the Standard Library
      ([SpecFloat], precision 24 / 53), arithmetic evaluated in the type
      of the operands (FLT_EVAL_METHOD 0).
    - C [int] is 32 bits wide, [short] 16 bits.
    - Every call that leaves the file (libao, libsamplerate, the baseband
      generator [fm_mpx], the RDS setters, the control pipe, stdio) is
      recorded as an [event] in a trace; what such a call returns is read
      from an environment [env], over which the theorems quantify.
    - An execution that would have undefined behaviour in C (an index out
      of bounds, a conversion whose result does not fit) ends in the
      outcome [Undefined].
    - Every call that leaves the file returns to its caller. The loop
      [for (;;)] of [generate_mpx] runs on fuel; a run that uses it up
      ends in the outcome [OutOfFuel].
    - A signal arrives between two calls that leave the file, when the
      statements up to the next call have been executed. [run_main] gives
      the runs in which none arrives, [run_main_signalled] those in which
      [terminate] runs as the handler of signals, at any point from the
      installation of the handlers on. *)

From Stdlib Require Import ZArith Lia List String Ascii Bool DecimalString.
From Stdlib Require Import DecimalN DecimalPos.
From Stdlib Require Import Floats.SpecFloat.
From stdpp Require Import base option list.

Open Scope Z_scope.

(** ** Floating point *)

Module Flt.

Definition float32 := spec_float.
Definition float64 := spec_float.

Definition f32_mul : float32 -> float32 -> float32 := SFmul 24 128.
Definition f32_div : float32 -> float32 -> float32 := SFdiv 24 128.
Definition f64_mul : float64 -> float64 -> float64 := SFmul 53 1024.
Definition f64_div : float64 -> float64 -> float64 := SFdiv 53 1024.

(** Conversion of an integer to [float] and to [double]
    (round to nearest, ties to even). *)
Definition f32_of_int (n : Z) : float32 := binary_normalize 24 128 n 0 false.
Definition f64_of_int (n : Z) : float64 := binary_normalize 53 1024 n 0 false.

(** The integral part of a floating-point number, fraction discarded. *)
Definition SFtrunc (x : spec_float) : option Z :=
  match x with
  | S754_zero _ => Some 0
  | S754_finite s m e => Some (cond_Zopp s (Z.shiftl (Zpos m) e))
  | S754_infinity _ | S754_nan => None
  end.

Definition in_range (lo hi v : Z) : bool := (lo <=? v) && (v <=? hi).

(** C conversion of a floating value to a signed integer type with the
    given range: defined only when the integral part is representable. *)
Definition to_integer (lo hi : Z) (x : spec_float) : option Z :=
  match SFtrunc x with
  | Some v => if in_range lo hi v then Some v else None
  | None => None
  end.

Definition SHRT_MIN := -32768.
Definition SHRT_MAX := 32767.
Definition INT_MIN := -2147483648.
Definition INT_MAX := 2147483647.

Definition short_of_float : float32 -> option Z := to_integer SHRT_MIN SHRT_MAX.
Definition int_of_double : float64 -> option Z := to_integer INT_MIN INT_MAX.

Definition is_finite (x : spec_float) : bool :=
  match x with
  | S754_zero _ | S754_finite _ _ _ => true
  | _ => false
  end.

Definition sign_of (x : spec_float) : bool :=
  match x with
  | S754_zero s | S754_infinity s | S754_finite s _ _ => s
  | S754_nan => false
  end.

End Flt.
Export Flt.

(** ** The Format Stage: [postprocess] *)

Definition DATA_SIZE : Z := 4096.
Definition OUTPUT_DATA_SIZE : Z := 8192.

(** What the three compound assignments of the loop body leave in
    [inbuf[i]]: [x / 10], then [* 32767], then [* (volume / 100)]. *)
Definition scale_sample (x : float32) : float32 :=
  f32_mul (f32_div x (f32_of_int 10)) (f32_of_int 32767).

Definition gain_factor (volume : float32) : float32 :=
  f32_div volume (f32_of_int 100).

Definition sample_value (x volume : float32) : float32 :=
  f32_mul (scale_sample x) (gain_factor volume).

(** The loop [for (int i = 0; i < inbufsize; i++)] with [j = 2 * i];
    [n] counts the iterations that remain. The index [j] is an [int]:
    [j += 2] must stay within [INT_MAX], also in the last iteration. *)
Fixpoint postprocess_loop (n i j : nat) (inbuf : list float32) (outbuf : list Z)
    (volume : float32) : option (list float32 * list Z) :=
  match n with
  | O => Some (inbuf, outbuf)
  | S n' =>
      match inbuf !! i with
      | None => None
      | Some x =>
          let y := sample_value x volume in
          match short_of_float y with
          | None => None
          | Some v =>
              if bool_decide (j + 1 < length outbuf)%nat then
                if bool_decide (Z.of_nat j + 2 <= INT_MAX) then
                  postprocess_loop n' (S i) (j + 2)
                    (<[i := y]> inbuf) (<[j := v]> (<[(j + 1)%nat := v]> outbuf)) volume
                else None
              else None
          end
      end
  end.

(** [void postprocess(float *inbuf, short *outbuf, size_t inbufsize, float volume)];
    the result is the contents of the two buffers on return, [None] when
    the execution has undefined behaviour. The counter [i] is an [int],
    as is [j]. *)
Definition postprocess (inbuf : list float32) (outbuf : list Z) (inbufsize : nat)
    (volume : float32) : option (list float32 * list Z) :=
  if bool_decide (Z.of_nat inbufsize <= INT_MAX)
  then postprocess_loop inbufsize 0 0 inbuf outbuf volume
  else None.

(** ** The C library's number parsers

    [atoi], [atof] and [strtol] belong to the C library; they are written
    out here after ISO C (7.22.1): leading white space is skipped, an
    optional sign is read, and the longest prefix that has the expected
    form is converted; when no such prefix exists the result is zero. *)

Module Libc.

Definition isspace (c : ascii) : bool :=
  let n := Z.of_N (N_of_ascii c) in
  (n =? 32) || ((9 <=? n) && (n <=? 13)).

Fixpoint skip_space (s : string) : string :=
  match s with
  | String c s' => if isspace c then skip_space s' else s
  | EmptyString => s
  end.

(** An optional ['+'] or ['-']; [true] stands for minus. *)
Definition read_sign (s : string) : bool * string :=
  match s with
  | String "-" s' => (true, s')
  | String "+" s' => (false, s')
  | _ => (false, s)
  end.

Definition digit_of (c : ascii) : option Z :=
  let n := Z.of_N (N_of_ascii c) in
  if (48 <=? n) && (n <=? 57) then Some (n - 48)
  else if (97 <=? n) && (n <=? 122) then Some (n - 87)
  else if (65 <=? n) && (n <=? 90) then Some (n - 55)
  else None.

Definition digit_in (base : Z) (c : ascii) : option Z :=
  match digit_of c with
  | Some d => if d <? base then Some d else None
  | None => None
  end.

(** The longest run of digits of the given base at the head of [s]:
    its value when continued from [acc], its length, and what follows. *)
Fixpoint read_digits (base : Z) (s : string) (acc : Z) (cnt : nat) : Z * nat * string :=
  match s with
  | String c s' =>
      match digit_in base c with
      | Some d => read_digits base s' (base * acc + d) (S cnt)
      | None => (acc, cnt, s)
      end
  | EmptyString => (acc, cnt, s)
  end.

Definition apply_sign (neg : bool) (v : Z) : Z := if neg then - v else v.

(** [atoi], on a string: a value that does not fit an [int] is
    undefined behaviour (7.22.1p1), rendered as [None]. *)
Definition atoi (s : string) : option Z :=
  let '(neg, s1) := read_sign (skip_space s) in
  let '(v, _, _) := read_digits 10 s1 0 0 in
  let r := apply_sign neg v in
  if in_range INT_MIN INT_MAX r then Some r else None.

(** [strtol] with base 16 and no end pointer, on a target whose [long] has
    32 bits: the optional prefix [0x] is skipped when a hexadecimal digit
    follows it, and a value out of range is clamped. *)
Definition LONG_MIN := -2147483648.
Definition LONG_MAX := 2147483647.

Definition skip_0x (s : string) : string :=
  match s with
  | String "0" (String x (String c s')) =>
      if ((x =? "x") || (x =? "X"))%char then
        match digit_in 16 c with
        | Some _ => String c s'
        | None => s
        end
      else s
  | _ => s
  end.

Definition strtol16 (s : string) : Z :=
  let '(neg, s1) := read_sign (skip_space s) in
  let '(v, _, _) := read_digits 16 (skip_0x s1) 0 0 in
  Z.max LONG_MIN (Z.min LONG_MAX (apply_sign neg v)).

(** The decimal number [n * 10 ^ e10], rounded to the nearest [double]. *)
Definition decimal_to_double (neg : bool) (n e10 : Z) : float64 :=
  match n with
  | Zpos p =>
      if 0 <=? e10 then
        match Zpos p * 10 ^ e10 with
        | Zpos q => binary_round 53 1024 neg q 0
        | _ => S754_nan
        end
      else
        match 10 ^ (- e10) with
        | Zpos q => f64_div (S754_finite neg p 0) (S754_finite false q 0)
        | _ => S754_nan
        end
  | _ => S754_zero neg
  end.

Definition lower (c : ascii) : ascii :=
  let n := N_of_ascii c in
  if ((65 <=? n) && (n <=? 90))%N then ascii_of_N (n + 32) else c.

(** The hexadecimal number [n * 2 ^ e2], rounded to the nearest [double]. *)
Definition hex_to_double (neg : bool) (n e2 : Z) : float64 :=
  match n with
  | Zpos p => binary_round 53 1024 neg p e2
  | _ => S754_zero neg
  end.

(** The exponent part of a floating constant, [e[+-]ddd] for a decimal
    one and [p[+-]ddd] for a hexadecimal one; it is read only when at
    least one digit follows. *)
Definition read_exponent (mark : ascii) (s : string) : Z :=
  match s with
  | String c s' =>
      if (lower c =? mark)%char then
        let '(neg, s1) := read_sign s' in
        let '(v, cnt, _) := read_digits 10 s1 0 0 in
        match cnt with
        | O => 0
        | S _ => apply_sign neg v
        end
      else 0
  | EmptyString => 0
  end.

(** Digits of the given base with an optional radix point among them:
    the digits read as one integer, how many of them precede and follow
    the point, and what comes after. *)
Definition read_mantissa (base : Z) (s : string) : Z * nat * nat * string :=
  let '(ip, icnt, s1) := read_digits base s 0 0 in
  match s1 with
  | String "." s1' =>
      let '(m, fcnt, s2) := read_digits base s1' ip 0 in (m, icnt, fcnt, s2)
  | _ => (ip, icnt, O, s1)
  end.

(** What follows the prefix [0x] of a hexadecimal floating constant,
    when hexadecimal digits do follow it. *)
Definition hex_float_body (s : string) : option string :=
  match s with
  | String "0" (String x s') =>
      if (lower x =? "x")%char then
        match read_mantissa 16 s' with
        | (_, O, O, _) => None
        | _ => Some s'
        end
      else None
  | _ => None
  end.

Fixpoint has_prefix_nocase (p s : string) : bool :=
  match p, s with
  | EmptyString, _ => true
  | String a p', String b s' => (a =? lower b)%char && has_prefix_nocase p' s'
  | String _ _, EmptyString => false
  end.

(** [atof]: [inf], [nan], a hexadecimal or a decimal floating constant. *)
Definition atof (s : string) : float64 :=
  let '(neg, s1) := read_sign (skip_space s) in
  if has_prefix_nocase "inf" s1 then S754_infinity neg
  else if has_prefix_nocase "nan" s1 then S754_nan
  else
    match hex_float_body s1 with
    | Some s2 =>
        let '(m, _, fcnt, s3) := read_mantissa 16 s2 in
        hex_to_double neg m (read_exponent "p" s3 - 4 * Z.of_nat fcnt)
    | None =>
        let '(m, icnt, fcnt, s3) := read_mantissa 10 s1 in
        match icnt, fcnt with
        | O, O => S754_zero false
        | _, _ => decimal_to_double neg m (read_exponent "e" s3 - Z.of_nat fcnt)
        end
    end.

End Libc.
Export Libc.

(** ** The world outside the file *)

(** A non-null pointer handed out by a library. *)
Definition handle := positive.

Record ao_sample_format := {
  bits : Z;
  rate : Z;
  channels : Z;
  byte_format : Z
}.

Definition AO_FMT_LITTLE : Z := 1.
Definition SRC_SINC_FASTEST : Z := 2.

(** The four arrays on the stack of [generate_mpx]. *)
Inductive buffer := mpx_data | rds_data | resample_out | dev_out.

(** The number of elements each array is declared with. *)
Definition capacity (b : buffer) : Z :=
  match b with
  | mpx_data | rds_data | resample_out => DATA_SIZE
  | dev_out => OUTPUT_DATA_SIZE
  end.

(** The fields of [SRC_DATA] the code assigns before [src_process]. *)
Record SRC_DATA := {
  data_in : buffer;
  data_out : buffer;
  input_frames : Z;
  output_frames : Z;
  src_ratio : float64
}.

(** An argument of a [printf]-like call. *)
Inductive arg :=
| ArgInt (n : Z)
| ArgStr (s : string)
| ArgChar (c : ascii)
| ArgFloat (x : float32)
| ArgSrcStrerror (code : Z).

Inductive event :=
| Sigaction (signum : Z)
| AoInitialize
| AoDefaultDriverId
| AoOpenLive (driver : Z) (format : ao_sample_format)
| SrcNew (converter_type nchannels : Z)
| FmMpxOpen (audio_file : option string) (len preemphasis_cutoff : Z)
| SetRdsPi (pi : Z)
| SetRdsPs (ps : string)
| SetRdsRt (rt : string)
| SetRdsPty (pty : Z)
| SetRdsTp (tp : Z)
| SetRdsMs (ms : Z)
| SetRdsAb (ab : Z)
| SetRdsAf (af_array : list Z)
| OpenControlPipe (path : string)
| PollControlPipe
| FmMpxGetSamples (mpx rds : buffer) (rds_on wait : Z)
| SrcProcess (state : handle) (data : SRC_DATA)
| AoPlay (device : option handle) (samples : list Z) (num_bytes : Z)
| FmMpxClose
| CloseControlPipe
| AoClose (device : option handle)
| AoShutdown
| SrcDelete (state : option handle)
| Printf (fmt : string) (args : list arg)
| FprintfStderr (fmt : string) (args : list arg)
| GetoptError (optopt : ascii).

(** What the collaborators answer. The calls of the run loop are indexed
    by the iteration (from 0) in which they are made. *)
Record env := {
  ao_default_driver_id_res : Z;
  ao_open_live_res : option handle;
  src_new_res : option handle;
  src_new_error : Z;
  fm_mpx_open_res : Z;
  open_control_pipe_res : Z;
  fm_mpx_get_samples_res : nat -> Z;
  (** the error code of [src_process] and the frames it wrote to
      [data_out]; their number is [output_frames_gen] *)
  src_process_res : nat -> Z * list float32;
  ao_play_res : nat -> Z
}.

(** The two globals of the file and the calls made so far. *)
Record state := {
  device : option handle;
  src_state : option handle;
  trace : list event
}.

(** Objects of static storage start out null. *)
Definition initial_state : state :=
  {| device := None; src_state := None; trace := [] |}.

Inductive outcome (A : Type) :=
| Returned (a : A) (s : state)
| Exited (code : Z) (s : state)
| Undefined (s : state)
| OutOfFuel (s : state).
Arguments Returned {A} a s.
Arguments Exited {A} code s.
Arguments Undefined {A} s.
Arguments OutOfFuel {A} s.

Definition M (A : Type) : Type := state -> outcome A.

#[global] Instance M_ret : MRet M := fun A a s => Returned a s.
#[global] Instance M_bind : MBind M := fun A B f m s =>
  match m s with
  | Returned a s' => f a s'
  | Exited code s' => Exited code s'
  | Undefined s' => Undefined s'
  | OutOfFuel s' => OutOfFuel s'
  end.

Definition emit (e : event) : M unit := fun s =>
  match s with
  | {| device := d; src_state := st; trace := tr |} =>
      Returned tt {| device := d; src_state := st; trace := tr ++ [e] |}
  end.

Definition get_device : M (option handle) := fun s => Returned (device s) s.
Definition get_src_state : M (option handle) := fun s => Returned (src_state s) s.
Definition set_device (d : option handle) : M unit := fun s =>
  match s with
  | {| device := _; src_state := st; trace := tr |} =>
      Returned tt {| device := d; src_state := st; trace := tr |}
  end.

Definition exit {A} (code : Z) : M A := fun s => Exited code s.
Definition undefined {A} : M A := fun s => Undefined s.
Definition out_of_fuel {A} : M A := fun s => OutOfFuel s.

Fixpoint sequence_ (l : list (M unit)) : M unit :=
  match l with
  | [] => mret tt
  | m :: l' => m ;; sequence_ l'
  end.

(** ** [terminate] and [fatal] *)

(** The characters a C string literal escapes. *)
Definition nl : string := String "010" EmptyString.
Definition tab : string := String "009" EmptyString.
Definition dquote : string := String "034" EmptyString.

Definition ao_close_device : M unit := d ← get_device; emit (AoClose d).
Definition src_delete_src_state : M unit := st ← get_src_state; emit (SrcDelete st).

(** The calls of [terminate] that come before [exit], one per statement. *)
Definition terminate_calls : list (M unit) :=
  [ emit FmMpxClose;
    emit CloseControlPipe;
    ao_close_device;
    emit AoShutdown;
    src_delete_src_state;
    emit (Printf ("MPX generator stopped" ++ nl) []) ].

Definition terminate {A} (num : Z) : M A :=
  sequence_ terminate_calls ;; exit num.

Definition fatal {A} (fmt : string) (args : list arg) : M A :=
  emit (FprintfStderr fmt args) ;; exit 1.

(** [terminate] is also the handler that [generate_mpx] installs for the
    signals 0 to 24. A signal that is delivered while [terminate num] runs,
    after [k] of its calls have returned, enters the handler
    [terminate signum], which never returns to the interrupted one. *)
Definition terminate_interrupted {A} (k : nat) (num signum : Z) : M A :=
  sequence_ (take k terminate_calls) ;; terminate signum.

(** ** [generate_mpx] *)

Fixpoint install_handlers (n : nat) (i : Z) : M unit :=
  match n with
  | O => mret tt
  | S n' => emit (Sigaction i) ;; install_handlers n' (i + 1)
  end.

(** The loop [for (f = 1; f < af_array[0]+1; f++)] that prints the
    alternative frequencies; [n] counts the iterations that remain. *)
Fixpoint print_af (n f : nat) (af_array : list Z) : M unit :=
  match n with
  | O => mret tt
  | S n' =>
      match af_array !! f with
      | None => undefined
      | Some a =>
          emit (Printf "%f Mhz " [ArgFloat (f32_div (f32_of_int (a + 875)) (f32_of_int 10))]) ;;
          print_af n' (S f) af_array
      end
  end.

Definition print_rds_options (rds pi : Z) (ps rt : string) (af_array : list Z) (pty : Z) : M unit :=
  emit (Printf ("RDS Options:" ++ nl) []) ;;
  if rds =? 0 then
    emit (Printf ("RDS: %i" ++ nl) [ArgInt rds])
  else
    emit (Printf ("RDS: %i, PI: %04X, PS: " ++ dquote ++ "%s" ++ dquote ++ ", PTY: %i" ++ nl)
            [ArgInt rds; ArgInt pi; ArgStr ps; ArgInt pty]) ;;
    emit (Printf ("RT: " ++ dquote ++ "%s" ++ dquote ++ nl) [ArgStr rt]) ;;
    match af_array !! 0%nat with
    | None => undefined
    | Some af0 =>
        if af0 =? 0 then mret tt
        else
          emit (SetRdsAf af_array) ;;
          emit (Printf "AF: " []) ;;
          print_af (Z.to_nat af0) 1 af_array ;;
          emit (Printf nl [])
    end.

(** [if(control_pipe) { ... }]: what [control_pipe] holds afterwards. *)
Definition init_control_pipe (E : env) (control_pipe : option string) : M (option string) :=
  match control_pipe with
  | None => mret None
  | Some path =>
      emit (OpenControlPipe path) ;;
      if open_control_pipe_res E =? 0 then
        emit (Printf ("Reading control commands on %s." ++ nl) [ArgStr path]) ;;
        mret (Some path)
      else
        emit (Printf ("Failed to open control pipe: %s." ++ nl) [ArgStr path]) ;;
        mret None
  end.

(** The converter's settings: [src_ratio = 192000. / 228000] and
    [output_frames = OUTPUT_DATA_SIZE], then in every iteration
    [input_frames], [data_in] and [data_out]. *)
Definition src_data : SRC_DATA :=
  {| data_in := mpx_data;
     data_out := resample_out;
     input_frames := DATA_SIZE;
     output_frames := OUTPUT_DATA_SIZE;
     src_ratio := f64_div (f64_of_int 192000) (f64_of_int 228000) |}.

(** The array [resample_out] once the converter has written [frames] to
    its start; writing more than the array holds is undefined. *)
Definition store_frames (frames : list float32) (buf : list float32) : option (list float32) :=
  if bool_decide (length frames <= length buf)%nat
  then Some (frames ++ drop (length frames) buf)
  else None.

(** One pass through the body of [for (;;)], in iteration [iter] (from 0)
    with the given contents of [resample_out] and [dev_out]: [None] when
    the body ends in [break], the new contents of the arrays otherwise. *)
Definition loop_body (E : env) (iter : nat) (control_pipe : option string)
    (local_src_state : handle) (rds wait : Z) (mpx : float32)
    (resample_buf : list float32) (dev_buf : list Z) : M (option (list float32 * list Z)) :=
  match control_pipe with
  | Some _ => emit PollControlPipe
  | None => mret tt
  end ;;
  emit (FmMpxGetSamples mpx_data rds_data rds wait) ;;
  if fm_mpx_get_samples_res E iter <? 0 then mret None
  else
    emit (SrcProcess local_src_state src_data) ;;
    let '(src_error, frames) := src_process_res E iter in
    if negb (src_error =? 0) then
      emit (FprintfStderr ("Error: src_process failed: %s" ++ nl) [ArgSrcStrerror src_error]) ;;
      mret None
    else
      match store_frames frames resample_buf with
      | None => undefined
      | Some resample_buf1 =>
          let generated_frames := length frames in
          match postprocess resample_buf1 dev_buf generated_frames mpx with
          | None => undefined
          | Some (resample_buf2, dev_buf2) =>
              d ← get_device;
              emit (AoPlay d (take (2 * generated_frames) dev_buf2)
                      (Z.of_nat generated_frames * 4)) ;;
              if ao_play_res E iter =? 0 then
                emit (FprintfStderr ("Error: could not play audio." ++ nl) []) ;;
                mret None
              else mret (Some (resample_buf2, dev_buf2))
          end
      end.

(** The loop [for (;;)], which is left by [break] only; [fuel] bounds
    the number of iterations and [iter] counts the completed ones. *)
Fixpoint run_loop (E : env) (fuel iter : nat) (control_pipe : option string)
    (local_src_state : handle) (rds wait : Z) (mpx : float32)
    (resample_buf : list float32) (dev_buf : list Z) : M unit :=
  match fuel with
  | O => out_of_fuel
  | S fuel' =>
      r ← loop_body E iter control_pipe local_src_state rds wait mpx resample_buf dev_buf;
      match r with
      | None => mret tt
      | Some (resample_buf', dev_buf') =>
          run_loop E fuel' (S iter) control_pipe local_src_state rds wait mpx
            resample_buf' dev_buf'
      end
  end.

(** The arrays are not initialised; no element is read before it has
    been written, and zero stands for the initial contents. *)
Definition fresh_resample_out : list float32 := replicate (Z.to_nat DATA_SIZE) (S754_zero false).
Definition fresh_dev_out : list Z := replicate (Z.to_nat OUTPUT_DATA_SIZE) 0.

Definition ao_format : ao_sample_format :=
  {| bits := 16; channels := 2; rate := 192000; byte_format := AO_FMT_LITTLE |}.

(** [int generate_mpx(...)]. [fuel] bounds the number of loop
    iterations. The converter state goes to the local variable
    [src_state] that the function declares, not to the global one. *)
Definition generate_mpx (E : env) (fuel : nat) (audio_file : option string) (rds pi : Z)
    (ps rt : string) (af_array : list Z) (preemphasis_cutoff : Z) (mpx : float32)
    (control_pipe : option string) (pty tp wait : Z) : M Z :=
  install_handlers 25 0 ;;
  emit AoInitialize ;;
  emit AoDefaultDriverId ;;
  emit (AoOpenLive (ao_default_driver_id_res E) ao_format) ;;
  set_device (ao_open_live_res E) ;;
  match ao_open_live_res E with
  | None =>
      emit (FprintfStderr ("Error: cannot open sound device." ++ nl) []) ;;
      mret 1
  | Some _ =>
      emit (SrcNew SRC_SINC_FASTEST 1) ;;
      match src_new_res E with
      | None =>
          emit (FprintfStderr ("Error: src_new failed: %s" ++ nl)
                  [ArgSrcStrerror (src_new_error E)]) ;;
          mret 1
      | Some local_src_state =>
          emit (Printf ("Starting MPX generator" ++ nl) []) ;;
          emit (FmMpxOpen audio_file DATA_SIZE preemphasis_cutoff) ;;
          if fm_mpx_open_res E <? 0 then mret 1
          else
            emit (SetRdsPi pi) ;;
            emit (SetRdsPs ps) ;;
            emit (SetRdsRt rt) ;;
            emit (SetRdsPty pty) ;;
            emit (SetRdsTp tp) ;;
            emit (SetRdsMs 1) ;;
            emit (SetRdsAb 0) ;;
            print_rds_options rds pi ps rt af_array pty ;;
            control_pipe' ← init_control_pipe E control_pipe;
            run_loop E fuel 0 control_pipe' local_src_state rds wait mpx
              fresh_resample_out fresh_dev_out ;;
            mret 0
      end
  end.

(** ** [main] *)

(** One answer of [getopt_long] other than the final -1: the value it
    returns and what it leaves in [optarg] and [optopt]. With the option
    table of [main] the value returned is a character: that of the
    option, or '?' for an option that is unknown, ambiguous or lacks its
    argument (never ':', which takes an option string that starts with a
    colon). *)
Record getopt_result := {
  opt : ascii;
  optarg : string;
  optopt : ascii
}.

(** The local variables of [main]. *)
Record locals := {
  audio_file : option string;
  control_pipe : option string;
  rds : Z;
  alternative_freq : list Z;
  af_size : Z;
  ps : string;
  rt : string;
  pi : Z;
  preemphasis_cutoff : Z;
  pty : Z;
  tp : Z;
  mpx : float32;
  wait : Z
}.

Definition initial_locals : locals :=
  {| audio_file := None;
     control_pipe := None;
     rds := 1;
     alternative_freq := replicate 100 0;
     af_size := 0;
     ps := "mpxgen";
     rt := "mpxgen: FM Stereo and RDS encoder";
     pi := 0x1234;
     preemphasis_cutoff := 0;
     pty := 0;
     tp := 0;
     mpx := f32_of_int 10;
     wait := 0 |}.

Definition set_audio_file (v : option string) (l : locals) : locals :=
  {| audio_file := v; control_pipe := control_pipe l; rds := rds l;
     alternative_freq := alternative_freq l; af_size := af_size l; ps := ps l; rt := rt l;
     pi := pi l; preemphasis_cutoff := preemphasis_cutoff l; pty := pty l; tp := tp l;
     mpx := mpx l; wait := wait l |}.
Definition set_control_pipe (v : option string) (l : locals) : locals :=
  {| audio_file := audio_file l; control_pipe := v; rds := rds l;
     alternative_freq := alternative_freq l; af_size := af_size l; ps := ps l; rt := rt l;
     pi := pi l; preemphasis_cutoff := preemphasis_cutoff l; pty := pty l; tp := tp l;
     mpx := mpx l; wait := wait l |}.
Definition set_rds (v : Z) (l : locals) : locals :=
  {| audio_file := audio_file l; control_pipe := control_pipe l; rds := v;
     alternative_freq := alternative_freq l; af_size := af_size l; ps := ps l; rt := rt l;
     pi := pi l; preemphasis_cutoff := preemphasis_cutoff l; pty := pty l; tp := tp l;
     mpx := mpx l; wait := wait l |}.
Definition set_alternative_freq (a : list Z) (n : Z) (l : locals) : locals :=
  {| audio_file := audio_file l; control_pipe := control_pipe l; rds := rds l;
     alternative_freq := a; af_size := n; ps := ps l; rt := rt l;
     pi := pi l; preemphasis_cutoff := preemphasis_cutoff l; pty := pty l; tp := tp l;
     mpx := mpx l; wait := wait l |}.
Definition set_ps (v : string) (l : locals) : locals :=
  {| audio_file := audio_file l; control_pipe := control_pipe l; rds := rds l;
     alternative_freq := alternative_freq l; af_size := af_size l; ps := v; rt := rt l;
     pi := pi l; preemphasis_cutoff := preemphasis_cutoff l; pty := pty l; tp := tp l;
     mpx := mpx l; wait := wait l |}.
Definition set_rt (v : string) (l : locals) : locals :=
  {| audio_file := audio_file l; control_pipe := control_pipe l; rds := rds l;
     alternative_freq := alternative_freq l; af_size := af_size l; ps := ps l; rt := v;
     pi := pi l; preemphasis_cutoff := preemphasis_cutoff l; pty := pty l; tp := tp l;
     mpx := mpx l; wait := wait l |}.
Definition set_pi (v : Z) (l : locals) : locals :=
  {| audio_file := audio_file l; control_pipe := control_pipe l; rds := rds l;
     alternative_freq := alternative_freq l; af_size := af_size l; ps := ps l; rt := rt l;
     pi := v; preemphasis_cutoff := preemphasis_cutoff l; pty := pty l; tp := tp l;
     mpx := mpx l; wait := wait l |}.
Definition set_preemphasis_cutoff (v : Z) (l : locals) : locals :=
  {| audio_file := audio_file l; control_pipe := control_pipe l; rds := rds l;
     alternative_freq := alternative_freq l; af_size := af_size l; ps := ps l; rt := rt l;
     pi := pi l; preemphasis_cutoff := v; pty := pty l; tp := tp l;
     mpx := mpx l; wait := wait l |}.
Definition set_pty (v : Z) (l : locals) : locals :=
  {| audio_file := audio_file l; control_pipe := control_pipe l; rds := rds l;
     alternative_freq := alternative_freq l; af_size := af_size l; ps := ps l; rt := rt l;
     pi := pi l; preemphasis_cutoff := preemphasis_cutoff l; pty := v; tp := tp l;
     mpx := mpx l; wait := wait l |}.
Definition set_tp (v : Z) (l : locals) : locals :=
  {| audio_file := audio_file l; control_pipe := control_pipe l; rds := rds l;
     alternative_freq := alternative_freq l; af_size := af_size l; ps := ps l; rt := rt l;
     pi := pi l; preemphasis_cutoff := preemphasis_cutoff l; pty := pty l; tp := v;
     mpx := mpx l; wait := wait l |}.
Definition set_mpx (v : float32) (l : locals) : locals :=
  {| audio_file := audio_file l; control_pipe := control_pipe l; rds := rds l;
     alternative_freq := alternative_freq l; af_size := af_size l; ps := ps l; rt := rt l;
     pi := pi l; preemphasis_cutoff := preemphasis_cutoff l; pty := pty l; tp := tp l;
     mpx := v; wait := wait l |}.
Definition set_wait (v : Z) (l : locals) : locals :=
  {| audio_file := audio_file l; control_pipe := control_pipe l; rds := rds l;
     alternative_freq := alternative_freq l; af_size := af_size l; ps := ps l; rt := rt l;
     pi := pi l; preemphasis_cutoff := preemphasis_cutoff l; pty := pty l; tp := tp l;
     mpx := mpx l; wait := v |}.

(** [atoi(optarg)] assigned to an [int]. *)
Definition atoi_optarg (s : string) : M Z :=
  match atoi s with
  | Some n => mret n
  | None => undefined
  end.

(** [(int)(10*atof(optarg))-875]: the product is a [double], the
    conversion and the subtraction must stay within [int]. *)
Definition af_code (s : string) : option Z :=
  match int_of_double (f64_mul (f64_of_int 10) (atof s)) with
  | Some n => if in_range INT_MIN INT_MAX (n - 875) then Some (n - 875) else None
  | None => None
  end.

Definition af_error : string :=
  "Alternative Frequency has to be set in range of 87.6 Mhz - 107.9 Mhz" ++ nl.

Definition help_text : string :=
  "Help: %s" ++ nl ++
  tab ++ "[--audio (-a) file] [--mpx (-m) mpx-power]" ++ nl ++
  tab ++ "[--preemph (-P) preemphasis] [--wait (-W) wait-switch]" ++ nl ++
  tab ++ "[--rds rds-switch] [--pi pi-code] [--ps ps-text]" ++ nl ++
  tab ++ "[--rt radiotext] [--tp traffic-program] [--pty program-type]" ++ nl ++
  tab ++ "[--af alternative-freq] [--ctl (-C) control-pipe]" ++ nl.

(** The body of the [switch] for one answer of [getopt_long]. *)
Definition handle_option (argv0 : string) (o : getopt_result) (l : locals) : M locals :=
  match opt o with
  | "000"%char => mret l
  | "a"%char => mret (set_audio_file (Some (optarg o)) l)
  | "P"%char =>
      if String.eqb "eu" (optarg o) then mret (set_preemphasis_cutoff 3185 l)
      else if String.eqb "us" (optarg o) then mret (set_preemphasis_cutoff 2120 l)
      else n ← atoi_optarg (optarg o); mret (set_preemphasis_cutoff n l)
  | "m"%char => n ← atoi_optarg (optarg o); mret (set_mpx (f32_of_int n) l)
  | "W"%char => n ← atoi_optarg (optarg o); mret (set_wait n l)
  | "R"%char => n ← atoi_optarg (optarg o); mret (set_rds n l)
  | "i"%char => mret (set_pi (strtol16 (optarg o) mod 65536) l)
  | "s"%char => mret (set_ps (optarg o) l)
  | "r"%char => mret (set_rt (optarg o) l)
  | "p"%char => n ← atoi_optarg (optarg o); mret (set_pty n l)
  | "T"%char => n ← atoi_optarg (optarg o); mret (set_tp n l)
  | "A"%char =>
      let af_size' := af_size l + 1 in
      match af_code (optarg o) with
      | None => undefined
      | Some c =>
          if bool_decide (Z.to_nat af_size' < length (alternative_freq l))%nat then
            let l' := set_alternative_freq
                        (<[Z.to_nat af_size' := c]> (alternative_freq l)) af_size' l in
            if (c <? 1) || (c >? 204) then fatal af_error [] else mret l'
          else undefined
      end
  | "C"%char => mret (set_control_pipe (Some (optarg o)) l)
  | "h"%char => fatal help_text [ArgStr argv0]
  | ":"%char =>
      fatal ("%s: option '-%c' requires an argument" ++ nl) [ArgStr argv0; ArgChar (optopt o)]
  | _ =>
      fatal ("%s: option '-%c' is invalid. See -h (--help)" ++ nl)
        [ArgStr argv0; ArgChar (optopt o)]
  end.

(** What a call of [getopt_long] does besides giving its answer: the
    program never clears [opterr], so that the library itself reports on
    stderr each option that it rejects (the answer is then '?'). The
    event [GetoptError] stands for this message, whose text is the
    library's. *)
Definition getopt_long (o : getopt_result) : M unit :=
  if Ascii.eqb (opt o) "?" then emit (GetoptError (optopt o)) else mret tt.

(** The [while] loop over the answers of [getopt_long]. *)
Fixpoint parse_options (argv0 : string) (opts : list getopt_result) (l : locals) : M locals :=
  match opts with
  | [] => mret l
  | o :: opts' =>
      getopt_long o ;;
      l' ← handle_option argv0 o l;
      parse_options argv0 opts' l'
  end.

(** [int main(int argc, char **argv)], given [argv[0]] and the answers
    of [getopt_long] up to the final -1. *)
Definition main (E : env) (fuel : nat) (argv0 : string) (opts : list getopt_result) : M Z :=
  l ← parse_options argv0 opts initial_locals;
  let af := <[0%nat := af_size l]> (alternative_freq l) in
  errcode ← generate_mpx E fuel (audio_file l) (rds l) (pi l) (ps l) (rt l) af
               (preemphasis_cutoff l) (mpx l) (control_pipe l) (pty l) (tp l) (wait l);
  terminate errcode.

Definition run_main (E : env) (fuel : nat) (argv0 : string) (opts : list getopt_result) : outcome Z :=
  main E fuel argv0 opts initial_state.

(** * Reading runs *)

(** ** Traces *)

Inductive resource := BasebandSource | ControlChannel | Sink | ConverterState.

(** The call that acquires a resource, and the call that releases it. *)
Definition acquire_call (e : event) : option resource :=
  match e with
  | AoOpenLive _ _ => Some Sink
  | SrcNew _ _ => Some ConverterState
  | FmMpxOpen _ _ _ => Some BasebandSource
  | OpenControlPipe _ => Some ControlChannel
  | _ => None
  end.

Definition release_call (e : event) : option resource :=
  match e with
  | FmMpxClose => Some BasebandSource
  | CloseControlPipe => Some ControlChannel
  | AoClose _ => Some Sink
  | SrcDelete _ => Some ConverterState
  | _ => None
  end.

(** The calls of the run loop that move samples or poll for commands. *)
Definition is_streaming (e : event) : bool :=
  match e with
  | PollControlPipe | FmMpxGetSamples _ _ _ _ | SrcProcess _ _ | AoPlay _ _ _ => true
  | _ => false
  end.

Definition acquired (tr : list event) : list resource := omap acquire_call tr.

Definition released (tr : list event) : list resource := omap release_call tr.

(** What [terminate] calls when the globals hold [d] and [st]. *)
Definition teardown (d st : option handle) : list event :=
  [ FmMpxClose; CloseControlPipe; AoClose d; AoShutdown; SrcDelete st;
    Printf ("MPX generator stopped" ++ nl) [] ].

Definition add_events (evs : list event) (s : state) : state :=
  {| device := device s; src_state := src_state s; trace := trace s ++ evs |}.

Definition outcome_state {A} (o : outcome A) : state :=
  match o with
  | Returned _ s | Exited _ s | Undefined s | OutOfFuel s => s
  end.

Definition exit_code {A} (o : outcome A) : option Z :=
  match o with
  | Exited code _ => Some code
  | _ => None
  end.

(** ** Signals

    [generate_mpx] makes [terminate] the handler of the signals 0 to 24
    before it does anything else (lines 72-78). From then on a signal
    that arrives ends the run where it is: the handler makes the calls
    of [terminate] on the globals as they are and exits with the number
    of the signal. A signal arrives between two calls that leave the
    file, when the statements up to the next call have been executed. *)

(** No handler can be installed for SIGKILL and SIGSTOP, and 0 is not
    the number of a signal (the numbers are those of Linux on x86 and
    ARM). *)
Definition SIGKILL : Z := 9.
Definition SIGSTOP : Z := 19.

Definition is_sigaction (signum : Z) (e : event) : bool :=
  match e with
  | Sigaction n => n =? signum
  | _ => false
  end.

(** After the calls [tr], the signal [signum] finds [terminate]
    installed as its handler. *)
Definition handled (tr : list event) (signum : Z) : bool :=
  existsb (is_sigaction signum) tr
  && negb (signum =? 0) && negb (signum =? SIGKILL) && negb (signum =? SIGSTOP).

Definition is_ao_open_live (e : event) : bool :=
  match e with
  | AoOpenLive _ _ => true
  | _ => false
  end.

(** The globals when the calls [tr] of a run have returned: [device] is
    assigned once, what [ao_open_live] returned (line 96), and the global
    [src_state] is never assigned. *)
Definition globals_after (E : env) (tr : list event) : state :=
  {| device := if existsb is_ao_open_live tr then ao_open_live_res E else None;
     src_state := None;
     trace := tr |}.

(** [terminate num] while the signals [sigs] arrive: the first of them,
    [signum], when [k] calls of this invocation have returned, the others
    while the handler [terminate signum] runs. No handler returns. *)
Fixpoint terminate_signalled {A} (num : Z) (sigs : list (nat * Z)) : M A :=
  match sigs with
  | [] => terminate num
  | (k, signum) :: sigs' =>
      sequence_ (take k terminate_calls) ;; terminate_signalled signum sigs'
  end.

(** The run of [main] in which the signals [sigs] arrive: the first of
    them, [signum], when [k] calls of the run have returned, the others
    while the handler runs. *)
Definition run_main_signalled (E : env) (fuel : nat) (argv0 : string)
    (opts : list getopt_result) (sigs : list (nat * Z)) : outcome Z :=
  match sigs with
  | [] => run_main E fuel argv0 opts
  | (k, signum) :: sigs' =>
      terminate_signalled signum sigs'
        (globals_after E (take k (trace (outcome_state (run_main E fuel argv0 opts)))))
  end.

(** The signals [sigs] can arrive as said: the first one within the run,
    each of them with its handler installed by then, and none of them
    twice, since a signal is blocked while its handler runs ([sa_mask]
    and [sa_flags] are zero). *)
Definition delivered (E : env) (fuel : nat) (argv0 : string)
    (opts : list getopt_result) (sigs : list (nat * Z)) : bool :=
  match sigs with
  | [] => true
  | (k, _) :: _ =>
      let tr := trace (outcome_state (run_main E fuel argv0 opts)) in
      bool_decide (k <= length tr)%nat
      && forallb (fun sg => handled (take k tr) sg.2) sigs
      && bool_decide (NoDup (sigs.*2))
  end.

(** The number that the last handler passes to [exit]. *)
Fixpoint last_signal (num : Z) (sigs : list (nat * Z)) : Z :=
  match sigs with
  | [] => num
  | (_, signum) :: sigs' => last_signal signum sigs'
  end.

(** The calls of the invocations of [terminate] that were interrupted,
    after [ks] calls each. *)
Definition passes (d st : option handle) (ks : list nat) : list event :=
  ks ≫= (fun k => take k (teardown d st)).

(** [m] never calls [exit], leaves the globals alone and adds only
    events that satisfy [P]. *)
Definition emits {A} (P : event -> Prop) (m : M A) : Prop :=
  forall s, exit_code (m s) = None /\
    exists evs, Forall P evs /\ outcome_state (m s) = add_events evs s.

(** However [m] ends, it adds to the trace only events that satisfy [P]. *)
Definition logs {A} (P : event -> Prop) (m : M A) : Prop :=
  forall s, exists evs, Forall P evs /\ trace (outcome_state (m s)) = trace s ++ evs.

(** A call of [sigaction] is made for a number from 0 to 24. *)
Definition signal_call (e : event) : Prop :=
  match e with
  | Sigaction n => 0 <= n < 25
  | _ => True
  end.

(** A call of [src_process] is made with the settings [src_data]. *)
Definition converter_call (e : event) : Prop :=
  match e with
  | SrcProcess _ d => d = src_data
  | _ => True
  end.

(** Events that neither acquire, release nor stream: messages, the RDS
    setters and the installation of the handlers. *)
Definition silent (e : event) : Prop :=
  acquire_call e = None /\ release_call e = None /\ is_streaming e = false.

(** The events of the run loop: streaming calls and messages on stderr. *)
Definition loop_event (e : event) : Prop :=
  acquire_call e = None /\ release_call e = None.

(** The events of a run loop that polls the pipe [cp], if any. *)
Definition loop_event_of (cp : option string) (e : event) : Prop :=
  loop_event e /\ (cp = None -> e <> PollControlPipe).

(** The calls of [generate_mpx] up to and including [ao_open_live]. *)
Definition open_sink_events (E : env) : list event :=
  map Sigaction (seqZ 0 25)
  ++ [AoInitialize; AoDefaultDriverId; AoOpenLive (ao_default_driver_id_res E) ao_format].

(** The calls from [src_new] to [fm_mpx_open]. *)
Definition open_source_events (audio_file : option string) (preemphasis_cutoff : Z) : list event :=
  [ SrcNew SRC_SINC_FASTEST 1;
    Printf ("Starting MPX generator" ++ nl) [];
    FmMpxOpen audio_file DATA_SIZE preemphasis_cutoff ].

Definition set_rds_events (pi : Z) (ps rt : string) (pty tp : Z) : list event :=
  [ SetRdsPi pi; SetRdsPs ps; SetRdsRt rt; SetRdsPty pty; SetRdsTp tp; SetRdsMs 1; SetRdsAb 0 ].

Definition sink_opened (E : env) (evs : list event) (s : state) : state :=
  {| device := ao_open_live_res E; src_state := src_state s;
     trace := trace s ++ open_sink_events E ++ evs |}.

(** The 16-bit value of a sample at a given volume, when it has one. *)
Definition convert (volume : float32) (x : float32) : option Z :=
  short_of_float (sample_value x volume).

(** Each value twice: the left and the right channel of a frame. *)
Definition stereo (vs : list Z) : list Z := vs ≫= (fun v => [v; v]).

(** The converter wrote no more frames than [resample_out] holds and
    every formatted sample fits a [short]. *)
Definition frames_ok (mpx : float32) (frames : list float32) : Prop :=
  Z.of_nat (length frames) <= DATA_SIZE /\ is_Some (mapM (convert mpx) frames).

(** Iteration [i] runs to the end of the loop body. *)
Definition iteration_ok (E : env) (mpx : float32) (i : nat) : Prop :=
  0 <= fm_mpx_get_samples_res E i /\
  (src_process_res E i).1 = 0 /\
  frames_ok mpx (src_process_res E i).2 /\
  ao_play_res E i <> 0.

(** The three conditions on which iteration [i] leaves the loop. *)
Inductive streaming_fatal (E : env) (mpx : float32) (i : nat) : Prop :=
| source_fails :
    fm_mpx_get_samples_res E i < 0 -> streaming_fatal E mpx i
| conversion_fails :
    0 <= fm_mpx_get_samples_res E i ->
    (src_process_res E i).1 <> 0 -> streaming_fatal E mpx i
| sink_fails :
    0 <= fm_mpx_get_samples_res E i ->
    (src_process_res E i).1 = 0 ->
    frames_ok mpx (src_process_res E i).2 ->
    ao_play_res E i = 0 -> streaming_fatal E mpx i.

Definition buffers_ok (rb : list float32) (db : list Z) : Prop :=
  Z.of_nat (length rb) = DATA_SIZE /\ Z.of_nat (length db) = OUTPUT_DATA_SIZE.

Definition poll_events (cp : option string) : list event :=
  match cp with
  | Some _ => [PollControlPipe]
  | None => []
  end.

(** ** Option parsing and start-up *)

(** The array [alternative_freq] has its 100 elements and [af_size]
    indexes into it. *)
Definition locals_ok (l : locals) : Prop :=
  length (alternative_freq l) = 100%nat /\ 0 <= af_size l < 100.

(** What a rejected option leaves on stderr: the message of [fatal],
    after that of [getopt_long] when it is the library that rejects the
    option. *)
Definition rejection (evs : list event) : Prop :=
  exists fmt args,
    evs = [FprintfStderr fmt args] \/ exists c, evs = [GetoptError c; FprintfStderr fmt args].

(** What one pass through the [while] loop can do: go on with the state
    untouched, or leave through [fatal]. *)
Definition option_outcome (l : locals) (s : state) (o : outcome locals) : Prop :=
  match o with
  | Returned l' s' => s' = s /\ (locals_ok l -> locals_ok l')
  | Exited code s' => code = 1 /\ exists evs, rejection evs /\ s' = add_events evs s
  | Undefined s' => s' = s
  | OutOfFuel _ => False
  end.

(** What opening the control pipe adds to the trace. *)
Definition control_pipe_events (E : env) (cp : option string) : list event :=
  match cp with
  | None => []
  | Some path =>
      [ OpenControlPipe path;
        if open_control_pipe_res E =? 0
        then Printf ("Reading control commands on %s." ++ nl) [ArgStr path]
        else Printf ("Failed to open control pipe: %s." ++ nl) [ArgStr path] ]
  end.

(** The pipe that the run loop polls. *)
Definition polled_pipe (E : env) (cp : option string) : option string :=
  match cp with
  | None => None
  | Some path => if open_control_pipe_res E =? 0 then Some path else None
  end.

(** Every acquisition succeeds. *)
Definition startup_ok (E : env) : Prop :=
  is_Some (ao_open_live_res E) /\ is_Some (src_new_res E) /\ 0 <= fm_mpx_open_res E.

(** Some acquisition fails. *)
Definition startup_failure (E : env) : Prop :=
  ao_open_live_res E = None \/ src_new_res E = None \/ fm_mpx_open_res E < 0.

(** The calls of a successful start-up, in the order they are made. *)
Definition startup_events (E : env) (l : locals) (rds_evs : list event) : list event :=
  open_sink_events E
  ++ open_source_events (audio_file l) (preemphasis_cutoff l)
  ++ set_rds_events (pi l) (ps l) (rt l) (pty l) (tp l)
  ++ rds_evs
  ++ control_pipe_events E (control_pipe l).

Definition main_generate (E : env) (fuel : nat) (l : locals) : M Z :=
  generate_mpx E fuel (audio_file l) (rds l) (pi l) (ps l) (rt l)
    (<[0%nat := af_size l]> (alternative_freq l))
    (preemphasis_cutoff l) (mpx l) (control_pipe l) (pty l) (tp l) (wait l).

Definition acquisition_order : list resource :=
  [Sink; ConverterState; BasebandSource; ControlChannel].

Definition release_order : list resource :=
  [BasebandSource; ControlChannel; Sink; ConverterState].

(** [m] never calls [exit], leaves the globals alone and adds a list of
    events that satisfies [Q]. *)
Definition adds {A} (Q : list event -> Prop) (m : M A) : Prop :=
  forall s, exit_code (m s) = None /\
    exists evs, Q evs /\ outcome_state (m s) = add_events evs s.

(** After a successful [fm_mpx_open]: no release, and at most the
    control channel is acquired. *)
Definition after_open (evs : list event) : Prop :=
  released evs = [] /\ (acquired evs = [] \/ acquired evs = [ControlChannel]).

(** The loop body from the test of what [fm_mpx_get_samples] returned. *)
Definition after_get_samples (E : env) (iter : nat) (st : handle) (mpx : float32)
    (rb : list float32) (db : list Z) : M (option (list float32 * list Z)) :=
  if fm_mpx_get_samples_res E iter <? 0 then mret None
  else
    emit (SrcProcess st src_data) ;;
    let '(src_error, frames) := src_process_res E iter in
    if negb (src_error =? 0) then
      emit (FprintfStderr ("Error: src_process failed: %s" ++ nl) [ArgSrcStrerror src_error]) ;;
      mret None
    else
      match store_frames frames rb with
      | None => undefined
      | Some resample_buf1 =>
          let generated_frames := length frames in
          match postprocess resample_buf1 db generated_frames mpx with
          | None => undefined
          | Some (resample_buf2, dev_buf2) =>
              d ← get_device;
              emit (AoPlay d (take (2 * generated_frames) dev_buf2)
                      (Z.of_nat generated_frames * 4)) ;;
              if ao_play_res E iter =? 0 then
                emit (FprintfStderr ("Error: could not play audio." ++ nl) []) ;;
                mret None
              else mret (Some (resample_buf2, dev_buf2))
          end
      end.

(** ** Counting releases *)

#[global] Instance resource_eq_dec : EqDecision resource.
Proof. solve_decision. Defined.

(** The number of release calls for [r] in a trace. *)
Definition release_count (r : resource) (tr : list event) : nat :=
  length (List.filter (fun e => bool_decide (release_call e = Some r)) tr).

(** The number of calls [ao_close(h)] in a trace. *)
Definition close_count (h : handle) (tr : list event) : nat :=
  length (List.filter
            (fun e => match e with
                      | AoClose (Some h') => bool_decide (h' = h)
                      | _ => false
                      end) tr).

(** The position of the release call for [r] among the calls of
    [terminate], counted from 1. *)
Definition release_position (r : resource) : nat :=
  match r with
  | BasebandSource => 1
  | ControlChannel => 2
  | Sink => 3
  | ConverterState => 5
  end.

(** The state in which [main] calls [terminate] once the sink is open. *)
Definition running_state : state :=
  {| device := Some 1%positive; src_state := None; trace := [] |}.

(** ** Command-line arguments *)

Definition decimal (n : Z) : string := NilZero.string_of_uint (N.to_uint (Z.to_N n)).


Definition store_af (c : Z) (l : locals) : locals :=
  set_alternative_freq (<[Z.to_nat (af_size l + 1) := c]> (alternative_freq l))
    (af_size l + 1) l.

(** No digit follows the white space and the sign at the head of [s]:
    [s] does not begin with a number. *)
Definition no_number (s : string) : Prop :=
  (read_digits 10 (read_sign (skip_space s)).2 0 0).1.2 = 0%nat.

(** ** Example environments *)

(** Collaborators that never fail; the converter delivers [frames] in
    every iteration and the source never ends. *)
Definition env_ok (frames : list float32) : env :=
  {| ao_default_driver_id_res := 0;
     ao_open_live_res := Some 1%positive;
     src_new_res := Some 2%positive;
     src_new_error := 0;
     fm_mpx_open_res := 0;
     open_control_pipe_res := 0;
     fm_mpx_get_samples_res := fun _ => 0;
     src_process_res := fun _ => (0, frames);
     ao_play_res := fun _ => 1 |}.

(** Two frames: silence and a sample of half the full amplitude. *)
Definition two_frames : list float32 := [S754_zero false; f32_of_int 5].

(** The source reports the end of the stream in iteration [n]. *)
Definition env_end_of_stream (n : nat) : env :=
  {| ao_default_driver_id_res := 0;
     ao_open_live_res := Some 1%positive;
     src_new_res := Some 2%positive;
     src_new_error := 0;
     fm_mpx_open_res := 0;
     open_control_pipe_res := 0;
     fm_mpx_get_samples_res := fun i => if (i <? n)%nat then 0 else -1;
     src_process_res := fun _ => (0, two_frames);
     ao_play_res := fun _ => 1 |}.

(** The sink refuses the block of iteration [n]. *)
Definition env_sink_fails (n : nat) : env :=
  {| ao_default_driver_id_res := 0;
     ao_open_live_res := Some 1%positive;
     src_new_res := Some 2%positive;
     src_new_error := 0;
     fm_mpx_open_res := 0;
     open_control_pipe_res := 0;
     fm_mpx_get_samples_res := fun _ => 0;
     src_process_res := fun _ => (0, two_frames);
     ao_play_res := fun i => if (i <? n)%nat then 1 else 0 |}.

(** The sound device cannot be opened. *)
Definition env_no_sink : env :=
  {| ao_default_driver_id_res := 0;
     ao_open_live_res := None;
     src_new_res := Some 2%positive;
     src_new_error := 0;
     fm_mpx_open_res := 0;
     open_control_pipe_res := 0;
     fm_mpx_get_samples_res := fun _ => 0;
     src_process_res := fun _ => (0, two_frames);
     ao_play_res := fun _ => 1 |}.

(** The control pipe cannot be opened; the source ends after [n] blocks. *)
Definition env_no_control_pipe (n : nat) : env :=
  {| ao_default_driver_id_res := 0;
     ao_open_live_res := Some 1%positive;
     src_new_res := Some 2%positive;
     src_new_error := 0;
     fm_mpx_open_res := 0;
     open_control_pipe_res := -1;
     fm_mpx_get_samples_res := fun i => if (i <? n)%nat then 0 else -1;
     src_process_res := fun _ => (0, two_frames);
     ao_play_res := fun _ => 1 |}.

Definition option_of (c : ascii) (arg : string) : getopt_result :=
  {| opt := c; optarg := arg; optopt := "000" |}.

(** ** Rounding *)

(** [f] applied [n] times. *)
Fixpoint iterate {A} (f : A -> A) (n : nat) (x : A) : A :=
  match n with
  | O => x
  | S n' => f (iterate f n' x)
  end.

(** The steps of [binary_round_aux]: the mantissa after the first shift
    by [n] and the rounding to nearest even. *)
Definition round1 (m : Z) (l : location) (n : Z) : Z :=
  let r := (shr (shr_record_of_loc m l) 0 n).1 in
  round_nearest_even (shr_m r) (loc_of_shr_record r).

(** The result for a mantissa and an exponent that are final. *)
Definition finish (prec emax : Z) (s : bool) (m e : Z) : spec_float :=
  match m with
  | 0 => S754_zero s
  | Zpos p => if e <=? emax - prec then S754_finite s p e else S754_infinity s
  | Zneg _ => S754_nan
  end.

(** A number that is twice as large: the same mantissa with the next
    exponent, or infinity when that exponent is out of range. *)
Definition SFdouble (prec emax : Z) (x : spec_float) : spec_float :=
  match x with
  | S754_finite s m e => if e + 1 <=? emax - prec then S754_finite s m (e + 1) else S754_infinity s
  | _ => x
  end.

(** The exponent at which [SFdiv] computes the quotient, and the shift of
    the dividend that it takes. *)
Definition div_exponent (prec emax : Z) (mx : positive) (ex : Z) (my : positive) (ey : Z) : Z :=
  Z.min (fexp prec emax (Zdigits2 (Zpos mx) + ex - (Zdigits2 (Zpos my) + ey))) (ex - ey).

Definition div_shift (prec emax : Z) (mx : positive) (ex : Z) (my : positive) (ey : Z) : Z :=
  ex - ey - div_exponent prec emax mx ex my ey.

Definition f32_valid (x : float32) : Prop := valid_binary 24 128 x = true.

(** Twice [x]: the next exponent, or infinity. *)
Definition f32_double : float32 -> float32 := SFdouble 24 128.

Definition f32_one : float32 := S754_finite false 8388608 (-23).

Definition f32_two : float32 := S754_finite false 8388608 (-22).

Definition f32_hundred : float32 := S754_finite false 13107200 (-17).

(** The [float] nearest to one tenth; its value is 13421773 / 2^27. *)
Definition f32_tenth : float32 := S754_finite false 13421773 (-27).

(** The magnitude of [x] is at least 8 times the least normal number
    of binary32: a finite number whose exponent is -146 or more (the
    lowest exponent is -149). *)
Definition clear_of_underflow (x : float32) : Prop :=
  match x with
  | S754_finite _ _ e => -146 <= e
  | _ => False
  end.

(** * Descriptions of a run *)

(** ** The run loop, call by call *)

(** The 16-bit values of the frames that the converter delivers in
    iteration [i], when the frames fit [resample_out] and each of them
    has such a value. *)
Definition formatted (E : env) (mpx : float32) (i : nat) : option (list Z) :=
  let frames := (src_process_res E i).2 in
  if bool_decide (Z.of_nat (length frames) <= DATA_SIZE)
  then mapM (convert mpx) frames
  else None.

(** The calls that iteration [i] of the run loop makes, with the sink [d]
    and the converter [st]. *)
Definition iteration_events (E : env) (cp : option string) (st : handle) (rds wait : Z)
    (mpx : float32) (d : option handle) (i : nat) : list event :=
  poll_events cp ++
  FmMpxGetSamples mpx_data rds_data rds wait ::
  (if fm_mpx_get_samples_res E i <? 0 then []
   else
     SrcProcess st src_data ::
     (if negb ((src_process_res E i).1 =? 0) then
        [ FprintfStderr ("Error: src_process failed: %s" ++ nl)
            [ArgSrcStrerror (src_process_res E i).1] ]
      else
        match formatted E mpx i with
        | None => []
        | Some vs =>
            AoPlay d (stereo vs) (Z.of_nat (length (src_process_res E i).2) * 4) ::
            (if ao_play_res E i =? 0
             then [FprintfStderr ("Error: could not play audio." ++ nl) []]
             else [])
        end)).

(** The calls of the [n] iterations from [i] on. *)
Definition loop_events (E : env) (cp : option string) (st : handle) (rds wait : Z)
    (mpx : float32) (d : option handle) (i n : nat) : list event :=
  seq i n ≫= iteration_events E cp st rds wait mpx d.

(** In iteration [i] the converter delivers more frames than
    [resample_out] holds, or a sample whose value does not fit a [short]. *)
Definition overrun (E : env) (mpx : float32) (i : nat) : Prop :=
  0 <= fm_mpx_get_samples_res E i /\
  (src_process_res E i).1 = 0 /\
  formatted E mpx i = None.

(** The blocks handed to [ao_play], in the order of the calls. *)
Definition played (tr : list event) : list (list Z) :=
  omap (fun e => match e with AoPlay _ samples _ => Some samples | _ => None end) tr.

(** The block that iteration [i] hands to [ao_play]. *)
Definition block (E : env) (mpx : float32) (i : nat) : option (list Z) :=
  stereo <$> formatted E mpx i.

(** The block of an iteration that ends the loop: the sink is handed one
    only when source and converter succeeded. *)
Definition last_block (E : env) (mpx : float32) (i : nat) : list (list Z) :=
  if (fm_mpx_get_samples_res E i <? 0) || negb ((src_process_res E i).1 =? 0) then []
  else option_list (block E mpx i).

Definition is_get_samples (e : event) : bool :=
  match e with FmMpxGetSamples _ _ _ _ => true | _ => false end.

(** The number of calls of one kind in a trace. *)
Definition calls (f : event -> bool) (tr : list event) : nat :=
  length (List.filter f tr).

(** What printing the RDS options adds to the trace: the frequencies are
    announced to the encoder and printed when RDS is on and at least one
    was given. *)
Definition af_events (af : list Z) : list event :=
  match af !! 0%nat with
  | Some af0 =>
      if af0 =? 0 then []
      else
        SetRdsAf af :: Printf "AF: " [] ::
        map (fun a => Printf "%f Mhz "
                        [ArgFloat (f32_div (f32_of_int (a + 875)) (f32_of_int 10))])
            (take (Z.to_nat af0) (drop 1 af))
        ++ [Printf nl []]
  | None => []
  end.

Definition rds_option_events (rds pi : Z) (ps rt : string) (af : list Z) (pty : Z) : list event :=
  Printf ("RDS Options:" ++ nl) [] ::
  (if rds =? 0 then [Printf ("RDS: %i" ++ nl) [ArgInt rds]]
   else
     Printf ("RDS: %i, PI: %04X, PS: " ++ dquote ++ "%s" ++ dquote ++ ", PTY: %i" ++ nl)
       [ArgInt rds; ArgInt pi; ArgStr ps; ArgInt pty] ::
     Printf ("RT: " ++ dquote ++ "%s" ++ dquote ++ nl) [ArgStr rt] ::
     af_events af).

(** The array of alternative frequencies that [main] passes on. *)
Definition af_array (l : locals) : list Z := <[0%nat := af_size l]> (alternative_freq l).

(** The calls of a successful start-up after the options [l]. *)
Definition startup_trace (E : env) (l : locals) : list event :=
  startup_events E l (rds_option_events (rds l) (pi l) (ps l) (rt l) (af_array l) (pty l)).

(** The arrays given to [set_rds_af], and the frequencies printed. *)
Definition af_calls (tr : list event) : list (list Z) :=
  omap (fun e => match e with SetRdsAf a => Some a | _ => None end) tr.

Definition af_printed (tr : list event) : list float32 :=
  omap (fun e => match e with Printf _ [ArgFloat x] => Some x | _ => None end) tr.

(** ** Messages *)

(** What the file itself writes to stderr, in order; the message of
    [getopt_long] about a rejected option, [GetoptError], is the
    library's. *)
Definition stderr_messages (tr : list event) : list (string * list arg) :=
  omap (fun e => match e with FprintfStderr fmt args => Some (fmt, args) | _ => None end) tr.

(** What iteration [i] reports when it leaves the loop. *)
Definition break_message (E : env) (i : nat) : list (string * list arg) :=
  if fm_mpx_get_samples_res E i <? 0 then []
  else if negb ((src_process_res E i).1 =? 0) then
    [(("Error: src_process failed: %s" ++ nl)%string,
      [ArgSrcStrerror (src_process_res E i).1])]
  else [(("Error: could not play audio." ++ nl)%string, [])].

(** What a start-up reports that fails. *)
Definition startup_message (E : env) : list (string * list arg) :=
  match ao_open_live_res E, src_new_res E with
  | None, _ => [(("Error: cannot open sound device." ++ nl)%string, [])]
  | Some _, None =>
      [(("Error: src_new failed: %s" ++ nl)%string, [ArgSrcStrerror (src_new_error E)])]
  | Some _, Some _ => []
  end.

(** ** Options *)

(** The array [alternative_freq] while the options are read: the codes
    stored so far are valid, the rest is still zero. *)
Definition af_array_ok (l : locals) : Prop :=
  length (alternative_freq l) = 100%nat /\ 0 <= af_size l < 100 /\
  alternative_freq l !! 0%nat = Some 0 /\
  (forall i c, (1 <= i <= Z.to_nat (af_size l))%nat ->
     alternative_freq l !! i = Some c -> 1 <= c <= 204) /\
  (forall i c, (Z.to_nat (af_size l) < i)%nat -> alternative_freq l !! i = Some c -> c = 0).

(** ** Decimal arguments *)

(** The number that the digits of [d] continue from [acc]. *)
Fixpoint uint_value (d : Decimal.uint) (acc : Z) : Z :=
  match d with
  | Decimal.Nil => acc
  | Decimal.D0 u => uint_value u (10 * acc)
  | Decimal.D1 u => uint_value u (10 * acc + 1)
  | Decimal.D2 u => uint_value u (10 * acc + 2)
  | Decimal.D3 u => uint_value u (10 * acc + 3)
  | Decimal.D4 u => uint_value u (10 * acc + 4)
  | Decimal.D5 u => uint_value u (10 * acc + 5)
  | Decimal.D6 u => uint_value u (10 * acc + 6)
  | Decimal.D7 u => uint_value u (10 * acc + 7)
  | Decimal.D8 u => uint_value u (10 * acc + 8)
  | Decimal.D9 u => uint_value u (10 * acc + 9)
  end.

(** [s] does not go on with a decimal digit. *)
Definition no_digit_ahead (s : string) : Prop :=
  match s with
  | String c _ => digit_in 10 c = None
  | EmptyString => True
  end.

(** ** The range of the samples *)

(** The magnitude of [x] is at most the integer [n]. *)
Definition abs_le (x : spec_float) (n : Z) : bool :=
  match x with
  | S754_zero _ => 0 <=? n
  | S754_finite _ m e =>
      if e <=? 0 then Zpos m <=? n * 2 ^ (- e) else Zpos m * 2 ^ e <=? n
  | _ => false
  end.

(** A sample the baseband generator is meant to deliver: a [float]
    between -10 and 10. *)
Definition sample_in_range (x : float32) : Prop :=
  f32_valid x /\ abs_le x 10 = true.

(** A gain between -100 and 100. *)
Definition gain_in_range (g : float32) : Prop :=
  f32_valid g /\ abs_le g 100 = true.

(** The blocks of the converter fit [resample_out] and hold samples
    between -10 and 10. *)
Definition blocks_in_range (E : env) : Prop :=
  forall i, Z.of_nat (length (src_process_res E i).2) <= DATA_SIZE /\
            Forall sample_in_range (src_process_res E i).2.

(** * Rounding in [SpecFloat] *)

Section Rounding.

Variables prec emax : Z.
Hypothesis prec_gt_1 : 1 < prec.
Hypothesis prec_lt_emax : prec < emax.

Abbreviation emin := (emin prec emax).
Abbreviation fexp := (fexp prec emax).
Abbreviation binary_round_aux := (binary_round_aux prec emax).
Abbreviation shr_fexp := (shr_fexp prec emax).
Abbreviation bounded := (bounded prec emax).

(** *** The number of binary digits *)

Lemma digits2_pos_bounds p :
  2 ^ (Zpos (digits2_pos p) - 1) <= Zpos p < 2 ^ Zpos (digits2_pos p).
Proof.
  induction p as [p IH|p IH|]; cbn [digits2_pos].
  - rewrite Pos2Z.inj_succ.
    replace (Z.succ (Zpos (digits2_pos p)) - 1) with (Z.succ (Zpos (digits2_pos p) - 1)) by lia.
    rewrite !Z.pow_succ_r by lia. lia.
  - rewrite Pos2Z.inj_succ.
    replace (Z.succ (Zpos (digits2_pos p)) - 1) with (Z.succ (Zpos (digits2_pos p) - 1)) by lia.
    rewrite !Z.pow_succ_r by lia. lia.
  - cbn. lia.
Qed.

Lemma Zdigits2_bounds m :
  0 < m -> 0 < Zdigits2 m /\ 2 ^ (Zdigits2 m - 1) <= m < 2 ^ Zdigits2 m.
Proof.
  destruct m as [|p|p]; try lia. intros _. cbn [Zdigits2].
  split; [lia|apply digits2_pos_bounds].
Qed.

Lemma Zdigits2_0 : Zdigits2 0 = 0.
Proof. reflexivity. Qed.

Lemma Zdigits2_nonneg m : 0 <= m -> 0 <= Zdigits2 m.
Proof. destruct m; cbn; lia. Qed.

Lemma Zdigits2_unique m k : 0 < k -> 2 ^ (k - 1) <= m < 2 ^ k -> Zdigits2 m = k.
Proof.
  intros Hk [Hlo Hhi].
  assert (Hm : 0 < m) by (pose proof (Z.pow_pos_nonneg 2 (k - 1)); lia).
  destruct (Zdigits2_bounds m Hm) as (Hd & Hdlo & Hdhi).
  destruct (Z.lt_trichotomy (Zdigits2 m) k) as [Hlt|[Heq|Hgt]]; [|done|].
  - assert (2 ^ Zdigits2 m <= 2 ^ (k - 1)) by (apply Z.pow_le_mono_r; lia). lia.
  - assert (2 ^ k <= 2 ^ (Zdigits2 m - 1)) by (apply Z.pow_le_mono_r; lia). lia.
Qed.

(** At least [k] digits from a lower bound, at most [k] from an upper. *)
Lemma Zdigits2_ge m k : 0 <= k -> 2 ^ k <= m -> k + 1 <= Zdigits2 m.
Proof.
  intros Hk Hlo.
  assert (Hm : 0 < m) by (pose proof (Z.pow_pos_nonneg 2 k); lia).
  destruct (Zdigits2_bounds m Hm) as (Hd & Hdlo & Hdhi).
  destruct (Z_lt_le_dec (Zdigits2 m) (k + 1)) as [Hlt|]; [|done].
  assert (2 ^ Zdigits2 m <= 2 ^ k) by (apply Z.pow_le_mono_r; lia). lia.
Qed.

Lemma Zdigits2_le m k : 0 <= k -> 0 <= m < 2 ^ k -> Zdigits2 m <= k.
Proof.
  intros Hk [Hm Hhi]. destruct (Z.eq_dec m 0) as [->|Hne]; [cbn; lia|].
  destruct (Zdigits2_bounds m ltac:(lia)) as (Hd & Hdlo & Hdhi).
  destruct (Z_lt_le_dec k (Zdigits2 m)) as [Hlt|]; [|done].
  assert (2 ^ k <= 2 ^ (Zdigits2 m - 1)) by (apply Z.pow_le_mono_r; lia). lia.
Qed.

Lemma Zdigits2_mono m n : 0 <= m <= n -> Zdigits2 m <= Zdigits2 n.
Proof.
  intros [Hm Hmn]. destruct (Z.eq_dec m 0) as [->|Hne].
  { rewrite Zdigits2_0. by apply Zdigits2_nonneg. }
  destruct (Zdigits2_bounds m ltac:(lia)) as (Hd & Hdlo & Hdhi).
  pose proof (Zdigits2_ge n (Zdigits2 m - 1) ltac:(lia) ltac:(lia)). lia.
Qed.

Lemma Zdigits2_div_pow2 m n :
  0 < m -> 0 <= n -> Zdigits2 (m / 2 ^ n) = Z.max (Zdigits2 m - n) 0.
Proof.
  intros Hm Hn. destruct (Zdigits2_bounds m Hm) as (Hd & Hlo & Hhi).
  assert (Hp : 0 < 2 ^ n) by (apply Z.pow_pos_nonneg; lia).
  destruct (Z_lt_le_dec n (Zdigits2 m)) as [Hlt|Hge].
  - rewrite Z.max_l by lia. apply Zdigits2_unique; [lia|]. split.
    + apply Z.div_le_lower_bound; [done|].
      rewrite <- Z.pow_add_r by lia.
      by replace (n + (Zdigits2 m - n - 1)) with (Zdigits2 m - 1) by lia.
    + apply Z.div_lt_upper_bound; [done|].
      rewrite <- Z.pow_add_r by lia.
      by replace (n + (Zdigits2 m - n)) with (Zdigits2 m) by lia.
  - rewrite Z.max_r by lia.
    assert (2 ^ Zdigits2 m <= 2 ^ n) by (apply Z.pow_le_mono_r; lia).
    rewrite Z.div_small by lia. reflexivity.
Qed.

Lemma Zdigits2_mul_pow2 m n :
  0 < m -> 0 <= n -> Zdigits2 (m * 2 ^ n) = Zdigits2 m + n.
Proof.
  intros Hm Hn. destruct (Zdigits2_bounds m Hm) as (Hd & Hlo & Hhi).
  assert (Hp : 0 < 2 ^ n) by (apply Z.pow_pos_nonneg; lia).
  apply Zdigits2_unique; [lia|].
  replace (Zdigits2 m + n - 1) with ((Zdigits2 m - 1) + n) by lia.
  rewrite !Z.pow_add_r by lia. nia.
Qed.

(** One more than [m] has as many digits as [m], or is a power of 2. *)
Lemma Zdigits2_succ m :
  0 <= m ->
  Zdigits2 (m + 1) = Zdigits2 m \/
  (Zdigits2 (m + 1) = Zdigits2 m + 1 /\ m + 1 = 2 ^ Zdigits2 m).
Proof.
  intros Hm. destruct (Z.eq_dec m 0) as [->|Hne]; [right; by cbn|].
  destruct (Zdigits2_bounds m ltac:(lia)) as (Hd & Hlo & Hhi).
  destruct (Z.eq_dec (m + 1) (2 ^ Zdigits2 m)) as [Heq|Hneq].
  - right. split; [|done]. apply Zdigits2_unique; [lia|].
    replace (Zdigits2 m + 1 - 1) with (Zdigits2 m) by lia.
    rewrite Z.pow_add_r by lia. lia.
  - left. apply Zdigits2_unique; lia.
Qed.

Lemma Zdigits2_mul p q :
  Zdigits2 (Zpos p) + Zdigits2 (Zpos q) - 1 <= Zdigits2 (Zpos (p * q)).
Proof.
  destruct (Zdigits2_bounds (Zpos p) ltac:(lia)) as (Hdp & Hplo & Hphi).
  destruct (Zdigits2_bounds (Zpos q) ltac:(lia)) as (Hdq & Hqlo & Hqhi).
  pose proof (Zdigits2_ge (Zpos (p * q)) (Zdigits2 (Zpos p) + Zdigits2 (Zpos q) - 2)
                ltac:(lia)) as H.
  replace (Zdigits2 (Zpos p) + Zdigits2 (Zpos q) - 2)
    with ((Zdigits2 (Zpos p) - 1) + (Zdigits2 (Zpos q) - 1)) in H by lia.
  rewrite Z.pow_add_r in H by lia.
  rewrite Pos2Z.inj_mul in *.
  assert (0 < 2 ^ (Zdigits2 (Zpos p) - 1)) by (apply Z.pow_pos_nonneg; lia).
  assert (0 < 2 ^ (Zdigits2 (Zpos q) - 1)) by (apply Z.pow_pos_nonneg; lia).
  specialize (H ltac:(nia)). lia.
Qed.

(** *** Shifting to the right *)

Lemma iterate_add {A} (f : A -> A) a b x :
  iterate f (a + b) x = iterate f a (iterate f b x).
Proof. induction a as [|a IH]; cbn; [done|]. by rewrite IH. Qed.

Lemma iterate_succ_r {A} (f : A -> A) n x : iterate f (S n) x = iterate f n (f x).
Proof. replace (S n) with (n + 1)%nat by lia. by rewrite iterate_add. Qed.

Lemma iter_pos_iterate {A} (f : A -> A) p : forall x,
  SpecFloat.iter_pos f p x = iterate f (Pos.to_nat p) x.
Proof.
  induction p as [p IH|p IH|]; intros x; cbn [SpecFloat.iter_pos].
  - rewrite !IH, Pos2Nat.inj_xI.
    replace (S (2 * Pos.to_nat p)) with (Pos.to_nat p + (Pos.to_nat p + 1))%nat by lia.
    rewrite !iterate_add. reflexivity.
  - rewrite !IH, Pos2Nat.inj_xO.
    replace (2 * Pos.to_nat p)%nat with (Pos.to_nat p + Pos.to_nat p)%nat by lia.
    rewrite iterate_add. reflexivity.
  - reflexivity.
Qed.

Lemma shr_1_m mrs : 0 <= shr_m mrs -> shr_m (shr_1 mrs) = shr_m mrs / 2.
Proof.
  destruct mrs as [m r s]. cbn [shr_m]. intros Hm.
  destruct m as [|[p|p|]|p]; cbn [shr_1 shr_m]; [reflexivity| | |reflexivity|lia].
  - rewrite Pos2Z.inj_xI. apply Z.div_unique with 1; lia.
  - rewrite Pos2Z.inj_xO. apply Z.div_unique with 0; lia.
Qed.

Lemma shr_iter_m n : forall mrs,
  0 <= shr_m mrs ->
  shr_m (iterate shr_1 n mrs) = shr_m mrs / 2 ^ Z.of_nat n.
Proof.
  induction n as [|n IH]; intros mrs Hm.
  - cbn. by rewrite Z.div_1_r.
  - cbn [iterate]. pose proof (IH mrs Hm) as H.
    rewrite shr_1_m by (rewrite H; apply Z.div_pos; lia). rewrite H.
    rewrite Nat2Z.inj_succ, Z.pow_succ_r by lia.
    rewrite Z.div_div by lia. f_equal. lia.
Qed.

Lemma shr_1_even k :
  0 <= k ->
  shr_1 {| shr_m := 2 * k; shr_r := false; shr_s := false |}
  = {| shr_m := k; shr_r := false; shr_s := false |}.
Proof. destruct k; [reflexivity|reflexivity|lia]. Qed.

(** Shifting out zeros loses nothing. *)
Lemma shr_iter_exact n : forall m,
  0 <= m ->
  iterate shr_1 n {| shr_m := m * 2 ^ Z.of_nat n; shr_r := false; shr_s := false |}
  = {| shr_m := m; shr_r := false; shr_s := false |}.
Proof.
  induction n as [|n IH]; intros m Hm.
  - cbn. by rewrite Z.mul_1_r.
  - rewrite iterate_succ_r.
    replace (m * 2 ^ Z.of_nat (S n)) with (2 * (m * 2 ^ Z.of_nat n))
      by (rewrite Nat2Z.inj_succ, Z.pow_succ_r by lia; lia).
    rewrite shr_1_even by (apply Z.mul_nonneg_nonneg; lia).
    by apply IH.
Qed.

(** What [shr] leaves of a mantissa that is not negative. *)
Lemma shr_m_div mrs e n :
  0 <= shr_m mrs ->
  shr_m (shr mrs e n).1 = shr_m mrs / 2 ^ Z.max n 0 /\ (shr mrs e n).2 = e + Z.max n 0.
Proof.
  intros Hm. destruct n as [|p|p]; cbn [shr fst snd].
  - rewrite Z.div_1_r. split; [done|lia].
  - rewrite iter_pos_iterate, shr_iter_m, positive_nat_Z by done.
    rewrite Z.max_l by lia. done.
  - rewrite Z.max_r by lia. rewrite Z.div_1_r. split; [done|lia].
Qed.

Lemma shr_record_of_loc_m m l : shr_m (shr_record_of_loc m l) = m.
Proof. by destruct l as [|[]]. Qed.

Lemma round_nearest_even_bounds m l :
  round_nearest_even m l = m \/ round_nearest_even m l = m + 1.
Proof. destruct l as [|[]]; cbn; auto. destruct (Z.even m); auto. Qed.

Lemma loc_of_shr_record_exact m :
  loc_of_shr_record {| shr_m := m; shr_r := false; shr_s := false |} = loc_Exact.
Proof. reflexivity. Qed.

Lemma fexp_ge_emin e : emin <= fexp e.
Proof. unfold SpecFloat.fexp. lia. Qed.

Lemma fexp_mono a b : a <= b -> fexp a <= fexp b.
Proof. unfold SpecFloat.fexp. lia. Qed.

Lemma fexp_normal e : emin + prec <= e -> fexp e = e - prec.
Proof. unfold SpecFloat.fexp. lia. Qed.

(** *** [binary_round_aux] step by step *)

Lemma shr_fst mrs e n : (shr mrs e n).1 = (shr mrs 0 n).1.
Proof. by destruct n. Qed.

Lemma shr_snd mrs e n : (shr mrs e n).2 = e + Z.max n 0.
Proof. destruct n; cbn [shr snd]; lia. Qed.

Lemma round1_bounds m l n :
  0 <= m ->
  round1 m l n = m / 2 ^ Z.max n 0 \/ round1 m l n = m / 2 ^ Z.max n 0 + 1.
Proof.
  intros Hm. unfold round1.
  destruct (shr_m_div (shr_record_of_loc m l) 0 n) as [H _];
    [by rewrite shr_record_of_loc_m|].
  rewrite shr_record_of_loc_m in H. rewrite <- H.
  apply round_nearest_even_bounds.
Qed.

Lemma round1_nonneg m l n : 0 <= m -> 0 <= round1 m l n.
Proof.
  intros Hm. assert (0 <= m / 2 ^ Z.max n 0) by (apply Z.div_pos; lia).
  destruct (round1_bounds m l n Hm); lia.
Qed.

Lemma binary_round_aux_steps s m e l :
  0 <= m ->
  let n1 := fexp (Zdigits2 m + e) - e in
  let m1 := round1 m l n1 in
  let e1 := e + Z.max n1 0 in
  let n2 := fexp (Zdigits2 m1 + e1) - e1 in
  binary_round_aux s m e l = finish prec emax s (m1 / 2 ^ Z.max n2 0) (e1 + Z.max n2 0).
Proof.
  intros Hm n1 m1 e1 n2.
  unfold SpecFloat.binary_round_aux, SpecFloat.shr_fexp.
  fold n1.
  destruct (shr (shr_record_of_loc m l) e n1) as [mrs' e'] eqn:H1.
  assert (Hm1 : round_nearest_even (shr_m mrs') (loc_of_shr_record mrs') = m1).
  { unfold m1, round1. rewrite <- (shr_fst _ e), H1. reflexivity. }
  assert (He1 : e' = e1).
  { unfold e1. rewrite <- (shr_snd (shr_record_of_loc m l)), H1. reflexivity. }
  rewrite Hm1, He1. fold n2.
  destruct (shr (shr_record_of_loc m1 loc_Exact) e1 n2) as [mrs'' e''] eqn:H2.
  destruct (shr_m_div (shr_record_of_loc m1 loc_Exact) e1 n2) as [Hm2 He2].
  { rewrite shr_record_of_loc_m. by apply round1_nonneg. }
  rewrite H2 in Hm2, He2. cbn [fst snd] in Hm2, He2.
  rewrite shr_record_of_loc_m in Hm2. rewrite Hm2, He2. reflexivity.
Qed.

Lemma finish_double s m e : finish prec emax s m (e + 1) = SFdouble prec emax (finish prec emax s m e).
Proof.
  destruct m as [|p|p]; cbn [finish SFdouble]; try reflexivity.
  destruct (e <=? emax - prec) eqn:H1; cbn [SFdouble].
  - reflexivity.
  - assert ((e + 1 <=? emax - prec) = false) as -> by lia. reflexivity.
Qed.

(** In the range of the normal numbers, rounding commutes with doubling. *)
Lemma binary_round_aux_double s m e l :
  0 < m -> emin + prec <= Zdigits2 m + e ->
  binary_round_aux s m (e + 1) l = SFdouble prec emax (binary_round_aux s m e l).
Proof.
  intros Hm Hnormal.
  rewrite !binary_round_aux_steps by lia. cbv zeta.
  set (d := Zdigits2 m) in *.
  assert (Hn1 : fexp (d + (e + 1)) - (e + 1) = fexp (d + e) - e).
  { rewrite !fexp_normal by lia. lia. }
  rewrite Hn1. set (n1 := fexp (d + e) - e).
  assert (Hn1' : n1 = d - prec) by (unfold n1; rewrite fexp_normal by lia; lia).
  set (m1 := round1 m l n1).
  assert (Hp : 0 < 2 ^ Z.max n1 0) by (apply Z.pow_pos_nonneg; lia).
  assert (Hd1 : d + e <= Zdigits2 m1 + (e + Z.max n1 0)).
  { assert (Hge : m / 2 ^ Z.max n1 0 <= m1) by (destruct (round1_bounds m l n1); lia).
    assert (Hdd : Zdigits2 (m / 2 ^ Z.max n1 0) = Z.max (d - Z.max n1 0) 0)
      by (apply Zdigits2_div_pow2; lia).
    assert (Hmono : Zdigits2 (m / 2 ^ Z.max n1 0) <= Zdigits2 m1).
    { apply Zdigits2_mono. split; [apply Z.div_pos; lia|done]. }
    lia. }
  assert (Hn2 : fexp (Zdigits2 m1 + (e + 1 + Z.max n1 0)) - (e + 1 + Z.max n1 0)
                = fexp (Zdigits2 m1 + (e + Z.max n1 0)) - (e + Z.max n1 0)).
  { rewrite !fexp_normal by lia. lia. }
  rewrite Hn2.
  replace (e + 1 + Z.max n1 0 + Z.max (fexp (Zdigits2 m1 + (e + Z.max n1 0)) - (e + Z.max n1 0)) 0)
    with (e + Z.max n1 0 + Z.max (fexp (Zdigits2 m1 + (e + Z.max n1 0)) - (e + Z.max n1 0)) 0 + 1)
    by lia.
  apply finish_double.
Qed.

Lemma bounded_intro p e :
  fexp (Zdigits2 (Zpos p) + e) = e -> e <= emax - prec -> bounded p e = true.
Proof.
  intros Hc He. unfold SpecFloat.bounded, canonical_mantissa. cbn [Zdigits2] in Hc.
  rewrite Hc, Z.eqb_refl. cbn. lia.
Qed.

Lemma bounded_elim p e :
  bounded p e = true -> fexp (Zdigits2 (Zpos p) + e) = e /\ e <= emax - prec.
Proof.
  unfold SpecFloat.bounded, canonical_mantissa. cbn [Zdigits2]. lia.
Qed.

(** What [binary_round_aux] returns when the mantissa it is given has
    no fewer digits than the format keeps: zero, a number of the format
    whose exponent is the one of the exact value or the next, or
    infinity. *)
Lemma binary_round_aux_spec s m e l :
  0 <= m -> e <= fexp (Zdigits2 m + e) ->
  binary_round_aux s m e l = S754_zero s \/
  (exists p e',
     binary_round_aux s m e l = S754_finite s p e' /\ bounded p e' = true /\
     fexp (Zdigits2 m + e) <= e' <= fexp (Zdigits2 m + e) + 1) \/
  (binary_round_aux s m e l = S754_infinity s /\ emax - prec < fexp (Zdigits2 m + e) + 1).
Proof.
  intros Hm He.
  rewrite binary_round_aux_steps by done. cbv zeta.
  set (d := Zdigits2 m) in *. set (E := fexp (d + e)) in *.
  replace (e + Z.max (E - e) 0) with E by lia.
  set (n1 := E - e). set (m1 := round1 m l n1).
  assert (HE : emin <= E) by apply fexp_ge_emin.
  assert (Hp : 0 < 2 ^ Z.max n1 0) by (apply Z.pow_pos_nonneg; lia).
  set (m' := m / 2 ^ Z.max n1 0).
  assert (Hm' : 0 <= m') by (apply Z.div_pos; lia).
  assert (Hdm' : Zdigits2 m' <= prec /\ (emin < E -> Zdigits2 m' = prec)).
  { destruct (Z.eq_dec m 0) as [->|Hne].
    - unfold m'. rewrite Z.div_0_l by lia. cbn [Zdigits2].
      split; [lia|]. intros HlE. subst E d. cbn [Zdigits2] in *.
      unfold SpecFloat.fexp in *. lia.
    - unfold m'. rewrite Zdigits2_div_pow2 by lia. fold d.
      subst E n1. unfold SpecFloat.fexp in *. lia. }
  assert (Hm1 : m1 = m' \/ m1 = m' + 1) by (apply round1_bounds; done).
  assert (Hd1 : Zdigits2 m1 = Zdigits2 m' \/
                (Zdigits2 m1 = Zdigits2 m' + 1 /\ m1 = 2 ^ Zdigits2 m')).
  { destruct Hm1 as [-> | ->]; [by left|]. by apply Zdigits2_succ. }
  assert (Hm1pos : 0 <= m1) by lia.
  destruct (Z_le_gt_dec (Zdigits2 m1) prec) as [Hle|Hgt].
  - (* the rounded mantissa fits *)
    assert (Hn2 : Z.max (fexp (Zdigits2 m1 + E) - E) 0 = 0)
      by (unfold SpecFloat.fexp; lia).
    rewrite Hn2, Z.add_0_r, Z.pow_0_r, Z.div_1_r.
    destruct m1 as [|p|p] eqn:Hp1; [by left| |lia].
    right. cbn [finish]. destruct (E <=? emax - prec) eqn:HEmax.
    + left. exists p, E. split; [done|]. split; [|lia].
      apply bounded_intro; [|lia].
      unfold SpecFloat.fexp in *. lia.
    + right. split; [done|lia].
  - (* the rounding carried into one more digit *)
    destruct Hd1 as [Hd1|[Hd1 Hpow]]; [lia|].
    assert (Hdp : Zdigits2 m' = prec) by lia.
    assert (Hn2 : Z.max (fexp (Zdigits2 m1 + E) - E) 0 = 1)
      by (unfold SpecFloat.fexp; lia).
    rewrite Hn2, Hpow, Hdp, Z.pow_1_r.
    replace (2 ^ prec) with (2 ^ (prec - 1) * 2).
    2:{ rewrite Z.mul_comm, <- (Z.pow_succ_r 2 (prec - 1)) by lia. f_equal. lia. }
    rewrite Z.div_mul by lia.
    assert (Hpos : 0 < 2 ^ (prec - 1)) by (apply Z.pow_pos_nonneg; lia).
    destruct (2 ^ (prec - 1)) as [|p|p] eqn:Hq; try lia.
    right. cbn [finish]. destruct (E + 1 <=? emax - prec) eqn:HEmax.
    + left. exists p, (E + 1). split; [done|]. split; [|lia].
      apply bounded_intro; [|lia].
      assert (Zdigits2 (Zpos p) = prec) as ->.
      { apply Zdigits2_unique; [lia|]. rewrite <- Hq. split; [lia|].
        apply Z.pow_lt_mono_r; lia. }
      unfold SpecFloat.fexp. lia.
    + right. split; [done|lia].
Qed.

(** *** Multiplication *)

Abbreviation valid_binary := (valid_binary prec emax).
Abbreviation SFmul := (SFmul prec emax).
Abbreviation SFdiv := (SFdiv prec emax).

Lemma binary_round_aux_valid s m e l :
  0 <= m -> e <= fexp (Zdigits2 m + e) -> valid_binary (binary_round_aux s m e l) = true.
Proof.
  intros Hm He.
  destruct (binary_round_aux_spec s m e l Hm He) as [->|[(p & e' & -> & Hb & _)|[-> _]]];
    done.
Qed.

Lemma SFmul_enough_digits mx ex my ey :
  bounded mx ex = true -> bounded my ey = true ->
  ex + ey <= fexp (Zdigits2 (Zpos (mx * my)) + (ex + ey)).
Proof.
  intros Hx Hy.
  apply bounded_elim in Hx as [Hx _]. apply bounded_elim in Hy as [Hy _].
  pose proof (Zdigits2_mul mx my) as Hd.
  destruct (Zdigits2_bounds (Zpos mx) ltac:(lia)) as (Hdx & _).
  destruct (Zdigits2_bounds (Zpos my) ltac:(lia)) as (Hdy & _).
  unfold SpecFloat.fexp, SpecFloat.emin in *. lia.
Qed.

Lemma SFmul_valid x y :
  valid_binary x = true -> valid_binary y = true -> valid_binary (SFmul x y) = true.
Proof.
  destruct x as [sx|sx| |sx mx ex], y as [sy|sy| |sy my ey]; try done.
  cbn [SpecFloat.valid_binary SpecFloat.SFmul]. intros Hx Hy.
  apply binary_round_aux_valid; [lia|by apply SFmul_enough_digits].
Qed.

(** Doubling the second factor doubles the product, as long as the
    exact product lies in the range of the normal numbers. *)
Lemma SFmul_double sx mx ex sy my ey :
  ey + 1 <= emax - prec ->
  emin + prec <= Zdigits2 (Zpos (mx * my)) + (ex + ey) ->
  SFmul (S754_finite sx mx ex) (SFdouble prec emax (S754_finite sy my ey))
  = SFdouble prec emax (SFmul (S754_finite sx mx ex) (S754_finite sy my ey)).
Proof.
  intros Hey Hnormal. cbn [SFdouble].
  assert ((ey + 1 <=? emax - prec) = true) as -> by lia.
  cbn [SpecFloat.SFmul].
  replace (ex + (ey + 1)) with (ex + ey + 1) by lia.
  apply binary_round_aux_double; [lia|done].
Qed.

(** A product whose exponent is not among the two lowest comes from an
    exact product in the range of the normal numbers. *)
Lemma SFmul_normal_range sx mx ex sy my ey s p e :
  bounded mx ex = true -> bounded my ey = true ->
  SFmul (S754_finite sx mx ex) (S754_finite sy my ey) = S754_finite s p e ->
  emin + 2 <= e ->
  emin + prec <= Zdigits2 (Zpos (mx * my)) + (ex + ey).
Proof.
  intros Hx Hy Heq He. cbn [SpecFloat.SFmul] in Heq.
  destruct (binary_round_aux_spec (xorb sx sy) (Zpos (mx * my)) (ex + ey) loc_Exact)
    as [H|[(p' & e' & H & _ & Hle)|[H _]]];
    [lia|by apply SFmul_enough_digits|congruence| |congruence].
  rewrite H in Heq. injection Heq as _ _ <-.
  unfold SpecFloat.fexp in *. lia.
Qed.

(** *** Division *)

Lemma div_shift_nonneg mx ex my ey : 0 <= div_shift prec emax mx ex my ey.
Proof. unfold div_shift, div_exponent. lia. Qed.

Lemma SFdiv_core_binary_eq mx ex my ey :
  SFdiv_core_binary prec emax (Zpos mx) ex (Zpos my) ey
  = (Zpos mx * 2 ^ div_shift prec emax mx ex my ey / Zpos my,
     div_exponent prec emax mx ex my ey,
     new_location (Zpos my) ((Zpos mx * 2 ^ div_shift prec emax mx ex my ey) mod Zpos my)).
Proof.
  unfold SFdiv_core_binary.
  fold (div_exponent prec emax mx ex my ey). fold (div_shift prec emax mx ex my ey).
  pose proof (div_shift_nonneg mx ex my ey) as Hs.
  assert (Hm : match div_shift prec emax mx ex my ey with
               | 0 => Zpos mx
               | Zpos _ => Z.shiftl (Zpos mx) (div_shift prec emax mx ex my ey)
               | Zneg _ => 0
               end = Zpos mx * 2 ^ div_shift prec emax mx ex my ey).
  { destruct (div_shift prec emax mx ex my ey) as [|p|p] eqn:Hd; [|by rewrite Z.shiftl_mul_pow2|lia].
    by rewrite Z.pow_0_r, Z.mul_1_r. }
  rewrite Hm. unfold Z.div, Z.modulo.
  by destruct (Z.div_eucl _ _).
Qed.

(** The quotient has the digits that rounding needs, and its exponent
    does not exceed the one of the exact quotient by more than one. *)
Lemma SFdiv_quotient_digits mx ex my ey :
  let q := Zpos mx * 2 ^ div_shift prec emax mx ex my ey / Zpos my in
  let e' := div_exponent prec emax mx ex my ey in
  let D := Zdigits2 (Zpos mx) + ex - (Zdigits2 (Zpos my) + ey) in
  0 <= q /\
  e' <= fexp (Zdigits2 q + e') /\
  fexp (Zdigits2 q + e') <= fexp (D + 1) /\
  (emin + prec <= D -> 0 < q /\ D <= Zdigits2 q + e').
Proof.
  intros q e' D.
  pose proof (div_shift_nonneg mx ex my ey) as Hs.
  set (sft := div_shift prec emax mx ex my ey) in *.
  set (d1 := Zdigits2 (Zpos mx)) in *. set (d2 := Zdigits2 (Zpos my)) in *.
  destruct (Zdigits2_bounds (Zpos mx) ltac:(lia)) as (Hd1 & Hlo1 & Hhi1). fold d1 in Hd1, Hlo1, Hhi1.
  destruct (Zdigits2_bounds (Zpos my) ltac:(lia)) as (Hd2 & Hlo2 & Hhi2). fold d2 in Hd2, Hlo2, Hhi2.
  assert (Hps : 0 < 2 ^ sft) by (apply Z.pow_pos_nonneg; lia).
  set (m' := Zpos mx * 2 ^ sft) in *.
  assert (Hm'lo : 2 ^ (d1 - 1 + sft) <= m') by (rewrite Z.pow_add_r by lia; unfold m'; nia).
  assert (Hm'hi : m' < 2 ^ (d1 + sft)) by (rewrite Z.pow_add_r by lia; unfold m'; nia).
  assert (Hq : 0 <= q) by (apply Z.div_pos; lia).
  assert (He' : e' = ex - ey - sft) by (unfold sft, div_shift, e'; lia).
  assert (HeD : e' <= fexp D) by (unfold e', div_exponent; fold d1 d2 D; lia).
  assert (HD : D = d1 + sft - d2 + e') by (unfold D; lia).
  (* the digits of a positive quotient *)
  assert (Hqpos : 0 < q -> d1 + sft - d2 <= Zdigits2 q <= d1 + sft - d2 + 1).
  { intros Hqp.
    assert (Hge : Zpos my <= m').
    { destruct (Z_lt_le_dec m' (Zpos my)) as [Hlt|]; [|done].
      unfold q in Hqp. rewrite Z.div_small in Hqp by lia. lia. }
    assert (Hk : 0 <= d1 + sft - d2 + 1).
    { destruct (Z_lt_le_dec (d1 + sft - d2 + 1) 0) as [Hlt|]; [|done].
      assert (2 ^ (d1 + sft) <= 2 ^ (d2 - 1)) by (apply Z.pow_le_mono_r; lia). lia. }
    split.
    - destruct (Z_le_gt_dec (d1 + sft - d2) 1) as [Hsmall|Hbig].
      + destruct (Zdigits2_bounds q Hqp). lia.
      + pose proof (Zdigits2_ge q (d1 + sft - d2 - 1) ltac:(lia)) as Hg.
        assert (2 ^ (d1 + sft - d2 - 1) <= q); [|lia].
        apply Z.div_le_lower_bound; [lia|].
        assert (Hpow : 2 ^ (d1 - 1 + sft) = 2 ^ d2 * 2 ^ (d1 + sft - d2 - 1)).
        { rewrite <- Z.pow_add_r by lia. f_equal. lia. }
        assert (0 < 2 ^ (d1 + sft - d2 - 1)) by (apply Z.pow_pos_nonneg; lia).
        nia.
    - apply Zdigits2_le; [lia|]. split; [lia|].
      apply Z.div_lt_upper_bound; [lia|].
      assert (Hpow : 2 ^ (d1 + sft) = 2 ^ (d2 - 1) * 2 ^ (d1 + sft - d2 + 1)).
      { rewrite <- Z.pow_add_r by lia. f_equal. lia. }
      assert (0 < 2 ^ (d1 + sft - d2 + 1)) by (apply Z.pow_pos_nonneg; lia).
      nia. }
  split; [done|].
  destruct (Z.eq_dec q 0) as [Hq0|Hqne].
  - (* the quotient is zero: the dividend is shorter than the divisor *)
    assert (Hlt : m' < Zpos my).
    { destruct (Z_lt_le_dec m' (Zpos my)) as [|Hge]; [done|].
      assert (1 <= q); [|lia].
      apply Z.div_le_lower_bound; lia. }
    assert (Hshort : d1 + sft <= d2).
    { destruct (Z_le_gt_dec (d1 + sft) d2) as [|Hgt]; [done|].
      assert (2 ^ d2 <= 2 ^ (d1 - 1 + sft)) by (apply Z.pow_le_mono_r; lia). lia. }
    rewrite Hq0. cbn [Zdigits2]. unfold SpecFloat.fexp in *.
    split; [lia|]. split; [lia|]. intros Hn.
    (* in the normal range the shift makes the dividend long enough *)
    lia.
  - specialize (Hqpos ltac:(lia)).
    split; [|split].
    + etransitivity; [exact HeD|]. apply fexp_mono. lia.
    + apply fexp_mono. lia.
    + intros _. split; lia.
Qed.

Lemma SFdiv_valid x y :
  valid_binary x = true -> valid_binary y = true -> valid_binary (SFdiv x y) = true.
Proof.
  destruct x as [sx|sx| |sx mx ex], y as [sy|sy| |sy my ey]; try done.
  intros _ _. cbn [SpecFloat.SFdiv]. rewrite SFdiv_core_binary_eq.
  destruct (SFdiv_quotient_digits mx ex my ey) as (Hq & He & _).
  by apply binary_round_aux_valid.
Qed.

(** Division does not overflow when the exact quotient is small enough. *)
Lemma SFdiv_finite sx mx ex sy my ey :
  fexp (Zdigits2 (Zpos mx) + ex - (Zdigits2 (Zpos my) + ey) + 1) + 1 <= emax - prec ->
  is_finite (SFdiv (S754_finite sx mx ex) (S754_finite sy my ey)) = true.
Proof.
  intros Hsmall. cbn [SpecFloat.SFdiv]. rewrite SFdiv_core_binary_eq.
  destruct (SFdiv_quotient_digits mx ex my ey) as (Hq & He & Hup & _).
  destruct (binary_round_aux_spec (xorb sx sy) _ _
              (new_location (Zpos my) ((Zpos mx * 2 ^ div_shift prec emax mx ex my ey) mod Zpos my))
              Hq He) as [->|[(p & e' & -> & _)|[_ Hover]]]; [done|done|lia].
Qed.

(** Doubling the dividend doubles the quotient, as long as the exact
    quotient lies in the range of the normal numbers. *)
Lemma SFdiv_double sx mx ex sy my ey :
  ex + 1 <= emax - prec ->
  emin + prec <= Zdigits2 (Zpos mx) + ex - (Zdigits2 (Zpos my) + ey) ->
  SFdiv (SFdouble prec emax (S754_finite sx mx ex)) (S754_finite sy my ey)
  = SFdouble prec emax (SFdiv (S754_finite sx mx ex) (S754_finite sy my ey)).
Proof.
  intros Hex Hnormal. cbn [SFdouble].
  assert ((ex + 1 <=? emax - prec) = true) as -> by lia.
  cbn [SpecFloat.SFdiv]. rewrite !SFdiv_core_binary_eq.
  destruct (SFdiv_quotient_digits mx ex my ey) as (Hq & He & _ & Hn).
  destruct (Hn Hnormal) as [Hqpos Hdig].
  assert (Hexp : div_exponent prec emax mx (ex + 1) my ey = div_exponent prec emax mx ex my ey + 1).
  { unfold div_exponent.
    replace (Zdigits2 (Zpos mx) + (ex + 1) - (Zdigits2 (Zpos my) + ey))
      with (Zdigits2 (Zpos mx) + ex - (Zdigits2 (Zpos my) + ey) + 1) by lia.
    rewrite !fexp_normal by lia. lia. }
  assert (Hsft : div_shift prec emax mx (ex + 1) my ey = div_shift prec emax mx ex my ey).
  { unfold div_shift. rewrite Hexp. lia. }
  rewrite Hexp, Hsft.
  apply binary_round_aux_double; [done|lia].
Qed.

(** A quotient whose exponent is not among the three lowest comes from
    an exact quotient in the range of the normal numbers. *)
Lemma SFdiv_normal_range sx mx ex sy my ey s p e :
  SFdiv (S754_finite sx mx ex) (S754_finite sy my ey) = S754_finite s p e ->
  emin + 3 <= e ->
  emin + prec <= Zdigits2 (Zpos mx) + ex - (Zdigits2 (Zpos my) + ey).
Proof.
  intros Heq He. cbn [SpecFloat.SFdiv] in Heq. rewrite SFdiv_core_binary_eq in Heq.
  destruct (SFdiv_quotient_digits mx ex my ey) as (Hq & Hpre & Hup & _).
  destruct (binary_round_aux_spec (xorb sx sy) _ _
              (new_location (Zpos my) ((Zpos mx * 2 ^ div_shift prec emax mx ex my ey) mod Zpos my))
              Hq Hpre) as [H|[(p' & e' & H & _ & Hle)|[H _]]];
    [congruence| |congruence].
  rewrite H in Heq. injection Heq as _ _ <-.
  unfold SpecFloat.fexp in *. lia.
Qed.

Lemma SFdiv_exponent_le sx mx ex sy my ey s p e :
  SFdiv (S754_finite sx mx ex) (S754_finite sy my ey) = S754_finite s p e ->
  e <= fexp (Zdigits2 (Zpos mx) + ex - (Zdigits2 (Zpos my) + ey) + 1) + 1.
Proof.
  intros Heq. cbn [SpecFloat.SFdiv] in Heq. rewrite SFdiv_core_binary_eq in Heq.
  destruct (SFdiv_quotient_digits mx ex my ey) as (Hq & Hpre & Hup & _).
  destruct (binary_round_aux_spec (xorb sx sy) _ _
              (new_location (Zpos my) ((Zpos mx * 2 ^ div_shift prec emax mx ex my ey) mod Zpos my))
              Hq Hpre) as [H|[(p' & e' & H & _ & Hle)|[H _]]];
    [congruence| |congruence].
  rewrite H in Heq. injection Heq as _ _ <-. lia.
Qed.

(** *** Factors that are powers of 2 *)

Lemma binary_round_aux_exact s p e n :
  bounded p e = true -> 0 <= n ->
  binary_round_aux s (Zpos p * 2 ^ n) (e - n) loc_Exact = S754_finite s p e.
Proof.
  intros Hb Hn. apply bounded_elim in Hb as [Hc He].
  assert (Hpn : 0 < 2 ^ n) by (apply Z.pow_pos_nonneg; lia).
  rewrite binary_round_aux_steps by lia. cbv zeta.
  rewrite Zdigits2_mul_pow2 by lia.
  replace (Zdigits2 (Zpos p) + n + (e - n)) with (Zdigits2 (Zpos p) + e) by lia.
  rewrite Hc. replace (e - (e - n)) with n by lia.
  assert (Hr : round1 (Zpos p * 2 ^ n) loc_Exact n = Zpos p).
  { unfold round1. cbn [shr_record_of_loc].
    destruct n as [|q|q]; [|cbn [shr fst]|lia].
    - cbn [shr fst shr_m]. rewrite Z.pow_0_r, Z.mul_1_r. reflexivity.
    - rewrite iter_pos_iterate. rewrite <- (positive_nat_Z q).
      rewrite shr_iter_exact by lia. reflexivity. }
  rewrite Hr. rewrite (Z.max_l n 0) by lia.
  replace (e - n + n) with e by lia. rewrite Hc.
  rewrite Z.sub_diag, Z.max_id, Z.pow_0_r, Z.div_1_r, Z.add_0_r.
  cbn [finish]. by assert ((e <=? emax - prec) = true) as -> by lia.
Qed.

End Rounding.

(** ** Binary32 *)

Lemma f32_of_int_1 : f32_of_int 1 = f32_one.
Proof. reflexivity. Qed.

Lemma f32_of_int_2 : f32_of_int 2 = f32_two.
Proof. reflexivity. Qed.

Lemma f32_of_int_100 : f32_of_int 100 = f32_hundred.
Proof. reflexivity. Qed.

Lemma gain_factor_100 : gain_factor (f32_of_int 100) = f32_one.
Proof. reflexivity. Qed.

Lemma gain_factor_10 : gain_factor (f32_of_int 10) = f32_tenth.
Proof. reflexivity. Qed.

Lemma f32_mul_valid x y : f32_valid x -> f32_valid y -> f32_valid (f32_mul x y).
Proof. apply SFmul_valid; lia. Qed.

Lemma f32_div_valid x y : f32_valid x -> f32_valid y -> f32_valid (f32_div x y).
Proof. apply SFdiv_valid; lia. Qed.

Lemma f32_of_int_valid_10 : f32_valid (f32_of_int 10).
Proof. reflexivity. Qed.

Lemma f32_of_int_valid_32767 : f32_valid (f32_of_int 32767).
Proof. reflexivity. Qed.

Lemma scale_sample_valid x : f32_valid x -> f32_valid (scale_sample x).
Proof.
  intros Hx. unfold scale_sample.
  apply f32_mul_valid; [apply f32_div_valid|]; done.
Qed.

Lemma gain_factor_valid g : f32_valid g -> f32_valid (gain_factor g).
Proof. intros Hg. unfold gain_factor. by apply f32_div_valid. Qed.

(** Multiplying by 1.0 changes nothing. *)
Lemma f32_mul_one_r x : f32_valid x -> f32_mul x f32_one = x.
Proof.
  destruct x as [[]|[]| |s m e]; try reflexivity.
  intros Hx. unfold f32_mul, f32_one. cbn [SFmul].
  replace (Zpos (m * 8388608)) with (Zpos m * 2 ^ 23) by lia.
  replace (e + -23) with (e - 23) by lia.
  rewrite binary_round_aux_exact; [by destruct s|lia..|exact Hx|lia].
Qed.

(** Multiplying a normal number by 2.0 gives the next exponent. *)
Lemma f32_mul_two x :
  f32_valid x ->
  (forall s m e, x = S754_finite s m e -> emin 24 128 + 24 <= Zdigits2 (Zpos m) + e) ->
  f32_mul f32_two x = f32_double x.
Proof.
  destruct x as [[]|[]| |s m e]; try reflexivity.
  intros Hx Hn. specialize (Hn s m e eq_refl).
  unfold f32_mul, f32_two. cbn [SFmul xorb].
  replace (Zpos (8388608 * m)) with (Zpos m * 2 ^ 23) by lia.
  replace (-22 + e) with (e - 23 + 1) by lia.
  rewrite binary_round_aux_double; [|lia|lia|].
  - rewrite binary_round_aux_exact; [done|lia..|exact Hx|lia].
  - rewrite Zdigits2_mul_pow2 by lia. lia.
Qed.

(** * Traces of the program *)

(** ** The monad *)

Ltac run_M :=
  repeat (progress (cbn;
    unfold mbind, M_bind, mret, M_ret, ao_close_device, src_delete_src_state,
      get_device, get_src_state, set_device, emit, exit, undefined, out_of_fuel, fatal)).

Lemma add_events_nil s : add_events [] s = s.
Proof. destruct s; unfold add_events; cbn. by rewrite app_nil_r. Qed.

Lemma add_events_app a b s : add_events b (add_events a s) = add_events (a ++ b) s.
Proof. unfold add_events; cbn. by rewrite app_assoc. Qed.

Lemma emit_run e s : emit e s = Returned tt (add_events [e] s).
Proof. by destruct s. Qed.

Lemma bind_run {A B} (m : M A) (f : A -> M B) s :
  (m ≫= f) s =
  match m s with
  | Returned a s' => f a s'
  | Exited code s' => Exited code s'
  | Undefined s' => Undefined s'
  | OutOfFuel s' => OutOfFuel s'
  end.
Proof. reflexivity. Qed.

Lemma sequence_app a b s :
  sequence_ (a ++ b) s = (sequence_ a ;; sequence_ b) s.
Proof.
  revert s; induction a as [|m a IH]; intros s; cbn.
  - reflexivity.
  - rewrite !bind_run. destruct (m s); try reflexivity. apply IH.
Qed.

Lemma terminate_calls_run s :
  sequence_ terminate_calls s = Returned tt (add_events (teardown (device s) (src_state s)) s).
Proof.
  destruct s as [d st tr]. run_M. unfold add_events; cbn. rewrite <- !app_assoc; reflexivity.
Qed.

Lemma terminate_run {A} num s :
  @terminate A num s = Exited num (add_events (teardown (device s) (src_state s)) s).
Proof.
  unfold terminate. rewrite bind_run, terminate_calls_run. reflexivity.
Qed.

Lemma take_terminate_calls_run k s :
  sequence_ (take k terminate_calls) s
  = Returned tt (add_events (take k (teardown (device s) (src_state s))) s).
Proof.
  destruct s as [d st tr].
  do 6 (destruct k as [|k];
    [run_M; unfold add_events; cbn; rewrite <- ?app_assoc, ?app_nil_r; reflexivity|]).
  unfold terminate_calls, teardown; cbn [take]; rewrite !take_nil.
  run_M; unfold add_events; cbn; rewrite <- ?app_assoc, ?app_nil_r; reflexivity.
Qed.

Lemma terminate_interrupted_run {A} k num signum s :
  @terminate_interrupted A k num signum s
  = Exited signum
      (add_events (take k (teardown (device s) (src_state s))
                   ++ teardown (device s) (src_state s)) s).
Proof.
  unfold terminate_interrupted. rewrite bind_run, take_terminate_calls_run, terminate_run.
  cbn [device src_state add_events]. by rewrite add_events_app.
Qed.

Lemma emits_ret {A} P (a : A) : emits P (mret a).
Proof. intros s; split; [done|]. exists []. by rewrite add_events_nil. Qed.

Lemma emits_undefined {A} P : emits P (@undefined A).
Proof. intros s; split; [done|]. exists []. by rewrite add_events_nil. Qed.

Lemma emits_out_of_fuel {A} P : emits P (@out_of_fuel A).
Proof. intros s; split; [done|]. exists []. by rewrite add_events_nil. Qed.

Lemma emits_get_device P : emits P get_device.
Proof. intros s; split; [done|]. exists []. by rewrite add_events_nil. Qed.

Lemma emits_emit (P : event -> Prop) e : P e -> emits P (emit e).
Proof.
  intros He s; rewrite emit_run; split; [done|]. exists [e]. split; [by constructor|done].
Qed.

Lemma emits_bind {A B} P (m : M A) (f : A -> M B) :
  emits P m -> (forall a, emits P (f a)) -> emits P (m ≫= f).
Proof.
  intros Hm Hf s. rewrite bind_run.
  destruct (Hm s) as [Hx (evs & Hevs & Hs)].
  destruct (m s) as [a s'| | |]; cbn in *; try discriminate; subst.
  - destruct (Hf a (add_events evs s)) as [Hx' (evs' & Hevs' & Hs')].
    split; [done|]. exists (evs ++ evs'). split; [by apply Forall_app|].
    by rewrite Hs', add_events_app.
  - split; [done|]. by exists evs.
  - split; [done|]. by exists evs.
Qed.

Lemma emits_weaken {A} (P Q : event -> Prop) (m : M A) :
  (forall e, P e -> Q e) -> emits P m -> emits Q m.
Proof.
  intros HPQ Hm s. destruct (Hm s) as [Hx (evs & Hevs & Hs)].
  split; [done|]. exists evs. split; [|done]. eapply Forall_impl; eauto.
Qed.

Lemma ret_run {A} (a : A) (s : state) : (mret a : M A) s = Returned a s.
Proof. reflexivity. Qed.

Lemma get_device_run s : get_device s = Returned (device s) s.
Proof. reflexivity. Qed.

(** Runs the computation in the goal one call at a time. *)
Ltac step_M :=
  repeat first
    [ rewrite bind_run
    | rewrite emit_run
    | rewrite ret_run
    | rewrite get_device_run
    | rewrite add_events_app
    | progress cbv beta iota
    | progress cbn [device src_state trace add_events app] ].

Ltac emits_step :=
  first
    [ apply emits_ret | apply emits_undefined | apply emits_out_of_fuel
    | apply emits_get_device
    | apply emits_emit
    | apply emits_bind; [|intros ?] ].

Lemma logs_ret {A} P (a : A) : logs P (mret a).
Proof. intros s. exists []. by rewrite app_nil_r. Qed.

Lemma logs_exit {A} P code : logs P (@exit A code).
Proof. intros s. exists []. by rewrite app_nil_r. Qed.

Lemma logs_undefined {A} P : logs P (@undefined A).
Proof. intros s. exists []. by rewrite app_nil_r. Qed.

Lemma logs_out_of_fuel {A} P : logs P (@out_of_fuel A).
Proof. intros s. exists []. by rewrite app_nil_r. Qed.

Lemma logs_get_device P : logs P get_device.
Proof. intros s. exists []. by rewrite app_nil_r. Qed.

Lemma logs_get_src_state P : logs P get_src_state.
Proof. intros s. exists []. by rewrite app_nil_r. Qed.

Lemma logs_set_device P d : logs P (set_device d).
Proof. intros [d0 st tr]. exists []. cbn. by rewrite app_nil_r. Qed.

Lemma logs_emit (P : event -> Prop) e : P e -> logs P (emit e).
Proof. intros He s. rewrite emit_run. exists [e]. split; [by constructor|done]. Qed.

Lemma logs_bind {A B} P (m : M A) (f : A -> M B) :
  logs P m -> (forall a, logs P (f a)) -> logs P (m ≫= f).
Proof.
  intros Hm Hf s. rewrite bind_run.
  destruct (Hm s) as (evs & Hevs & Hs).
  destruct (m s) as [a s'| | |]; cbn in *; try by exists evs.
  destruct (Hf a s') as (evs' & Hevs' & Hs').
  exists (evs ++ evs'). split; [by apply Forall_app|].
  by rewrite Hs', Hs, app_assoc.
Qed.

(** What [m] has added to the trace is still there after [f]. *)
Lemma bind_trace {A B} P (m : M A) (f : A -> M B) s :
  (forall a, logs P (f a)) ->
  exists evs, trace (outcome_state ((m ≫= f) s)) = trace (outcome_state (m s)) ++ evs.
Proof.
  intros Hf. rewrite bind_run.
  destruct (m s) as [a s'| | |]; cbn [outcome_state]; try (exists []; by rewrite app_nil_r).
  destruct (Hf a s') as (evs & _ & Hs). by exists evs.
Qed.

(** Walks through a computation, one call or one branch at a time. *)
Ltac logs_step :=
  first
    [ apply logs_ret | apply logs_exit | apply logs_undefined | apply logs_out_of_fuel
    | apply logs_get_device | apply logs_get_src_state | apply logs_set_device
    | apply logs_emit; first [exact I | reflexivity]
    | apply logs_bind; [|intros ?]
    | match goal with
      | |- logs _ (match ?x with _ => _ end) => destruct x
      end ].

(** ** What the parts of [generate_mpx] add to the trace *)

Lemma print_af_emits n f af : emits silent (print_af n f af).
Proof.
  revert f; induction n as [|n IH]; intros f; cbn.
  - apply emits_ret.
  - destruct (af !! f); [|apply emits_undefined].
    apply emits_bind; [by apply emits_emit|intros _; apply IH].
Qed.

Lemma print_rds_options_emits rds pi ps rt af pty :
  emits silent (print_rds_options rds pi ps rt af pty).
Proof.
  unfold print_rds_options.
  apply emits_bind; [by apply emits_emit|intros _].
  destruct (rds =? 0); [by apply emits_emit|].
  apply emits_bind; [by apply emits_emit|intros _].
  apply emits_bind; [by apply emits_emit|intros _].
  destruct (af !! 0%nat); [|apply emits_undefined].
  destruct (_ =? 0); [apply emits_ret|].
  apply emits_bind; [by apply emits_emit|intros _].
  apply emits_bind; [by apply emits_emit|intros _].
  apply emits_bind; [apply print_af_emits|intros _].
  by apply emits_emit.
Qed.

Lemma install_handlers_emits n i : emits silent (install_handlers n i).
Proof.
  revert i; induction n as [|n IH]; intros i; cbn.
  - apply emits_ret.
  - apply emits_bind; [by apply emits_emit|intros _; apply IH].
Qed.

Lemma loop_body_emits E iter cp st rds wait mpx rb db :
  emits (loop_event_of cp) (loop_body E iter cp st rds wait mpx rb db).
Proof.
  unfold loop_body.
  apply emits_bind; [destruct cp; [by apply emits_emit|apply emits_ret]|intros _].
  apply emits_bind; [by apply emits_emit|intros _].
  destruct (_ <? 0); [apply emits_ret|].
  apply emits_bind; [by apply emits_emit|intros _].
  destruct (src_process_res E iter) as [err frames].
  destruct (negb _).
  { apply emits_bind; [by apply emits_emit|intros _; apply emits_ret]. }
  destruct (store_frames _ _); [|apply emits_undefined].
  destruct (postprocess _ _ _ _) as [[rb2 db2]|]; [|apply emits_undefined].
  apply emits_bind; [apply emits_get_device|intros d].
  apply emits_bind; [by apply emits_emit|intros _].
  destruct (_ =? 0); [|apply emits_ret].
  apply emits_bind; [by apply emits_emit|intros _; apply emits_ret].
Qed.

Lemma run_loop_emits E fuel iter cp st rds wait mpx rb db :
  emits (loop_event_of cp) (run_loop E fuel iter cp st rds wait mpx rb db).
Proof.
  revert iter rb db; induction fuel as [|fuel IH]; intros iter rb db; cbn.
  - apply emits_out_of_fuel.
  - apply emits_bind; [apply loop_body_emits|intros [[rb' db']|]].
    + apply IH.
    + apply emits_ret.
Qed.

Lemma silent_loop_event e : silent e -> loop_event e.
Proof. intros (? & ? & ?); by split. Qed.

Lemma acquired_app a b : acquired (a ++ b) = acquired a ++ acquired b.
Proof. apply omap_app. Qed.

Lemma released_app a b : released (a ++ b) = released a ++ released b.
Proof. apply omap_app. Qed.

Lemma loop_events_acquired evs : Forall loop_event evs -> acquired evs = [].
Proof.
  induction 1 as [|e evs [Ha _] _ IH]; [done|].
  unfold acquired in *; cbn. by rewrite Ha.
Qed.

Lemma loop_events_released evs : Forall loop_event evs -> released evs = [].
Proof.
  induction 1 as [|e evs [_ Hr] _ IH]; [done|].
  unfold released in *; cbn. by rewrite Hr.
Qed.

Lemma generate_mpx_unfold E fuel audio_file rds pi ps rt af preemph mpx cp pty tp wait s :
  generate_mpx E fuel audio_file rds pi ps rt af preemph mpx cp pty tp wait s =
  match ao_open_live_res E with
  | None =>
      Returned 1
        (sink_opened E [FprintfStderr ("Error: cannot open sound device." ++ nl) []] s)
  | Some _ =>
      match src_new_res E with
      | None =>
          Returned 1
            (sink_opened E
               [ SrcNew SRC_SINC_FASTEST 1;
                 FprintfStderr ("Error: src_new failed: %s" ++ nl)
                   [ArgSrcStrerror (src_new_error E)] ] s)
      | Some local_src_state =>
          if fm_mpx_open_res E <? 0 then
            Returned 1 (sink_opened E (open_source_events audio_file preemph) s)
          else
            (print_rds_options rds pi ps rt af pty ;;
             control_pipe' ← init_control_pipe E cp;
             run_loop E fuel 0 control_pipe' local_src_state rds wait mpx
               fresh_resample_out fresh_dev_out ;;
             mret 0)
              (sink_opened E
                 (open_source_events audio_file preemph ++ set_rds_events pi ps rt pty tp) s)
      end
  end.
Proof.
  unfold generate_mpx, sink_opened, open_sink_events.
  generalize fresh_resample_out, fresh_dev_out; intros rb0 db0.
  destruct s as [d st tr].
  destruct (ao_open_live_res E) as [dev|] eqn:Hdev.
  2:{ run_M. rewrite <- !app_assoc. reflexivity. }
  destruct (src_new_res E) as [cst|] eqn:Hcst.
  2:{ run_M. rewrite <- !app_assoc. reflexivity. }
  destruct (fm_mpx_open_res E <? 0) eqn:Hsrc.
  { run_M. rewrite <- !app_assoc. reflexivity. }
  run_M. rewrite <- !app_assoc. reflexivity.
Qed.

(** ** [postprocess] on a block of frames *)

Lemma length_stereo vs : length (stereo vs) = (2 * length vs)%nat.
Proof. induction vs as [|v vs IH]; cbn; [done|]. unfold stereo in IH. rewrite IH. lia. Qed.

Lemma stereo_lookup vs i v :
  vs !! i = Some v ->
  stereo vs !! (2 * i)%nat = Some v /\ stereo vs !! (2 * i + 1)%nat = Some v.
Proof.
  revert i; induction vs as [|w vs IH]; intros i Hi; [done|].
  destruct i as [|i]; cbn in *.
  - by simplify_eq.
  - replace (i + S (i + 0))%nat with (S (2 * i)) by lia.
    replace (i + S (i + 0) + 1)%nat with (S (2 * i + 1)) by lia.
    cbn. by apply IH.
Qed.

Lemma postprocess_loop_app volume xs : forall pre rest opre omid orest vs j,
  mapM (convert volume) xs = Some vs ->
  length omid = (2 * length xs)%nat ->
  j = length opre ->
  Z.of_nat j + 2 * Z.of_nat (length xs) <= INT_MAX ->
  postprocess_loop (length xs) (length pre) j
    (pre ++ xs ++ rest) (opre ++ omid ++ orest) volume
  = Some (pre ++ map (fun x => sample_value x volume) xs ++ rest,
          opre ++ stereo vs ++ orest).
Proof.
  induction xs as [|x xs IH]; intros pre rest opre omid orest vs j Hvs Hlen Hj Hint.
  - destruct omid; [|done]. cbn in Hvs. unfold mret, option_ret in Hvs.
    injection Hvs as <-. reflexivity.
  - rewrite mapM_Some in Hvs. apply Forall2_cons_inv_l in Hvs as (v & vs' & Hv & Hvs' & ->).
    destruct omid as [|a [|b omid]]; cbn in Hlen; try lia.
    cbn [length postprocess_loop].
    change ((x :: xs) ++ rest) with (x :: (xs ++ rest)).
    change ((a :: b :: omid) ++ orest) with (a :: b :: (omid ++ orest)).
    rewrite list_lookup_middle by done.
    unfold convert in Hv. rewrite Hv.
    rewrite bool_decide_true by (rewrite length_app; cbn; lia).
    rewrite bool_decide_true by (cbn [length] in Hint; lia).
    subst j.
    replace (<[length pre:=sample_value x volume]> (pre ++ x :: xs ++ rest))
      with ((pre ++ [sample_value x volume]) ++ xs ++ rest).
    2:{ rewrite insert_app_r_alt by lia. rewrite Nat.sub_diag. cbn.
        by rewrite <- app_assoc. }
    replace (<[length opre:=v]> (<[(length opre + 1)%nat:=v]> (opre ++ a :: b :: omid ++ orest)))
      with ((opre ++ [v; v]) ++ omid ++ orest).
    2:{ rewrite !insert_app_r_alt by lia. rewrite Nat.sub_diag.
        replace (length opre + 1 - length opre)%nat with 1%nat by lia. cbn.
        by rewrite <- app_assoc. }
    replace (S (length pre)) with (length (pre ++ [sample_value x volume]))
      by (rewrite length_app; cbn; lia).
    rewrite (IH _ rest _ omid orest vs').
    + f_equal. cbn. rewrite <- !app_assoc. reflexivity.
    + by apply mapM_Some.
    + lia.
    + rewrite length_app; cbn; lia.
    + rewrite ?length_app. cbn [length] in *. lia.
Qed.

(** [postprocess] on a buffer that starts with the frames [xs], all of
    which have a 16-bit value: [inbuf] holds the scaled samples and
    [outbuf] starts with each value twice. *)
Lemma postprocess_frames volume xs rest out vs :
  mapM (convert volume) xs = Some vs ->
  (2 * length xs <= length out)%nat ->
  2 * Z.of_nat (length xs) <= INT_MAX ->
  postprocess (xs ++ rest) out (length xs) volume
  = Some (map (fun x => sample_value x volume) xs ++ rest,
          stereo vs ++ drop (2 * length xs) out).
Proof.
  intros Hvs Hout Hint. unfold postprocess.
  rewrite bool_decide_true by lia.
  rewrite <- (take_drop (2 * length xs) out) at 1.
  apply (postprocess_loop_app volume xs [] rest [] _ _ vs 0%nat); [done| |done|cbn; lia].
  rewrite length_take. lia.
Qed.

(** ** Iterations of the run loop *)

Lemma fresh_buffers_ok : buffers_ok fresh_resample_out fresh_dev_out.
Proof.
  split; unfold fresh_resample_out, fresh_dev_out; rewrite length_replicate;
    by rewrite Z2Nat.id.
Qed.

Lemma poll_run (cp : option string) s :
  match cp with
  | Some _ => emit PollControlPipe
  | None => mret tt
  end s = Returned tt (add_events (poll_events cp) s).
Proof. destruct cp; [apply emit_run|]. unfold mret, M_ret. by rewrite add_events_nil. Qed.

Lemma loop_body_formats E i cp st rds wait mpx rb db s frames vs :
  buffers_ok rb db ->
  0 <= fm_mpx_get_samples_res E i ->
  src_process_res E i = (0, frames) ->
  Z.of_nat (length frames) <= DATA_SIZE ->
  mapM (convert mpx) frames = Some vs ->
  exists rb' db',
    buffers_ok rb' db' /\
    loop_body E i cp st rds wait mpx rb db s =
    (if ao_play_res E i =? 0 then
       Returned None
         (add_events
            (poll_events cp ++
             [ FmMpxGetSamples mpx_data rds_data rds wait;
               SrcProcess st src_data;
               AoPlay (device s) (stereo vs) (Z.of_nat (length frames) * 4);
               FprintfStderr ("Error: could not play audio." ++ nl) [] ]) s)
     else
       Returned (Some (rb', db'))
         (add_events
            (poll_events cp ++
             [ FmMpxGetSamples mpx_data rds_data rds wait;
               SrcProcess st src_data;
               AoPlay (device s) (stereo vs) (Z.of_nat (length frames) * 4) ]) s)).
Proof.
  intros [Hrb Hdb] Hget Hsrc Hlen Hvs.
  unfold DATA_SIZE, OUTPUT_DATA_SIZE in *.
  exists (map (fun x => sample_value x mpx) frames ++ drop (length frames) rb),
         (stereo vs ++ drop (2 * length frames) db).
  split.
  { split; rewrite length_app, length_drop, ?length_map, ?length_stereo;
      unfold DATA_SIZE, OUTPUT_DATA_SIZE.
    - lia.
    - apply length_mapM in Hvs. lia. }
  unfold loop_body.
  assert (Hget' : (fm_mpx_get_samples_res E i <? 0) = false) by lia.
  assert (Hstore : store_frames frames rb = Some (frames ++ drop (length frames) rb)).
  { unfold store_frames. rewrite bool_decide_true by lia. reflexivity. }
  assert (Hpost : postprocess (frames ++ drop (length frames) rb) db (length frames) mpx
                  = Some (map (fun x => sample_value x mpx) frames ++ drop (length frames) rb,
                          stereo vs ++ drop (2 * length frames) db)).
  { apply postprocess_frames; [done|lia|unfold INT_MAX; lia]. }
  assert (Htake : take (2 * length frames) (stereo vs ++ drop (2 * length frames) db) = stereo vs).
  { rewrite take_app_length'; [done|]. rewrite length_stereo.
    apply length_mapM in Hvs. lia. }
  rewrite bind_run, poll_run. step_M. rewrite Hget'. step_M. rewrite Hsrc. step_M.
  change (negb (0 =? 0)) with false. step_M.
  rewrite Hstore. step_M. rewrite Hpost. step_M. rewrite Htake.
  destruct (ao_play_res E i =? 0); step_M; rewrite <- ?app_assoc; reflexivity.
Qed.

Lemma loop_body_ok E i cp st rds wait mpx rb db s :
  buffers_ok rb db -> iteration_ok E mpx i ->
  exists rb' db' evs,
    buffers_ok rb' db' /\ Forall loop_event evs /\
    loop_body E i cp st rds wait mpx rb db s = Returned (Some (rb', db')) (add_events evs s).
Proof.
  intros Hb (Hget & Hsrc & [Hlen [vs Hvs]] & Hplay).
  destruct (src_process_res E i) as [err frames] eqn:Hres; cbn in *; subst err.
  destruct (loop_body_formats E i cp st rds wait mpx rb db s frames vs Hb Hget Hres Hlen Hvs)
    as (rb' & db' & Hb' & Heq).
  rewrite (proj2 (Z.eqb_neq _ _) Hplay) in Heq.
  eexists rb', db', _. split; [done|]. split; [|exact Heq].
  destruct cp; repeat constructor.
Qed.

Lemma loop_body_fatal E i cp st rds wait mpx rb db s :
  buffers_ok rb db -> streaming_fatal E mpx i ->
  exists evs,
    Forall loop_event evs /\
    loop_body E i cp st rds wait mpx rb db s = Returned None (add_events evs s).
Proof.
  intros Hb [Hget|Hget Hsrc|Hget Hsrc [Hlen [vs Hvs]] Hplay].
  - exists (poll_events cp ++ [FmMpxGetSamples mpx_data rds_data rds wait]).
    split; [destruct cp; repeat constructor|].
    unfold loop_body. assert (Hget' : (fm_mpx_get_samples_res E i <? 0) = true) by lia.
    rewrite bind_run, poll_run. step_M. rewrite Hget'. step_M. rewrite <- ?app_assoc. reflexivity.
  - destruct (src_process_res E i) as [err frames] eqn:Hres; cbn in *.
    exists (poll_events cp ++
            [ FmMpxGetSamples mpx_data rds_data rds wait; SrcProcess st src_data;
              FprintfStderr ("Error: src_process failed: %s" ++ nl) [ArgSrcStrerror err] ]).
    split; [destruct cp; repeat constructor|].
    unfold loop_body. assert (Hget' : (fm_mpx_get_samples_res E i <? 0) = false) by lia.
    assert (Herr : negb (err =? 0) = true) by (apply negb_true_iff; lia).
    rewrite bind_run, poll_run. step_M. rewrite Hget'. step_M. rewrite Hres. step_M.
    rewrite Herr. step_M. rewrite <- ?app_assoc. reflexivity.
  - destruct (src_process_res E i) as [err frames] eqn:Hres; cbn in *; subst err.
    destruct (loop_body_formats E i cp st rds wait mpx rb db s frames vs Hb Hget Hres Hlen Hvs)
      as (rb' & db' & Hb' & Heq).
    rewrite Hplay in Heq. cbn in Heq.
    eexists. split; [|exact Heq]. destruct cp; repeat constructor.
Qed.

(** When the first [n] iterations run to the end and the next one meets a
    streaming-fatal condition, the loop is left after [n + 1] iterations. *)
Lemma run_loop_fatal E cp st rds wait mpx n : forall fuel i rb db s,
  buffers_ok rb db ->
  (forall j, (j < n)%nat -> iteration_ok E mpx (i + j)) ->
  streaming_fatal E mpx (i + n) ->
  (n < fuel)%nat ->
  exists evs,
    Forall loop_event evs /\
    run_loop E fuel i cp st rds wait mpx rb db s = Returned tt (add_events evs s).
Proof.
  induction n as [|n IH]; intros fuel i rb db s Hb Hok Hfatal Hfuel.
  - destruct fuel as [|fuel]; [lia|]. rewrite Nat.add_0_r in Hfatal.
    destruct (loop_body_fatal E i cp st rds wait mpx rb db s Hb Hfatal) as (evs & Hevs & Heq).
    exists evs. split; [done|]. cbn. rewrite bind_run, Heq. reflexivity.
  - destruct fuel as [|fuel]; [lia|].
    assert (Hi : iteration_ok E mpx i) by (rewrite <- (Nat.add_0_r i); apply Hok; lia).
    destruct (loop_body_ok E i cp st rds wait mpx rb db s Hb Hi)
      as (rb' & db' & evs & Hb' & Hevs & Heq).
    destruct (IH fuel (S i) rb' db' (add_events evs s) Hb') as (evs' & Hevs' & Heq').
    + intros j Hj. replace (S i + j)%nat with (i + S j)%nat by lia. apply Hok. lia.
    + by replace (S i + n)%nat with (i + S n)%nat by lia.
    + lia.
    + exists (evs ++ evs'). split; [by apply Forall_app|].
      cbn. rewrite bind_run, Heq, Heq', add_events_app. reflexivity.
Qed.

(** When the first iteration runs to its end, the block reaches the sink. *)
Lemma run_loop_plays_block E fuel cp st rds wait mpx rb db s :
  (0 < fuel)%nat -> buffers_ok rb db -> iteration_ok E mpx 0 ->
  exists vs evs,
    mapM (convert mpx) (src_process_res E 0).2 = Some vs /\
    outcome_state (run_loop E fuel 0 cp st rds wait mpx rb db s)
    = add_events
        (poll_events cp ++
         [ FmMpxGetSamples mpx_data rds_data rds wait;
           SrcProcess st src_data;
           AoPlay (device s) (stereo vs) (Z.of_nat (length (src_process_res E 0).2) * 4) ]
         ++ evs) s.
Proof.
  intros Hfuel Hb (Hget & Hsrc & [Hlen [vs Hvs]] & Hplay).
  destruct fuel as [|fuel]; [lia|]. cbn [run_loop].
  destruct (src_process_res E 0) as [err frames] eqn:Hres; cbn [fst snd] in *; subst err.
  destruct (loop_body_formats E 0 cp st rds wait mpx rb db s frames vs Hb Hget Hres Hlen Hvs)
    as (rb' & db' & Hb' & Heq).
  rewrite (proj2 (Z.eqb_neq _ _) Hplay) in Heq.
  rewrite bind_run, Heq. cbv beta iota.
  destruct (run_loop_emits E fuel 1 cp st rds wait mpx rb' db'
              (add_events (poll_events cp ++
                 [ FmMpxGetSamples mpx_data rds_data rds wait; SrcProcess st src_data;
                   AoPlay (device s) (stereo vs) (Z.of_nat (length frames) * 4) ]) s))
    as [_ (evs & _ & Hs)].
  exists vs, evs. split; [done|]. rewrite Hs, add_events_app, <- app_assoc. reflexivity.
Qed.

(** ** Option parsing *)

Lemma initial_locals_ok : locals_ok initial_locals.
Proof. split; [reflexivity|cbn; lia]. Qed.

Lemma fatal_run {A} fmt args s :
  @fatal A fmt args s = Exited 1 (add_events [FprintfStderr fmt args] s).
Proof. unfold fatal. rewrite bind_run, emit_run. reflexivity. Qed.

Lemma atoi_optarg_run str s :
  atoi_optarg str s = match atoi str with Some n => Returned n s | None => Undefined s end.
Proof. unfold atoi_optarg. by destruct (atoi str). Qed.

Lemma handle_option_outcome argv0 o l s :
  option_outcome l s (handle_option argv0 o l s).
Proof.
  unfold handle_option.
  destruct (opt o) as [[] [] [] [] [] [] [] []];
    try (rewrite fatal_run; split; [done|eexists; split; [eexists _, _; by left|done]]);
    try (rewrite ret_run; split; [done|intros [??]; by split]);
    try (rewrite bind_run, atoi_optarg_run; destruct (atoi _);
         [rewrite ret_run; split; [done|intros [??]; by split]|done]).
  - (* A *)
    destruct (af_code _) as [c|]; [|done].
    case_bool_decide as Hidx; [|done].
    destruct (_ || _).
    + rewrite fatal_run; split; [done|eexists; split; [eexists _, _; by left|done]].
    + rewrite ret_run; split; [done|]. intros [Hlen Hsz]. split; cbn.
      * by rewrite length_insert.
      * lia.
  - (* P *)
    destruct (String.eqb _ _); [rewrite ret_run; split; [done|intros [??]; by split]|].
    destruct (String.eqb _ _); [rewrite ret_run; split; [done|intros [??]; by split]|].
    rewrite bind_run, atoi_optarg_run; destruct (atoi _);
      [rewrite ret_run; split; [done|intros [??]; by split]|done].
Qed.

(** An answer '?' of [getopt_long] comes with the library's message and
    leads to the last case of the [switch]. *)
Lemma getopt_long_rejects o s :
  opt o = "?"%char -> getopt_long o s = Returned tt (add_events [GetoptError (optopt o)] s).
Proof. intros Ho. unfold getopt_long. rewrite Ho. apply emit_run. Qed.

Lemma getopt_long_accepts o s :
  opt o <> "?"%char -> getopt_long o s = Returned tt s.
Proof.
  intros Ho. unfold getopt_long.
  destruct (Ascii.eqb_spec (opt o) "?"); [done|reflexivity].
Qed.

Lemma handle_option_rejects argv0 o l s :
  opt o = "?"%char ->
  handle_option argv0 o l s
  = Exited 1 (add_events [FprintfStderr ("%s: option '-%c' is invalid. See -h (--help)" ++ nl)
                            [ArgStr argv0; ArgChar (optopt o)]] s).
Proof. intros Ho. unfold handle_option. rewrite Ho. apply fatal_run. Qed.

(** One pass through the [while] loop. *)
Lemma parse_options_cons argv0 o opts l s :
  parse_options argv0 (o :: opts) l s =
  if Ascii.eqb (opt o) "?"
  then Exited 1
         (add_events [GetoptError (optopt o);
                      FprintfStderr ("%s: option '-%c' is invalid. See -h (--help)" ++ nl)
                        [ArgStr argv0; ArgChar (optopt o)]] s)
  else (l' ← handle_option argv0 o l; parse_options argv0 opts l') s.
Proof.
  cbn [parse_options]. rewrite bind_run.
  destruct (Ascii.eqb_spec (opt o) "?") as [Ho|Ho].
  - rewrite getopt_long_rejects by done. cbv beta iota.
    rewrite bind_run, handle_option_rejects by done.
    by rewrite add_events_app.
  - by rewrite getopt_long_accepts.
Qed.

(** One pass for an answer that is a given character. *)
Ltac next_option :=
  rewrite parse_options_cons;
  lazymatch goal with
  | |- context [Ascii.eqb ?c "?"] =>
      let b := eval vm_compute in (Ascii.eqb c "?") in
      change (Ascii.eqb c "?") with b
  end;
  cbv iota.

Lemma parse_options_outcome argv0 opts : forall l s,
  option_outcome l s (parse_options argv0 opts l s).
Proof.
  induction opts as [|o opts IH]; intros l s.
  - split; [done|tauto].
  - rewrite parse_options_cons. destruct (Ascii.eqb _ _).
    { split; [done|]. eexists. split; [|done]. eexists _, _. right. by eexists. }
    rewrite bind_run. pose proof (handle_option_outcome argv0 o l s) as Ho.
    destruct (handle_option argv0 o l s) as [l' s'| | |]; cbn in Ho; try done.
    destruct Ho as [-> Hok]. specialize (IH l' s).
    destruct (parse_options argv0 opts l' s); cbn in *; try done.
    destruct IH as [-> Hok']. split; [done|tauto].
Qed.

Lemma parse_options_ok argv0 opts l s :
  parse_options argv0 opts initial_locals initial_state = Returned l s ->
  s = initial_state /\ locals_ok l.
Proof.
  intros H. pose proof (parse_options_outcome argv0 opts initial_locals initial_state) as Ho.
  rewrite H in Ho. destruct Ho as [-> Hok]. split; [done|]. apply Hok, initial_locals_ok.
Qed.

(** ** Start-up *)

Lemma print_af_returns af : forall n f s,
  (f + n <= length af)%nat ->
  exists evs, Forall silent evs /\ print_af n f af s = Returned tt (add_events evs s).
Proof.
  induction n as [|n IH]; intros f s Hlen; cbn [print_af].
  - exists []. split; [constructor|]. rewrite add_events_nil. reflexivity.
  - destruct (lookup_lt_is_Some_2 af f) as [a Ha]; [lia|]. rewrite Ha.
    destruct (IH (S f) (add_events
      [Printf "%f Mhz " [ArgFloat (f32_div (f32_of_int (a + 875)) (f32_of_int 10))]] s))
      as (evs & Hevs & Heq); [lia|].
    eexists (_ :: evs). split; cycle 1.
    { rewrite bind_run, emit_run. cbv beta iota. rewrite Heq, add_events_app. reflexivity. }
    constructor; [by repeat split|done].
Qed.

(** With the array that [main] passes, printing the RDS options returns. *)
Lemma print_rds_options_returns rds pi ps rt pty l s :
  locals_ok l ->
  exists evs, Forall silent evs /\
    print_rds_options rds pi ps rt (<[0%nat := af_size l]> (alternative_freq l)) pty s
    = Returned tt (add_events evs s).
Proof.
  intros [Hlen Hsz]. unfold print_rds_options.
  rewrite bind_run, emit_run. cbv beta iota.
  destruct (rds =? 0).
  { rewrite emit_run, add_events_app. eexists. split; [|reflexivity]. by repeat constructor. }
  rewrite bind_run, emit_run. cbv beta iota.
  rewrite bind_run, emit_run. cbv beta iota.
  rewrite list_lookup_insert_eq by lia.
  destruct (af_size l =? 0).
  { rewrite ret_run, !add_events_app. eexists. split; [|reflexivity]. by repeat constructor. }
  rewrite bind_run, emit_run. cbv beta iota.
  rewrite bind_run, emit_run. cbv beta iota.
  rewrite bind_run.
  edestruct (print_af_returns (<[0%nat := af_size l]> (alternative_freq l))
               (Z.to_nat (af_size l)) 1) as (evs & Hevs & Heq);
    [rewrite length_insert; lia|].
  rewrite Heq. cbv beta iota. rewrite emit_run, !add_events_app.
  eexists. split; [|reflexivity].
  repeat (apply Forall_app; split); try by repeat constructor.
Qed.

Lemma init_control_pipe_run E cp s :
  init_control_pipe E cp s = Returned (polled_pipe E cp) (add_events (control_pipe_events E cp) s).
Proof.
  unfold init_control_pipe, polled_pipe, control_pipe_events.
  destruct cp as [path|]; [|rewrite add_events_nil; reflexivity].
  rewrite bind_run, emit_run. cbv beta iota.
  destruct (_ =? 0); rewrite bind_run, emit_run; cbv beta iota;
    rewrite add_events_app; reflexivity.
Qed.

Lemma run_main_parsed E fuel argv0 opts l :
  parse_options argv0 opts initial_locals initial_state = Returned l initial_state ->
  run_main E fuel argv0 opts = (main_generate E fuel l ≫= terminate) initial_state.
Proof.
  intros Hp. unfold run_main, main. rewrite bind_run, Hp. reflexivity.
Qed.

(** After a successful start-up [generate_mpx] is in its loop. *)
Lemma main_generate_started E fuel l :
  locals_ok l -> startup_ok E ->
  exists st rds_evs,
    src_new_res E = Some st /\ Forall silent rds_evs /\
    main_generate E fuel l initial_state =
    (run_loop E fuel 0 (polled_pipe E (control_pipe l)) st (rds l) (wait l) (mpx l)
       fresh_resample_out fresh_dev_out ;; mret 0)
      {| device := ao_open_live_res E; src_state := None;
         trace := startup_events E l rds_evs |}.
Proof.
  intros Hl ([dev Hdev] & [st Hst] & Hsrc).
  unfold main_generate. rewrite generate_mpx_unfold, Hdev, Hst.
  assert ((fm_mpx_open_res E <? 0) = false) as -> by lia.
  rewrite bind_run.
  edestruct (print_rds_options_returns (rds l) (pi l) (ps l) (rt l) (pty l) l) as
    (evs & Hevs & Heq); [done|]. rewrite Heq. cbv beta iota.
  rewrite bind_run, init_control_pipe_run. cbv beta iota.
  exists st, evs. split; [done|]. split; [done|].
  f_equal. unfold sink_opened, add_events, startup_events; cbn [device src_state trace].
  rewrite Hdev. cbn [initial_state src_state trace app].
  rewrite <- !app_assoc. reflexivity.
Qed.

(** ** Acquisitions and releases *)

Lemma released_teardown d st :
  released (teardown d st) = [BasebandSource; ControlChannel; Sink; ConverterState].
Proof. reflexivity. Qed.

Lemma acquired_teardown d st : acquired (teardown d st) = [].
Proof. reflexivity. Qed.

Lemma acquired_open_sink E : acquired (open_sink_events E) = [Sink].
Proof. reflexivity. Qed.

Lemma released_open_sink E : released (open_sink_events E) = [].
Proof. reflexivity. Qed.

Lemma silent_acquired evs : Forall silent evs -> acquired evs = [].
Proof. intros H. apply loop_events_acquired. eapply Forall_impl; [done|apply silent_loop_event]. Qed.

Lemma silent_released evs : Forall silent evs -> released evs = [].
Proof. intros H. apply loop_events_released. eapply Forall_impl; [done|apply silent_loop_event]. Qed.

Lemma loop_events_of_acquired cp evs : Forall (loop_event_of cp) evs -> acquired evs = [].
Proof. intros H. apply loop_events_acquired. eapply Forall_impl; [done|by intros ? [??]]. Qed.

Lemma loop_events_of_released cp evs : Forall (loop_event_of cp) evs -> released evs = [].
Proof. intros H. apply loop_events_released. eapply Forall_impl; [done|by intros ? [??]]. Qed.

Lemma released_control_pipe E cp : released (control_pipe_events E cp) = [].
Proof. destruct cp; [|done]. unfold control_pipe_events. by destruct (_ =? 0). Qed.

Lemma acquired_control_pipe E cp :
  acquired (control_pipe_events E cp) = if cp is Some _ then [ControlChannel] else [].
Proof. destruct cp; [|done]. unfold control_pipe_events. by destruct (_ =? 0). Qed.

Lemma emits_adds {A} P (m : M A) : emits P m -> adds (Forall P) m.
Proof. done. Qed.

Lemma adds_bind {A B} (Q1 Q2 Q : list event -> Prop) (m : M A) (f : A -> M B) :
  adds Q1 m -> (forall a, adds Q2 (f a)) ->
  (forall e1, Q1 e1 -> Q e1) ->
  (forall e1 e2, Q1 e1 -> Q2 e2 -> Q (e1 ++ e2)) ->
  adds Q (m ≫= f).
Proof.
  intros Hm Hf Hstop Hgo s. rewrite bind_run.
  destruct (Hm s) as [Hx (evs & Hevs & Hs)].
  destruct (m s) as [a s'| | |]; cbn in *; try discriminate; subst.
  - destruct (Hf a (add_events evs s)) as [Hx' (evs' & Hevs' & Hs')].
    split; [done|]. exists (evs ++ evs'). split; [by apply Hgo|].
    by rewrite Hs', add_events_app.
  - split; [done|]. exists evs; split; [by apply Hstop|done].
  - split; [done|]. exists evs; split; [by apply Hstop|done].
Qed.

Lemma streaming_phase_adds E fuel rds pi ps rt af pty cp st wait mpx rb db :
  adds after_open
    (print_rds_options rds pi ps rt af pty ;;
     control_pipe' ← init_control_pipe E cp;
     run_loop E fuel 0 control_pipe' st rds wait mpx rb db ;;
     mret 0).
Proof.
  eapply adds_bind with (Q1 := Forall silent)
    (Q2 := fun evs => released evs = [] /\
             (acquired evs = [] \/ acquired evs = [ControlChannel])).
  - apply emits_adds, print_rds_options_emits.
  - intros _. eapply adds_bind with (Q1 := eq (control_pipe_events E cp))
      (Q2 := Forall loop_event).
    + intros s. rewrite init_control_pipe_run. split; [done|]. by eexists.
    + intros cp'. apply emits_adds. apply emits_bind; [|intros; apply emits_ret].
      eapply emits_weaken; [|apply run_loop_emits]. by intros e [? _].
    + intros e1 <-. split; [apply released_control_pipe|].
      rewrite acquired_control_pipe. destruct cp; auto.
    + intros e1 e2 <- H2. cbv beta.
      rewrite released_app, acquired_app, released_control_pipe,
        acquired_control_pipe, (loop_events_released _ H2),
        (loop_events_acquired _ H2). split; [done|]. destruct cp; auto.
  - intros e1 H1. split; [by apply silent_released|left; by apply silent_acquired].
  - intros e1 e2 H1 [H2 H3]. unfold after_open.
    rewrite released_app, acquired_app, H2,
      (silent_released _ H1), (silent_acquired _ H1). by split.
Qed.

Lemma generate_mpx_shape E fuel audio_file rds pi ps rt af preemph mpx cp pty tp wait s :
  let o := generate_mpx E fuel audio_file rds pi ps rt af preemph mpx cp pty tp wait s in
  exit_code o = None /\
  exists evs n,
    outcome_state o =
      {| device := ao_open_live_res E; src_state := src_state s; trace := trace s ++ evs |} /\
    released evs = [] /\
    (1 <= n <= 4)%nat /\ acquired evs = take n acquisition_order.
Proof.
  cbv zeta. rewrite generate_mpx_unfold.
  destruct (ao_open_live_res E) as [dev|] eqn:Hdev.
  2:{ split; [done|]. eexists _, 1%nat. unfold sink_opened. rewrite Hdev.
      split; [reflexivity|]. split; [done|]. split; [lia|done]. }
  destruct (src_new_res E) as [cst|] eqn:Hcst.
  2:{ split; [done|]. eexists _, 2%nat. unfold sink_opened. rewrite Hdev.
      split; [reflexivity|]. split; [done|]. split; [lia|done]. }
  destruct (fm_mpx_open_res E <? 0) eqn:Hsrc.
  { split; [done|]. eexists _, 3%nat. unfold sink_opened. rewrite Hdev.
    split; [reflexivity|]. split; [done|]. split; [lia|done]. }
  set (s1 := sink_opened E _ s).
  destruct (streaming_phase_adds E fuel rds pi ps rt af pty cp cst wait mpx
              fresh_resample_out fresh_dev_out s1) as [Hx (evs & [Hrel Hacq] & Hs)].
  split; [done|]. rewrite Hs.
  exists (open_sink_events E ++
          (open_source_events audio_file preemph ++ set_rds_events pi ps rt pty tp) ++ evs),
         (3 + length (acquired evs))%nat.
  split; [|split; [|split]].
  - subst s1. unfold add_events, sink_opened; cbn [device src_state trace].
    rewrite Hdev. by rewrite <- !app_assoc.
  - by rewrite !released_app, Hrel.
  - destruct Hacq as [-> | ->]; cbn; lia.
  - rewrite !acquired_app. destruct Hacq as [-> | ->]; reflexivity.
Qed.

(** ** Runs of [main] *)

Lemma run_main_outcome E fuel argv0 opts :
  (exists evs,
     rejection evs /\
     run_main E fuel argv0 opts = Exited 1 (add_events evs initial_state))
  \/ run_main E fuel argv0 opts = Undefined initial_state
  \/ exists l,
       parse_options argv0 opts initial_locals initial_state = Returned l initial_state /\
       locals_ok l /\
       run_main E fuel argv0 opts = (main_generate E fuel l ≫= terminate) initial_state.
Proof.
  pose proof (parse_options_outcome argv0 opts initial_locals initial_state) as Ho.
  unfold run_main, main. rewrite bind_run.
  destruct (parse_options argv0 opts initial_locals initial_state) as [l s| | |] eqn:Hp;
    cbn in Ho; try done.
  - destruct Ho as [-> Hok]. right; right. exists l. split; [done|].
    split; [apply Hok, initial_locals_ok|reflexivity].
  - destruct Ho as [-> (evs & Hevs & ->)]. left. by exists evs.
  - subst. right; left. reflexivity.
Qed.

(** Every run in which [main] gets as far as [generate_mpx]. *)
Lemma main_generate_terminate E fuel l :
  let o := (main_generate E fuel l ≫= terminate (A := Z)) initial_state in
  exists evs n,
    released evs = [] /\ (1 <= n <= 4)%nat /\ acquired evs = take n acquisition_order /\
    ((exists code, o = Exited code
        {| device := ao_open_live_res E; src_state := None;
           trace := evs ++ teardown (ao_open_live_res E) None |})
     \/ (exit_code o = None /\ trace (outcome_state o) = evs)).
Proof.
  cbv zeta. rewrite bind_run. unfold main_generate.
  match goal with |- context [generate_mpx ?E ?f ?a ?b ?c ?d ?e ?g ?h ?i ?j ?k ?m ?n ?s] =>
    destruct (generate_mpx_shape E f a b c d e g h i j k m n s)
      as [Hx (evs & n' & Hs & Hrel & Hn & Hacq)];
    destruct (generate_mpx E f a b c d e g h i j k m n s) as [code s'| | |] eqn:Hg
  end; cbn in Hx, Hs; try discriminate; subst; exists evs, n';
    (split; [done|split; [done|split; [done|]]]).
  - left. exists code. rewrite terminate_run. reflexivity.
  - right. split; [done|reflexivity].
  - right. split; [done|reflexivity].
Qed.

(** ** The calls of every run *)

Section Calls.

(** A property of events that holds of [sigaction] for the numbers 0 to
    24, of [src_process] with the settings [src_data], and of every other
    call. *)
Variable P : event -> Prop.
Hypothesis P_sigaction : forall n, 0 <= n < 25 -> P (Sigaction n).
Hypothesis P_src_process : forall st, P (SrcProcess st src_data).
Hypothesis P_other :
  forall e, match e with Sigaction _ | SrcProcess _ _ => False | _ => True end -> P e.

Ltac calls_step :=
  first
    [ apply logs_ret | apply logs_exit | apply logs_undefined | apply logs_out_of_fuel
    | apply logs_get_device | apply logs_get_src_state | apply logs_set_device
    | apply logs_emit; first [apply P_src_process | apply P_other; exact I]
    | apply logs_bind; [|intros ?]
    | match goal with
      | |- logs _ (match ?x with _ => _ end) => destruct x
      end ].

Lemma install_handlers_calls n : forall i,
  0 <= i -> i + Z.of_nat n <= 25 -> logs P (install_handlers n i).
Proof.
  induction n as [|n IH]; intros i Hi Hn; cbn [install_handlers]; [calls_step|].
  apply logs_bind; [apply logs_emit, P_sigaction; lia|intros _].
  apply IH; lia.
Qed.

Lemma print_af_calls n f af : logs P (print_af n f af).
Proof.
  revert f; induction n as [|n IH]; intros f; cbn [print_af]; repeat calls_step.
  apply IH.
Qed.

Lemma print_rds_options_calls rds pi ps rt af pty :
  logs P (print_rds_options rds pi ps rt af pty).
Proof. unfold print_rds_options. repeat calls_step. apply print_af_calls. Qed.

Lemma loop_body_calls E iter cp st rds wait mpx rb db :
  logs P (loop_body E iter cp st rds wait mpx rb db).
Proof.
  unfold loop_body. repeat calls_step.
Qed.

Lemma run_loop_calls E fuel : forall iter cp st rds wait mpx rb db,
  logs P (run_loop E fuel iter cp st rds wait mpx rb db).
Proof.
  induction fuel as [|fuel IH]; intros; cbn [run_loop]; [apply logs_out_of_fuel|].
  apply logs_bind; [apply loop_body_calls|].
  intros [[rb' db']|]; [apply IH|apply logs_ret].
Qed.

Lemma generate_mpx_calls E fuel audio_file rds pi ps rt af preemph mpx cp pty tp wait :
  logs P (generate_mpx E fuel audio_file rds pi ps rt af preemph mpx cp pty tp wait).
Proof.
  unfold generate_mpx.
  apply logs_bind; [apply install_handlers_calls; lia|intros _].
  do 4 (apply logs_bind; [calls_step|intros _]).
  destruct (ao_open_live_res E); [|repeat calls_step].
  apply logs_bind; [calls_step|intros _].
  destruct (src_new_res E) as [st|]; [|repeat calls_step].
  do 2 (apply logs_bind; [calls_step|intros _]).
  destruct (_ <? 0); [calls_step|].
  do 7 (apply logs_bind; [calls_step|intros _]).
  apply logs_bind; [apply print_rds_options_calls|intros _].
  apply logs_bind; [unfold init_control_pipe; repeat calls_step|intros cp'].
  apply logs_bind; [apply run_loop_calls|intros _; calls_step].
Qed.

Lemma terminate_calls_logs {A} num : logs P (@terminate A num).
Proof.
  unfold terminate, terminate_calls, sequence_, ao_close_device, src_delete_src_state.
  repeat calls_step.
Qed.

Lemma handle_option_calls argv0 o l : logs P (handle_option argv0 o l).
Proof.
  unfold handle_option, fatal, atoi_optarg.
  destruct (opt o) as [[] [] [] [] [] [] [] []]; repeat calls_step.
Qed.

Lemma parse_options_calls argv0 opts : forall l,
  logs P (parse_options argv0 opts l).
Proof.
  induction opts as [|o opts IH]; intros l; cbn [parse_options]; [calls_step|].
  apply logs_bind; [unfold getopt_long; destruct (Ascii.eqb _ _); calls_step|intros _].
  apply logs_bind; [apply handle_option_calls|apply IH].
Qed.

Lemma main_calls E fuel argv0 opts : logs P (main E fuel argv0 opts).
Proof.
  unfold main.
  apply logs_bind; [apply parse_options_calls|intros l].
  apply logs_bind; [apply generate_mpx_calls|intros errcode; apply terminate_calls_logs].
Qed.

End Calls.

(** The settings of every converter call. *)
Lemma terminate_logs {A} num : logs converter_call (@terminate A num).
Proof. apply terminate_calls_logs. by intros []. Qed.

Lemma main_logs E fuel argv0 opts : logs converter_call (main E fuel argv0 opts).
Proof. apply main_calls; [done|done|by intros []]. Qed.

(** The numbers of the signals for which a handler is asked. *)
Lemma run_main_sigaction E fuel argv0 opts n :
  In (Sigaction n) (trace (outcome_state (run_main E fuel argv0 opts))) -> 0 <= n < 25.
Proof.
  intros Hin.
  destruct (main_calls signal_call ltac:(done) ltac:(done) ltac:(by intros [])
              E fuel argv0 opts initial_state) as (evs & Hevs & Htr).
  unfold run_main in Hin. rewrite Htr in Hin. cbn [initial_state trace app] in Hin.
  rewrite Forall_forall in Hevs. by apply list_elem_of_In, Hevs in Hin.
Qed.

(** ** The first block *)

(** After a successful start-up, when source, converter and sink do their
    part in the first iteration, the formatted block reaches the sink. *)
Lemma run_main_plays_block E fuel argv0 opts l :
  parse_options argv0 opts initial_locals initial_state = Returned l initial_state ->
  startup_ok E -> (0 < fuel)%nat -> iteration_ok E (mpx l) 0 ->
  exists vs,
    mapM (convert (mpx l)) (src_process_res E 0).2 = Some vs /\
    In (AoPlay (ao_open_live_res E) (stereo vs)
          (Z.of_nat (length (src_process_res E 0).2) * 4))
       (trace (outcome_state (run_main E fuel argv0 opts))).
Proof.
  intros Hp Hstart Hfuel Hok.
  destruct (parse_options_ok _ _ _ _ Hp) as [_ Hl].
  destruct (main_generate_started E fuel l Hl Hstart) as (st & rds_evs & Hst & Hrds & Hgen).
  set (s0 := {| device := ao_open_live_res E; src_state := None;
                trace := startup_events E l rds_evs |}) in *.
  destruct (run_loop_plays_block E fuel (polled_pipe E (control_pipe l)) st (rds l) (wait l)
              (mpx l) fresh_resample_out fresh_dev_out s0 Hfuel fresh_buffers_ok Hok)
    as (vs & evs & Hvs & Hs).
  exists vs. split; [done|].
  rewrite (run_main_parsed _ _ _ _ _ Hp).
  destruct (bind_trace converter_call (main_generate E fuel l) (terminate (A := Z)) initial_state)
    as (evs2 & ->); [intros; apply terminate_logs|].
  rewrite Hgen.
  match goal with |- context [(?m ≫= ?f) s0] =>
    destruct (bind_trace converter_call m f s0) as (evs1 & ->); [intros; apply logs_ret|]
  end.
  rewrite Hs. cbn [add_events trace device s0].
  rewrite !in_app_iff. left. left. right. right. left. right. right. by left.
Qed.

(** ** Signals *)

Lemma terminate_interrupted_signalled {A} k num signum :
  @terminate_interrupted A k num signum = terminate_signalled num [(k, signum)].
Proof. reflexivity. Qed.

Lemma terminate_signalled_run {A} sigs : forall num s,
  @terminate_signalled A num sigs s
  = Exited (last_signal num sigs)
      (add_events (passes (device s) (src_state s) (sigs.*1)
                   ++ teardown (device s) (src_state s)) s).
Proof.
  induction sigs as [|[k signum] sigs IH]; intros num s.
  - apply terminate_run.
  - cbn [terminate_signalled]. rewrite bind_run, take_terminate_calls_run. cbv beta iota.
    rewrite IH. cbn [add_events device src_state]. f_equal.
    unfold add_events. cbn [device src_state trace fmap list_fmap fst passes mbind list_bind].
    by rewrite <- !app_assoc.
Qed.

Lemma omap_take {A B} (f : A -> option B) l : forall k,
  exists m, omap f (take k l) = take m (omap f l).
Proof.
  induction l as [|x l IH]; intros k.
  - exists 0%nat. by destruct k.
  - destruct k as [|k]; [by exists 0%nat|].
    destruct (IH k) as [m Hm]. cbn. destruct (f x).
    + exists (S m). cbn. by rewrite Hm.
    + by exists m.
Qed.

Lemma released_take_teardown d st k :
  exists j, (j <= 4)%nat /\ released (take k (teardown d st)) = take j release_order.
Proof.
  do 6 (destruct k as [|k];
        [first [by exists 0%nat; split; [lia|] | by exists 1%nat; split; [lia|]
               | by exists 2%nat; split; [lia|] | by exists 3%nat; split; [lia|]
               | by exists 4%nat; split; [lia|]]|]).
  exists 4%nat. split; [lia|]. by rewrite take_ge by (cbn; lia).
Qed.

Lemma acquired_take_teardown d st k : acquired (take k (teardown d st)) = [].
Proof. do 6 (destruct k as [|k]; [done|]). by rewrite take_ge by (cbn; lia). Qed.

Lemma released_passes d st ks :
  exists js, length js = length ks /\
    released (passes d st ks) = js ≫= (fun j => take j release_order).
Proof.
  induction ks as [|k ks (js & Hlen & IH)]; [by exists []|].
  destruct (released_take_teardown d st k) as (j & _ & Hj).
  exists (j :: js). split; [cbn; lia|].
  unfold passes in *. cbn [mbind list_bind]. by rewrite released_app, Hj, IH.
Qed.

Lemma acquired_passes d st ks : acquired (passes d st ks) = [].
Proof.
  induction ks as [|k ks IH]; [done|].
  unfold passes in *. cbn [mbind list_bind].
  by rewrite acquired_app, acquired_take_teardown, IH.
Qed.

Lemma existsb_ao_open_live_acquired evs n :
  acquired evs = take n acquisition_order -> (1 <= n)%nat ->
  existsb is_ao_open_live evs = true.
Proof.
  intros Hacq Hn. destruct n as [|n]; [lia|]. clear Hn.
  induction evs as [|e evs IH]; [done|].
  destruct e; cbn in *; try done; by apply IH.
Qed.

Lemma existsb_ao_open_live_quiet evs :
  acquired evs = [] -> existsb is_ao_open_live evs = false.
Proof.
  induction evs as [|e evs IH]; [done|].
  destruct e; cbn; try done; by apply IH.
Qed.

Lemma rejection_quiet evs : rejection evs -> acquired evs = [] /\ released evs = [].
Proof. by intros (fmt & args & [->|[c ->]]). Qed.

(** The trace of any run: calls that acquire, in the fixed order and
    without a release, and then the calls of [terminate], when the run
    gets there. *)
Lemma run_main_phases E fuel argv0 opts :
  exists evs tail n,
    trace (outcome_state (run_main E fuel argv0 opts)) = evs ++ tail /\
    device (outcome_state (run_main E fuel argv0 opts))
    = (if existsb is_ao_open_live evs then ao_open_live_res E else None) /\
    src_state (outcome_state (run_main E fuel argv0 opts)) = None /\
    released evs = [] /\ (n <= 4)%nat /\ acquired evs = take n acquisition_order /\
    (tail = [] \/ tail = teardown (ao_open_live_res E) None).
Proof.
  destruct (run_main_outcome E fuel argv0 opts)
    as [(evs & Hrej & Heq)|[Heq|(l & Hp & Hl & Heq)]]; rewrite Heq.
  - destruct (rejection_quiet evs Hrej) as [Ha Hr].
    exists evs, [], 0%nat. cbn. rewrite app_nil_r, (existsb_ao_open_live_quiet evs Ha).
    do 4 (split; [done|]). split; [lia|]. split; [done|]. by left.
  - exists [], [], 0%nat. do 4 (split; [done|]). split; [lia|]. split; [done|]. by left.
  - rewrite bind_run. unfold main_generate.
    match goal with |- context [generate_mpx ?E ?f ?a ?b ?c ?d ?e ?g ?h ?i ?j ?k ?m ?n ?s] =>
      destruct (generate_mpx_shape E f a b c d e g h i j k m n s)
        as [Hx (evs & n' & Hs & Hrel & Hn & Hacq)];
      destruct (generate_mpx E f a b c d e g h i j k m n s) as [code s'| | |] eqn:Hg
    end; cbn in Hx, Hs; try discriminate; subst;
      pose proof (existsb_ao_open_live_acquired evs n' Hacq ltac:(lia)) as Hopen.
    + rewrite terminate_run. exists evs, (teardown (ao_open_live_res E) None), n'.
      cbn. rewrite Hopen. do 4 (split; [done|]). split; [lia|]. split; [done|]. by right.
    + exists evs, [], n'. cbn. rewrite app_nil_r, Hopen.
      do 4 (split; [done|]). split; [lia|]. split; [done|]. by left.
    + exists evs, [], n'. cbn. rewrite app_nil_r, Hopen.
      do 4 (split; [done|]). split; [lia|]. split; [done|]. by left.
Qed.

(** At the end of every run the globals are what [globals_after] reads
    off the trace. *)
Lemma globals_after_run E fuel argv0 opts :
  globals_after E (trace (outcome_state (run_main E fuel argv0 opts)))
  = outcome_state (run_main E fuel argv0 opts).
Proof.
  destruct (run_main_phases E fuel argv0 opts)
    as (evs & tail & n & Htr & Hd & Hst & _ & _ & _ & Htail).
  destruct (outcome_state (run_main E fuel argv0 opts)) as [d st tr].
  cbn in *. subst. unfold globals_after. f_equal.
  rewrite existsb_app. destruct (existsb is_ao_open_live evs); [done|].
  by destruct Htail as [->| ->].
Qed.

(** A signal that arrives while the invocation of [terminate] by [main]
    is under way, after [j] of its calls, makes of it an interrupted
    one. *)
Lemma signal_during_teardown E fuel argv0 opts l errcode s j signum sigs :
  parse_options argv0 opts initial_locals initial_state = Returned l initial_state ->
  main_generate E fuel l initial_state = Returned errcode s ->
  run_main_signalled E fuel argv0 opts ((length (trace s) + j, signum)%nat :: sigs)
  = terminate_signalled errcode ((j, signum) :: sigs) s.
Proof.
  intros Hp Hg. cbn [run_main_signalled terminate_signalled].
  rewrite bind_run, take_terminate_calls_run. cbv beta iota.
  pose proof (globals_after_run E fuel argv0 opts) as Hglob.
  rewrite (run_main_parsed _ _ _ _ _ Hp), bind_run, Hg in Hglob |- *.
  cbv beta iota in Hglob |- *. rewrite terminate_run in Hglob |- *. clear Hp Hg.
  destruct s as [d st tr]. unfold globals_after, add_events in *.
  cbn [outcome_state trace device src_state] in *.
  injection Hglob as Hd Hst. f_equal. subst st.
  rewrite take_app_add. rewrite !existsb_app in *.
  assert (Htd : forall i, existsb is_ao_open_live (take i (teardown d None)) = false).
  { intros i. do 6 (destruct i as [|i]; [done|]). by rewrite take_ge by (cbn; lia). }
  rewrite Htd. rewrite <- (take_ge (teardown d None) 6), Htd in Hd by (cbn; lia).
  by rewrite Hd.
Qed.

(** The trace of a run that a signal ends. *)
Lemma run_main_signalled_run E fuel argv0 opts k signum sigs :
  let tr := take k (trace (outcome_state (run_main E fuel argv0 opts))) in
  let d := device (globals_after E tr) in
  run_main_signalled E fuel argv0 opts ((k, signum) :: sigs)
  = Exited (last_signal signum sigs)
      {| device := d; src_state := None;
         trace := tr ++ passes d None (sigs.*1) ++ teardown d None |}.
Proof. cbv zeta. cbn [run_main_signalled]. by rewrite terminate_signalled_run. Qed.

(** * The claims *)

(** ** C1: streaming-fatal conditions *)

Lemma two_frames_ok : frames_ok (f32_of_int 10) two_frames.
Proof. split; [cbn; unfold DATA_SIZE; lia|]. eexists. vm_compute. reflexivity. Qed.

(** C1, as stated, fails: when the source reports the end of the stream
    in the first iteration, the process exits with code 0. *)
Lemma C1_counterexample :
  streaming_fatal (env_end_of_stream 0) (mpx initial_locals) 0 /\
  ~ (exists code st,
       run_main (env_end_of_stream 0) 1 "mpxgen" [] = Exited code st /\ code <> 0).
Proof.
  split; [apply source_fails; cbn; lia|].
  assert (H : exit_code (run_main (env_end_of_stream 0) 1 "mpxgen" []) = Some 0)
    by (vm_compute; reflexivity).
  intros (code & st & Heq & Hne). rewrite Heq in H. cbn in H. congruence.
Qed.

(** C1 (amended): when the first streaming-fatal condition (the source
    returns a negative value, the conversion fails, or the sink refuses
    a block) occurs in iteration [n], the loop is left, [terminate] makes
    its teardown calls once, after everything else, and the process
    exits; the exit code is 0 when the condition is the source's. *)
Theorem C1_streaming_fatal_teardown E fuel argv0 opts l n :
  parse_options argv0 opts initial_locals initial_state = Returned l initial_state ->
  startup_ok E ->
  (forall j, (j < n)%nat -> iteration_ok E (mpx l) j) ->
  streaming_fatal E (mpx l) n ->
  (n < fuel)%nat ->
  exists code evs,
    run_main E fuel argv0 opts =
      Exited code
        {| device := ao_open_live_res E; src_state := None;
           trace := evs ++ teardown (ao_open_live_res E) None |} /\
    released evs = [] /\
    (fm_mpx_get_samples_res E n < 0 -> code = 0).
Proof.
  intros Hp Hstart Hok Hfatal Hfuel.
  destruct (parse_options_ok _ _ _ _ Hp) as [_ Hl].
  rewrite (run_main_parsed _ _ _ _ _ Hp), bind_run.
  destruct (main_generate_started E fuel l Hl Hstart) as (st & rds_evs & Hst & Hrds & ->).
  rewrite bind_run.
  edestruct (run_loop_fatal E (polled_pipe E (control_pipe l)) st (rds l) (wait l) (mpx l) n
               fuel 0%nat fresh_resample_out fresh_dev_out) as (evs & Hevs & ->);
    [apply fresh_buffers_ok|exact Hok|exact Hfatal|exact Hfuel|].
  cbv beta iota. rewrite ret_run. cbv beta iota. rewrite terminate_run.
  exists 0, (startup_events E l rds_evs ++ evs).
  split; [|split; [|done]].
  - unfold add_events; cbn [device src_state trace]. by rewrite <- !app_assoc.
  - destruct Hstart as ([dev Hdev] & _).
    unfold startup_events.
    rewrite !released_app, released_open_sink, released_control_pipe,
      (silent_released _ Hrds), (loop_events_released _ Hevs). reflexivity.
Qed.

Lemma C1_streaming_fatal_teardown_witness :
  exists code evs,
    run_main (env_sink_fails 1) 2 "mpxgen" [] =
      Exited code
        {| device := Some 1%positive; src_state := None;
           trace := evs ++ teardown (Some 1%positive) None |} /\
    released evs = [] /\
    (fm_mpx_get_samples_res (env_sink_fails 1) 1 < 0 -> code = 0).
Proof.
  apply (C1_streaming_fatal_teardown (env_sink_fails 1) 2 "mpxgen" [] initial_locals 1).
  - reflexivity.
  - repeat split; cbn; try (by eexists); lia.
  - intros j Hj. assert (j = 0%nat) as -> by lia.
    repeat split; cbn; try lia; try apply two_frames_ok.
  - apply sink_fails; cbn; try lia; try reflexivity. apply two_frames_ok.
  - lia.
Defined.

(** ** C2: [terminate] twice *)

(** C2, as stated, fails: a signal that arrives once [ao_close] has
    returned makes the handler close the same device a second time. *)
Lemma C2_counterexample :
  exists st,
    terminate_interrupted (A := Z) 3 0 15 running_state = Exited 15 st /\
    close_count 1%positive (trace st) = 2%nat.
Proof. eexists. split; reflexivity. Qed.

(** C2 (amended): [terminate] keeps no record of what it has released.
    One invocation makes each release call once and exits. An invocation
    that is interrupted after [k] of its calls by a second one makes
    those [k] calls and then all calls again: the release calls that are
    among the first [k] are made twice, the others once. *)
Theorem C2_terminate_repeats_releases k num signum s :
  let td := teardown (device s) (src_state s) in
  terminate (A := Z) num s = Exited num (add_events td s) /\
  terminate_interrupted (A := Z) k num signum s
  = Exited signum (add_events (take k td ++ td) s) /\
  forall r,
    release_count r td = 1%nat /\
    release_count r (take k td ++ td)
    = if bool_decide (release_position r <= k)%nat then 2%nat else 1%nat.
Proof.
  cbv zeta. split; [apply terminate_run|]. split; [apply terminate_interrupted_run|].
  intros r. split; [by destruct r|].
  do 6 (destruct k as [|k]; [by destruct r|]).
  rewrite take_ge by (cbn; lia). by destruct r.
Qed.

(** ** C3: the limit given to the converter *)

(** C3 fails on the code: in every run, every call of [src_process] gives
    the converter the limit [OUTPUT_DATA_SIZE] = 8192 frames, twice what
    the array [resample_out] that receives them holds and twice the
    number of stereo frames that fit [dev_out]. *)
Theorem C3_limit_exceeds_capacity E fuel argv0 opts st d :
  In (SrcProcess st d) (trace (outcome_state (run_main E fuel argv0 opts))) ->
  output_frames d = 8192 /\
  capacity (data_out d) = 4096 /\
  capacity dev_out / channels ao_format = 4096.
Proof.
  intros Hin. destruct (main_logs E fuel argv0 opts initial_state) as (evs & Hevs & Htr).
  unfold run_main in Hin. rewrite Htr in Hin. cbn [initial_state trace app] in Hin.
  rewrite Forall_forall in Hevs. apply list_elem_of_In, Hevs in Hin. cbn in Hin. subst d.
  by repeat split.
Qed.

Lemma C3_limit_exceeds_capacity_witness :
  output_frames src_data = 8192 /\
  capacity (data_out src_data) = 4096 /\
  capacity dev_out / channels ao_format = 4096.
Proof.
  apply (C3_limit_exceeds_capacity (env_ok two_frames) 1 "mpxgen" [] 2%positive src_data).
  vm_compute. repeat (first [left; reflexivity | right]).
Defined.

(** A converter that uses one frame more than [resample_out] holds, well
    within the limit it was given, writes past the end of the array. *)
Lemma converter_overrun :
  let frames := replicate 4097 (S754_zero false) in
  Z.of_nat (length frames) <= output_frames src_data /\
  exists st, run_main (env_ok frames) 1 "mpxgen" [] = Undefined st.
Proof. split; [by vm_compute|]. eexists. vm_compute. reflexivity. Qed.

(** ** C4: start-up failures *)

(** C4, as stated, fails: when the sound device cannot be opened, nothing
    has been acquired, and still all four release calls are made. *)
Lemma C4_counterexample :
  exists st,
    run_main env_no_sink 1 "mpxgen" [] = Exited 1 st /\
    ao_open_live_res env_no_sink = None /\
    acquired (trace st) = [Sink] /\
    released (trace st) = [BasebandSource; ControlChannel; Sink; ConverterState].
Proof. eexists. split; [vm_compute; reflexivity|]. by repeat split. Qed.

(** C4 (amended): when opening the sink, creating the converter or
    opening the baseband source fails, [generate_mpx] returns 1 without
    any streaming call, after an error message when it is the sink or
    the converter, and [main] passes the 1 to [terminate]: all four
    release calls are made, whatever had been acquired, and the process
    exits with code 1. *)
Theorem C4_startup_failure_teardown E fuel argv0 opts l :
  parse_options argv0 opts initial_locals initial_state = Returned l initial_state ->
  startup_failure E ->
  exists evs n,
    run_main E fuel argv0 opts =
      Exited 1
        {| device := ao_open_live_res E; src_state := None;
           trace := evs ++ teardown (ao_open_live_res E) None |} /\
    Forall (fun e => is_streaming e = false) evs /\
    released evs = [] /\
    (1 <= n <= 3)%nat /\ acquired evs = take n acquisition_order /\
    released (teardown (ao_open_live_res E) None) = release_order /\
    stderr_messages evs = startup_message E.
Proof.
  intros Hp Hfail.
  rewrite (run_main_parsed _ _ _ _ _ Hp), bind_run.
  unfold main_generate. rewrite generate_mpx_unfold.
  assert (Hsink : Forall (fun e => is_streaming e = false) (open_sink_events E))
    by (repeat constructor).
  unfold startup_message.
  destruct (ao_open_live_res E) as [dev|] eqn:Hdev.
  2:{ cbv beta iota. rewrite terminate_run. unfold sink_opened. rewrite Hdev.
      eexists _, 1%nat. split; [reflexivity|].
      split; [apply Forall_app; split; [done|by repeat constructor]|].
      split; [done|]. split; [lia|]. by repeat split. }
  destruct (src_new_res E) as [cst|] eqn:Hcst.
  2:{ cbv beta iota. rewrite terminate_run. unfold sink_opened. rewrite Hdev.
      eexists _, 2%nat. split; [reflexivity|].
      split; [apply Forall_app; split; [done|by repeat constructor]|].
      split; [done|]. split; [lia|]. by repeat split. }
  destruct (fm_mpx_open_res E <? 0) eqn:Hsrc.
  2:{ destruct Hfail as [?|[?|?]]; [congruence|congruence|lia]. }
  cbv beta iota. rewrite terminate_run. unfold sink_opened. rewrite Hdev.
  eexists _, 3%nat. split; [reflexivity|].
  split; [apply Forall_app; split; [done|by repeat constructor]|].
  split; [done|]. split; [lia|]. by repeat split.
Qed.

Lemma C4_startup_failure_teardown_witness :
  exists evs n,
    run_main env_no_sink 1 "mpxgen" [] =
      Exited 1 {| device := None; src_state := None; trace := evs ++ teardown None None |} /\
    Forall (fun e => is_streaming e = false) evs /\
    released evs = [] /\
    (1 <= n <= 3)%nat /\ acquired evs = take n acquisition_order /\
    released (teardown None None) = release_order /\
    stderr_messages evs = startup_message env_no_sink.
Proof.
  apply (C4_startup_failure_teardown env_no_sink 1 "mpxgen" [] initial_locals).
  - reflexivity.
  - left. reflexivity.
Defined.

(** ** C5: the order of acquisitions and releases *)

(** C5, as stated, fails: with a control pipe and collaborators that
    succeed, the sink is acquired first and the baseband source third,
    and the releases are not made in the reverse order. *)
Lemma C5_counterexample :
  exists st,
    run_main (env_end_of_stream 1) 2 "mpxgen" [option_of "C" "/tmp/ctl"] = Exited 0 st /\
    acquired (trace st) = [Sink; ConverterState; BasebandSource; ControlChannel] /\
    acquired (trace st) <> [BasebandSource; Sink; ConverterState; ControlChannel] /\
    released (trace st) = [BasebandSource; ControlChannel; Sink; ConverterState] /\
    released (trace st) <> rev (acquired (trace st)).
Proof. eexists. split; [vm_compute; reflexivity|]. by repeat split. Qed.

(** C5 (amended): in every run that ends in [exit], with or without
    signals, the acquisitions are made in the order sink, converter
    state, baseband source, control channel, as far as start-up got, and
    every invocation of [terminate], by [main] or as the handler of a
    signal, makes the release calls in the order baseband source, control
    channel, sink, converter state, whatever has been acquired. Without a
    signal that is one such pass, or none at all when the options were
    rejected; each signal that arrives cuts a pass short, if one is under
    way, and starts a new one from the beginning. *)
Theorem C5_acquisition_and_release_order E fuel argv0 opts sigs code st :
  delivered E fuel argv0 opts sigs = true ->
  run_main_signalled E fuel argv0 opts sigs = Exited code st ->
  (sigs = [] /\ acquired (trace st) = [] /\ released (trace st) = []) \/
  (exists n ks,
     (n <= 4)%nat /\ (sigs = [] -> (1 <= n)%nat) /\ length ks = length sigs /\
     acquired (trace st) = take n [Sink; ConverterState; BasebandSource; ControlChannel] /\
     released (trace st)
     = (ks ≫= (fun k => take k [BasebandSource; ControlChannel; Sink; ConverterState]))
       ++ [BasebandSource; ControlChannel; Sink; ConverterState]).
Proof.
  intros _ Hrun. destruct sigs as [|[k signum] sigs].
  - cbn [run_main_signalled] in Hrun.
    destruct (run_main_outcome E fuel argv0 opts)
      as [(evs & Hrej & Heq)|[Heq|(l & Hp & Hl & Heq)]]; rewrite Heq in Hrun.
    + injection Hrun as <- <-. left. cbn [add_events initial_state trace app].
      destruct (rejection_quiet evs Hrej) as [Ha Hr]. by rewrite Ha, Hr.
    + discriminate.
    + destruct (main_generate_terminate E fuel l) as (evs & n & Hrel & Hn & Hacq & Hend).
      right. exists n, []. split; [lia|]. split; [lia|]. split; [done|].
      destruct Hend as [[code' Heq']|[Hx _]].
      * rewrite Heq' in Hrun. injection Hrun as <- <-. cbn [trace].
        rewrite acquired_app, released_app, Hrel, Hacq, acquired_teardown, released_teardown.
        by rewrite app_nil_r.
      * rewrite Hrun in Hx. discriminate.
  - rewrite run_main_signalled_run in Hrun. cbv zeta in Hrun. injection Hrun as _ <-.
    cbn [trace].
    destruct (run_main_phases E fuel argv0 opts)
      as (evs & tail & n & -> & _ & _ & Hrel & Hn & Hacq & Htail).
    rewrite take_app.
    destruct (omap_take acquire_call evs k) as [ma Hma].
    destruct (omap_take release_call evs k) as [mr Hmr].
    fold (acquired (take k evs)) (acquired evs) in Hma.
    fold (released (take k evs)) (released evs) in Hmr.
    rewrite Hacq, take_take in Hma. rewrite Hrel, take_nil in Hmr.
    assert (Htl : exists j, acquired (take (k - length evs) tail) = [] /\
                            released (take (k - length evs) tail) = take j release_order).
    { destruct Htail as [->| ->].
      - exists 0%nat. by rewrite take_nil.
      - destruct (released_take_teardown (ao_open_live_res E) None (k - length evs))
          as (j & _ & Hj).
        exists j. split; [apply acquired_take_teardown|done]. }
    destruct Htl as (j & Hta & Htr).
    match goal with |- context [passes ?d None _] =>
      destruct (released_passes d None (sigs.*1)) as (js & Hjs & Hpass);
      pose proof (acquired_passes d None (sigs.*1)) as Hapass
    end.
    right. exists (ma `min` n)%nat, (j :: js).
    split; [lia|]. split; [done|]. split; [cbn; rewrite Hjs, length_fmap; lia|].
    rewrite !acquired_app, !released_app, Hma, Hmr, Hta, Htr, Hpass, Hapass,
      acquired_teardown, released_teardown.
    split; [by rewrite !app_nil_r|].
    cbn [mbind list_bind app]. by rewrite <- app_assoc.
Qed.

Lemma C5_acquisition_and_release_order_witness :
  let st := outcome_state
              (run_main_signalled (env_end_of_stream 1) 2 "mpxgen" [option_of "C" "/tmp/ctl"]
                 [(30%nat, 15); (3%nat, 2)]) in
  (acquired (trace st) = [] /\ released (trace st) = []) \/
  (exists n ks,
     (n <= 4)%nat /\ length ks = 2%nat /\
     acquired (trace st) = take n [Sink; ConverterState; BasebandSource; ControlChannel] /\
     released (trace st)
     = (ks ≫= (fun k => take k [BasebandSource; ControlChannel; Sink; ConverterState]))
       ++ [BasebandSource; ControlChannel; Sink; ConverterState]).
Proof.
  destruct (C5_acquisition_and_release_order (env_end_of_stream 1) 2 "mpxgen"
              [option_of "C" "/tmp/ctl"] [(30%nat, 15); (3%nat, 2)] 2
              (outcome_state
                 (run_main_signalled (env_end_of_stream 1) 2 "mpxgen"
                    [option_of "C" "/tmp/ctl"] [(30%nat, 15); (3%nat, 2)])))
    as [(Hs & _)|(n & ks & Hn & _ & Hks & Ha & Hr)].
  - vm_compute. reflexivity.
  - vm_compute. reflexivity.
  - discriminate.
  - right. exists n, ks. by repeat split.
Defined.

(** ** C8: the control pipe cannot be opened *)

Lemma after_get_samples_emits E iter st mpx rb db :
  emits (loop_event_of None) (after_get_samples E iter st mpx rb db).
Proof.
  unfold after_get_samples.
  destruct (_ <? 0); [apply emits_ret|].
  apply emits_bind; [by apply emits_emit|intros _].
  destruct (src_process_res E iter) as [err frames].
  destruct (negb _).
  { apply emits_bind; [by apply emits_emit|intros _; apply emits_ret]. }
  destruct (store_frames _ _); [|apply emits_undefined].
  destruct (postprocess _ _ _ _) as [[rb2 db2]|]; [|apply emits_undefined].
  apply emits_bind; [apply emits_get_device|intros d].
  apply emits_bind; [by apply emits_emit|intros _].
  destruct (_ =? 0); [|apply emits_ret].
  apply emits_bind; [by apply emits_emit|intros _; apply emits_ret].
Qed.

Lemma loop_body_get_samples E iter cp st rds wait mpx rb db s :
  loop_body E iter cp st rds wait mpx rb db s =
  after_get_samples E iter st mpx rb db
    (add_events (poll_events cp ++ [FmMpxGetSamples mpx_data rds_data rds wait]) s).
Proof.
  unfold loop_body. rewrite bind_run, poll_run. cbv beta iota.
  rewrite bind_run, emit_run. cbv beta iota. rewrite add_events_app. reflexivity.
Qed.

(** A run loop that polls no pipe and is given fuel requests a block. *)
Lemma run_loop_requests_block E fuel st rds wait mpx rb db s :
  (0 < fuel)%nat ->
  exit_code (run_loop E fuel 0 None st rds wait mpx rb db s) = None /\
  exists evs,
    Forall (loop_event_of None) evs /\
    outcome_state (run_loop E fuel 0 None st rds wait mpx rb db s)
    = add_events (FmMpxGetSamples mpx_data rds_data rds wait :: evs) s.
Proof.
  intros Hfuel. destruct fuel as [|fuel]; [lia|]. cbn [run_loop].
  assert (Hk : emits (loop_event_of None)
            (after_get_samples E 0 st mpx rb db ≫= fun r =>
               match r with
               | None => mret tt
               | Some (rb', db') => run_loop E fuel 1 None st rds wait mpx rb' db'
               end)).
  { apply emits_bind; [apply after_get_samples_emits|].
    intros [[rb' db']|]; [apply run_loop_emits|apply emits_ret]. }
  destruct (Hk (add_events [FmMpxGetSamples mpx_data rds_data rds wait] s))
    as [Hx (evs & Hevs & Hs)].
  rewrite bind_run in Hx, Hs.
  rewrite bind_run, loop_body_get_samples. cbn [poll_events app].
  split; [exact Hx|]. exists evs. split; [done|]. by rewrite Hs, add_events_app.
Qed.

(** C8: when a control pipe is named and [open_control_pipe] fails,
    start-up goes on: the failure is printed, the run loop is entered and
    requests a block, the pipe is never polled, and when source,
    converter and sink do their part in the first iteration the formatted
    block is played. *)
Theorem C8_control_pipe_failure_not_fatal E fuel argv0 opts l path :
  parse_options argv0 opts initial_locals initial_state = Returned l initial_state ->
  control_pipe l = Some path ->
  startup_ok E ->
  open_control_pipe_res E <> 0 ->
  (0 < fuel)%nat ->
  let tr := trace (outcome_state (run_main E fuel argv0 opts)) in
  In (Printf ("Failed to open control pipe: %s." ++ nl) [ArgStr path]) tr /\
  ~ In PollControlPipe tr /\
  In (FmMpxGetSamples mpx_data rds_data (rds l) (wait l)) tr /\
  (iteration_ok E (mpx l) 0 ->
   exists vs,
     mapM (convert (mpx l)) (src_process_res E 0).2 = Some vs /\
     In (AoPlay (ao_open_live_res E) (stereo vs)
           (Z.of_nat (length (src_process_res E 0).2) * 4)) tr).
Proof.
  intros Hp Hcp Hstart Hopen Hfuel tr.
  destruct (parse_options_ok _ _ _ _ Hp) as [_ Hl].
  destruct (main_generate_started E fuel l Hl Hstart) as (st & rds_evs & Hst & Hrds & Hgen).
  assert (Hpolled : polled_pipe E (control_pipe l) = None).
  { rewrite Hcp. cbn. by rewrite (proj2 (Z.eqb_neq _ _) Hopen). }
  rewrite Hpolled in Hgen.
  set (s0 := {| device := ao_open_live_res E; src_state := None;
                trace := startup_events E l rds_evs |}) in *.
  destruct (run_loop_requests_block E fuel st (rds l) (wait l) (mpx l)
              fresh_resample_out fresh_dev_out s0 Hfuel) as [Hx (evs & Hevs & Hs)].
  (* the trace of the whole run: start-up, the loop, and the teardown
     when the loop was left *)
  assert (Htr : exists tail,
    (tail = [] \/ tail = teardown (ao_open_live_res E) None) /\
    tr = startup_events E l rds_evs
         ++ (FmMpxGetSamples mpx_data rds_data (rds l) (wait l) :: evs) ++ tail).
  { subst tr. rewrite (run_main_parsed _ _ _ _ _ Hp), bind_run, Hgen, bind_run.
    destruct (run_loop E fuel 0 None st (rds l) (wait l) (mpx l)
                fresh_resample_out fresh_dev_out s0) as [[] s1|c s1|s1|s1];
      cbn in Hx, Hs; try discriminate; subst s1.
    - exists (teardown (ao_open_live_res E) None). split; [by right|].
      cbv beta iota. rewrite ret_run. cbv beta iota. rewrite terminate_run.
      cbn [outcome_state add_events trace device src_state].
      subst s0. cbn [trace device src_state]. by rewrite <- app_assoc.
    - exists []. split; [by left|]. cbn [outcome_state add_events trace].
      subst s0. cbn [trace]. by rewrite app_nil_r.
    - exists []. split; [by left|]. cbn [outcome_state add_events trace].
      subst s0. cbn [trace]. by rewrite app_nil_r. }
  destruct Htr as (tail & Htail & Htr).
  assert (Hfailed : In (Printf ("Failed to open control pipe: %s." ++ nl) [ArgStr path])
                       (startup_events E l rds_evs)).
  { unfold startup_events. rewrite Hcp. cbn [control_pipe_events].
    rewrite (proj2 (Z.eqb_neq _ _) Hopen).
    rewrite !in_app_iff. do 4 right. right. by left. }
  split; [rewrite Htr, in_app_iff; by left|].
  split.
  { enough (Hall : Forall (fun e => e <> PollControlPipe) tr).
    { intros Hin. rewrite Forall_forall in Hall. apply list_elem_of_In in Hin.
      by apply (Hall _ Hin). }
    rewrite Htr. unfold startup_events. rewrite Hcp. cbn [control_pipe_events].
    repeat (apply Forall_app; split);
      lazymatch goal with
      | |- Forall _ rds_evs =>
          eapply Forall_impl; [exact Hrds|]; intros e (_ & _ & He) ->; discriminate
      | |- Forall _ (_ :: evs) =>
          constructor; [discriminate|]; eapply Forall_impl; [exact Hevs|];
          intros e [_ He]; by apply He
      | |- Forall _ tail =>
          destruct Htail as [-> | ->]; repeat constructor; discriminate
      | |- _ => repeat constructor; try discriminate; by destruct (_ =? 0)
      end. }
  split; [rewrite Htr, !in_app_iff; right; left; by left|].
  intros Hok. exact (run_main_plays_block E fuel argv0 opts l Hp Hstart Hfuel Hok).
Qed.

Lemma C8_control_pipe_failure_not_fatal_witness :
  let tr := trace (outcome_state
              (run_main (env_no_control_pipe 1) 2 "mpxgen" [option_of "C" "/tmp/ctl"])) in
  In (Printf ("Failed to open control pipe: %s." ++ nl) [ArgStr "/tmp/ctl"]) tr /\
  ~ In PollControlPipe tr /\
  In (FmMpxGetSamples mpx_data rds_data 1 0) tr /\
  (iteration_ok (env_no_control_pipe 1) (f32_of_int 10) 0 ->
   exists vs,
     mapM (convert (f32_of_int 10)) two_frames = Some vs /\
     In (AoPlay (Some 1%positive) (stereo vs) 8) tr).
Proof.
  apply (C8_control_pipe_failure_not_fatal (env_no_control_pipe 1) 2 "mpxgen"
           [option_of "C" "/tmp/ctl"]
           (set_control_pipe (Some "/tmp/ctl"%string) initial_locals) "/tmp/ctl"%string).
  - reflexivity.
  - reflexivity.
  - repeat split; cbn; try (by eexists); lia.
  - cbn; lia.
  - lia.
Defined.

(** ** C6: alternative frequencies *)

Lemma parse_options_app argv0 a b l s :
  parse_options argv0 (a ++ b) l s
  = (parse_options argv0 a l ≫= parse_options argv0 b) s.
Proof.
  revert l s; induction a as [|o a IH]; intros l s; [reflexivity|].
  cbn [app]. rewrite bind_run, !parse_options_cons.
  destruct (Ascii.eqb _ _); [reflexivity|].
  rewrite !bind_run. destruct (handle_option argv0 o l s); try reflexivity.
  rewrite IH, bind_run. reflexivity.
Qed.

(** Two answers of [getopt_long] that the [switch] treats alike can be
    exchanged in any command line. *)
Lemma run_main_exchange E fuel argv0 pre o1 o2 post :
  opt o1 = opt o2 -> opt o1 <> "?"%char ->
  (forall l s, handle_option argv0 o1 l s = handle_option argv0 o2 l s) ->
  run_main E fuel argv0 (pre ++ o1 :: post) = run_main E fuel argv0 (pre ++ o2 :: post).
Proof.
  intros Hopt Hq Heq. unfold run_main, main. rewrite !bind_run, !parse_options_app, !bind_run.
  destruct (parse_options argv0 pre initial_locals initial_state); try reflexivity.
  rewrite !parse_options_cons, <- Hopt.
  destruct (Ascii.eqb_spec (opt o1) "?"); [done|].
  rewrite !bind_run, Heq. reflexivity.
Qed.






(** ** C9: arguments that are not numbers *)

Lemma read_digits_count base s : forall acc cnt,
  (cnt <= (read_digits base s acc cnt).1.2)%nat.
Proof.
  induction s as [|c s IH]; intros acc cnt; cbn; [lia|].
  destruct (digit_in base c); cbn; [|lia].
  specialize (IH (base * acc + z) (S cnt)). lia.
Qed.

Lemma read_digits_none base s acc :
  (read_digits base s acc 0).1.2 = 0%nat -> (read_digits base s acc 0).1.1 = acc.
Proof.
  destruct s as [|c s]; cbn; [done|].
  destruct (digit_in base c); cbn; [|done].
  pose proof (read_digits_count base s (base * acc + z) 1). lia.
Qed.

Lemma atoi_no_number s : no_number s -> atoi s = Some 0.
Proof.
  unfold no_number, atoi. destruct (read_sign (skip_space s)) as [neg s1]. cbn [snd].
  intros H. apply read_digits_none in H.
  destruct (read_digits 10 s1 0 0) as [[v cnt] rest]. cbn in H. subst v.
  by destruct neg.
Qed.

(** C9, as stated, fails: the gain ["abc"] is taken as 0 and the run
    streams a block (of silence) and ends with code 0. *)
Lemma C9_counterexample :
  exists st,
    run_main (env_end_of_stream 1) 2 "mpxgen" [option_of "m" "abc"] = Exited 0 st /\
    In (AoPlay (Some 1%positive) [0; 0; 0; 0] 8) (trace st).
Proof.
  eexists. split; [vm_compute; reflexivity|].
  repeat (first [left; reflexivity | right]).
Qed.

(** C9 (amended): an argument of [--mpx] or [--preemph] that does not
    begin with a number is not reported: [atoi] yields 0 for it, and the
    run is the one that the argument ["0"] gives. *)
Theorem C9_malformed_number_is_zero E fuel argv0 pre s post :
  no_number s ->
  atoi s = Some 0 /\
  run_main E fuel argv0 (pre ++ option_of "m" s :: post)
  = run_main E fuel argv0 (pre ++ option_of "m" "0" :: post) /\
  (s <> "eu"%string -> s <> "us"%string ->
   run_main E fuel argv0 (pre ++ option_of "P" s :: post)
   = run_main E fuel argv0 (pre ++ option_of "P" "0" :: post)).
Proof.
  intros Hs. pose proof (atoi_no_number s Hs) as Ha.
  split; [done|]. split.
  - apply run_main_exchange; [done|done|]. intros l st.
    unfold handle_option. cbn [opt optarg option_of].
    rewrite !bind_run, !atoi_optarg_run, Ha. reflexivity.
  - intros Heu Hus. apply run_main_exchange; [done|done|]. intros l st.
    unfold handle_option. cbn [opt optarg option_of].
    rewrite (proj2 (String.eqb_neq _ _)) by congruence.
    rewrite (proj2 (String.eqb_neq _ _)) by congruence.
    rewrite !bind_run, !atoi_optarg_run, Ha. reflexivity.
Qed.

Lemma C9_malformed_number_is_zero_witness :
  atoi "abc" = Some 0 /\
  run_main (env_end_of_stream 1) 2 "mpxgen" ([] ++ option_of "m" "abc" :: [])
  = run_main (env_end_of_stream 1) 2 "mpxgen" ([] ++ option_of "m" "0" :: []) /\
  ("abc" <> "eu" -> "abc" <> "us" ->
   run_main (env_end_of_stream 1) 2 "mpxgen" ([] ++ option_of "P" "abc" :: [])
   = run_main (env_end_of_stream 1) 2 "mpxgen" ([] ++ option_of "P" "0" :: []))%string.
Proof.
  apply (C9_malformed_number_is_zero (env_end_of_stream 1) 2 "mpxgen" [] "abc" []).
  reflexivity.
Defined.

(** ** C10: the default gain *)

Lemma handle_option_mpx argv0 o l s l' s' :
  opt o <> "m"%char ->
  handle_option argv0 o l s = Returned l' s' -> mpx l' = mpx l.
Proof.
  intros Ho. unfold handle_option.
  destruct (opt o) as [[] [] [] [] [] [] [] []]; try done;
    rewrite ?fatal_run, ?ret_run, ?bind_run, ?atoi_optarg_run;
    try (destruct (atoi _); [rewrite ret_run|]);
    try (intros [= <- <-]; reflexivity); try done.
  - destruct (af_code _) as [c|]; [|done].
    case_bool_decide; [|done].
    destruct (_ || _); [by rewrite fatal_run|]. by intros [= <- <-].
  - destruct (String.eqb _ _); [by intros [= <- <-]|].
    destruct (String.eqb _ _); [by intros [= <- <-]|].
    rewrite bind_run, atoi_optarg_run. destruct (atoi _); [|done].
    by intros [= <- <-].
Qed.

Lemma parse_options_mpx argv0 opts : forall l s l' s',
  Forall (fun o => opt o <> "m"%char) opts ->
  parse_options argv0 opts l s = Returned l' s' -> mpx l' = mpx l.
Proof.
  induction opts as [|o opts IH]; intros l s l' s' Hall.
  - by intros [= <- <-].
  - apply Forall_cons in Hall as [Ho Hall]. rewrite parse_options_cons.
    destruct (Ascii.eqb _ _); [done|]. rewrite bind_run.
    destruct (handle_option argv0 o l s) as [l1 s1| | |] eqn:H1; try done.
    intros H2. rewrite (IH _ _ _ _ Hall H2). by eapply handle_option_mpx.
Qed.

(** ** C7: the Format Stage *)

Lemma bounded_normal m e :
  bounded 24 128 m e = true -> -149 < e -> Zdigits2 (Zpos m) = 24.
Proof.
  intros Hb He. apply bounded_elim in Hb as [Hc _]. unfold fexp, emin in Hc. lia.
Qed.

Lemma bounded_digits m e :
  bounded 24 128 m e = true -> Zdigits2 (Zpos m) <= 24 /\ -149 <= e <= 104.
Proof.
  intros Hb. apply bounded_elim in Hb as [Hc He]. unfold fexp, emin in Hc. lia.
Qed.

(** Doubling the gain doubles the gain factor. *)
Lemma gain_factor_double sg mg eg :
  bounded 24 128 mg eg = true ->
  eg + 1 <= 104 ->
  clear_of_underflow (gain_factor (S754_finite sg mg eg)) ->
  gain_factor (f32_double (S754_finite sg mg eg))
  = f32_double (gain_factor (S754_finite sg mg eg)) /\
  emin 24 128 + 24 <= Zdigits2 (Zpos mg) + eg /\
  forall s m e, gain_factor (S754_finite sg mg eg) = S754_finite s m e -> e + 1 <= 104.
Proof.
  intros Hb Heg Hk. unfold gain_factor in *. rewrite f32_of_int_100 in *.
  unfold f32_hundred, f32_div in *.
  destruct (SFdiv 24 128 (S754_finite sg mg eg) (S754_finite false 13107200 (-17)))
    as [| | |sk mk ek] eqn:Hdiv; try done. cbn [clear_of_underflow] in Hk.
  pose proof (SFdiv_normal_range 24 128 ltac:(lia) _ _ _ _ _ _ _ _ _ Hdiv) as Hn.
  pose proof (SFdiv_exponent_le 24 128 ltac:(lia) _ _ _ _ _ _ _ _ _ Hdiv) as Hle.
  change (Zdigits2 (Zpos 13107200)) with 24 in *.
  destruct (bounded_digits _ _ Hb) as [Hd He].
  unfold fexp, emin in *. specialize (Hn ltac:(lia)).
  split; [|split; [lia|]].
  - unfold f32_double. rewrite <- Hdiv. apply SFdiv_double; [lia|lia|].
    change (Zdigits2 (Zpos 13107200)) with 24. unfold emin. lia.
  - intros s m e [= _ _ <-]. lia.
Qed.

(** Doubling the gain doubles the value of a sample before truncation,
    unless a result leaves the range of the normal numbers. *)
Lemma sample_value_double x g :
  f32_valid x -> f32_valid g ->
  is_finite (f32_mul f32_two g) = true ->
  clear_of_underflow (gain_factor g) ->
  clear_of_underflow (sample_value x g) ->
  sample_value x (f32_mul f32_two g) = f32_mul f32_two (sample_value x g).
Proof.
  intros Hx Hg Hfin Hk Hy.
  destruct g as [sg|sg| |sg mg eg]; try done.
  assert (Hb : bounded 24 128 mg eg = true) by exact Hg.
  assert (Hnormal : emin 24 128 + 24 <= Zdigits2 (Zpos mg) + eg).
  { unfold gain_factor in Hk. rewrite f32_of_int_100 in Hk. unfold f32_div, f32_hundred in Hk.
    destruct (SFdiv 24 128 (S754_finite sg mg eg) (S754_finite false 13107200 (-17)))
      as [| | |sk mk ek] eqn:Hdiv; try done. cbn [clear_of_underflow] in Hk.
    pose proof (SFdiv_normal_range 24 128 ltac:(lia) _ _ _ _ _ _ _ _ _ Hdiv) as Hn.
    change (Zdigits2 (Zpos 13107200)) with 24 in Hn. unfold emin in *. lia. }
  rewrite f32_mul_two in * by (try done; intros ? ? ? [= <- <- <-]; exact Hnormal).
  assert (Heg : eg + 1 <= 104).
  { unfold f32_double, SFdouble in Hfin.
    destruct (eg + 1 <=? 128 - 24) eqn:Hle; [lia|done]. }
  destruct (gain_factor_double sg mg eg Hb Heg Hk) as (Hgd & _ & Hek).
  unfold sample_value at 1. rewrite Hgd.
  pose proof (scale_sample_valid x Hx) as Hs.
  pose proof (gain_factor_valid _ Hg) as Hkv.
  unfold sample_value in *.
  destruct (gain_factor (S754_finite sg mg eg)) as [| | |sk mk ek] eqn:Hkeq; try done.
  specialize (Hek sk mk ek eq_refl).
  destruct (scale_sample x) as [ss|ss| |ss ms es] eqn:Hseq; try done.
  assert (Hprod : f32_mul (S754_finite ss ms es) (f32_double (S754_finite sk mk ek))
                  = f32_double (f32_mul (S754_finite ss ms es) (S754_finite sk mk ek))).
  { unfold f32_mul, f32_double in *.
    destruct (SFmul 24 128 (S754_finite ss ms es) (S754_finite sk mk ek))
      as [| | |sy my ey] eqn:Hmul; try done. cbn [clear_of_underflow] in Hy.
    rewrite <- Hmul. apply SFmul_double; [lia|lia|].
    eapply (SFmul_normal_range 24 128); [lia|lia|exact Hs|exact Hkv|exact Hmul|].
    unfold emin. lia. }
  rewrite Hprod. symmetry. apply f32_mul_two.
  - by apply f32_mul_valid.
  - intros sy my ey Heq. rewrite Heq in Hy. cbn [clear_of_underflow] in Hy.
    assert (Hyv : f32_valid (S754_finite sy my ey))
      by (rewrite <- Heq; by apply f32_mul_valid).
    pose proof (bounded_normal my ey Hyv ltac:(lia)). unfold emin. lia.
Qed.

(** Silence stays silence at every finite gain. *)
Lemma sample_value_zero s g :
  f32_valid g -> is_finite g = true ->
  exists s', sample_value (S754_zero s) g = S754_zero s'.
Proof.
  intros Hg Hfin. unfold sample_value.
  assert (Hs : scale_sample (S754_zero s) = S754_zero s) by (by destruct s).
  rewrite Hs.
  assert (Hk : is_finite (gain_factor g) = true).
  { destruct g as [sg|sg| |sg mg eg]; try done.
    unfold gain_factor. rewrite f32_of_int_100. unfold f32_div, f32_hundred.
    apply SFdiv_finite; [lia|].
    change (Zdigits2 (Zpos 13107200)) with 24.
    destruct (bounded_digits _ _ Hg). unfold fexp, emin. lia. }
  destruct (gain_factor g) as [sk|sk| |sk mk ek]; try done; by eexists.
Qed.

Lemma convert_zero s g :
  f32_valid g -> is_finite g = true -> convert g (S754_zero s) = Some 0.
Proof.
  intros Hg Hfin. unfold convert.
  destruct (sample_value_zero s g Hg Hfin) as [s' ->]. reflexivity.
Qed.

(** C7: for a block of samples that all have a 16-bit value, and whose
    frames the [int] index into [outbuf] can count, [postprocess] runs
    to its end and stores the value of each sample in both channel slots
    of its frame; doubling the gain doubles the value
    of a sample before truncation, as long as the doubled gain is finite
    and neither the gain factor nor the value is near the subnormal
    range; and a sample of 0.0 gives 0 at every finite gain (negative
    gains included). *)
Theorem C7_format_stage :
  (forall volume xs rest out vs,
     mapM (convert volume) xs = Some vs ->
     (2 * length xs <= length out)%nat ->
     2 * Z.of_nat (length xs) <= INT_MAX ->
     exists inbuf' outbuf',
       postprocess (xs ++ rest) out (length xs) volume = Some (inbuf', outbuf') /\
       forall i x, xs !! i = Some x ->
         exists v, convert volume x = Some v /\
           outbuf' !! (2 * i)%nat = Some v /\ outbuf' !! (2 * i + 1)%nat = Some v) /\
  (forall x g,
     f32_valid x -> f32_valid g ->
     is_finite (f32_mul f32_two g) = true ->
     clear_of_underflow (gain_factor g) ->
     clear_of_underflow (sample_value x g) ->
     sample_value x (f32_mul f32_two g) = f32_mul f32_two (sample_value x g)) /\
  (forall s g,
     f32_valid g -> is_finite g = true ->
     convert g (S754_zero s) = Some 0).
Proof.
  split; [|split; [apply sample_value_double|apply convert_zero]].
  intros volume xs rest out vs Hvs Hout Hint.
  eexists _, _. split; [by apply postprocess_frames|].
  intros i x Hx.
  pose proof Hvs as Hall. rewrite mapM_Some in Hall.
  destruct (Forall2_lookup_l _ _ _ _ _ Hall Hx) as (v & Hv & Hc).
  exists v. split; [done|].
  destruct (stereo_lookup vs i v Hv) as [H0 H1].
  split; apply lookup_app_l_Some; done.
Qed.

Lemma C7_format_stage_witness :
  (exists inbuf' outbuf',
     postprocess (two_frames ++ []) [7; 7; 7; 7; 7] 2 (f32_of_int 10)
     = Some (inbuf', outbuf') /\
     forall i x, two_frames !! i = Some x ->
       exists v, convert (f32_of_int 10) x = Some v /\
         outbuf' !! (2 * i)%nat = Some v /\ outbuf' !! (2 * i + 1)%nat = Some v) /\
  sample_value (f32_of_int 5) (f32_mul f32_two (f32_of_int 10))
  = f32_mul f32_two (sample_value (f32_of_int 5) (f32_of_int 10)) /\
  convert (f32_of_int 10) (S754_zero false) = Some 0.
Proof.
  destruct C7_format_stage as (Ha & Hb & Hc).
  split; [|split].
  - apply (Ha (f32_of_int 10) two_frames [] [7; 7; 7; 7; 7] [0; 1638]).
    + reflexivity.
    + cbn. lia.
    + cbn. unfold INT_MAX. lia.
  - apply (Hb (f32_of_int 5) (f32_of_int 10)).
    + reflexivity.
    + reflexivity.
    + reflexivity.
    + by vm_compute.
    + by vm_compute.
  - apply (Hc false (f32_of_int 10)); reflexivity.
Defined.

(** C10: without an option [m] the gain that [main] passes on is 10;
    the gain factor is then 10/100 in [float], the [float] nearest to
    0.1, while at gain 100 it is exactly 1: the value of every sample
    before truncation is the one at gain 100 times that tenth. The block
    that reaches the sink in the first iteration is formatted with the
    gain 10. *)
Theorem C10_default_gain argv0 opts l :
  Forall (fun o => opt o <> "m"%char) opts ->
  parse_options argv0 opts initial_locals initial_state = Returned l initial_state ->
  mpx l = f32_of_int 10 /\
  gain_factor (mpx l) = f32_div (f32_of_int 10) (f32_of_int 100) /\
  gain_factor (mpx l) = f32_tenth /\
  gain_factor (f32_of_int 100) = f32_one /\
  (forall x, f32_valid x ->
     sample_value x (f32_of_int 100) = scale_sample x /\
     sample_value x (mpx l) = f32_mul (sample_value x (f32_of_int 100)) f32_tenth) /\
  (forall E fuel,
     startup_ok E -> (0 < fuel)%nat -> iteration_ok E (f32_of_int 10) 0 ->
     exists vs,
       mapM (convert (f32_of_int 10)) (src_process_res E 0).2 = Some vs /\
       In (AoPlay (ao_open_live_res E) (stereo vs)
             (Z.of_nat (length (src_process_res E 0).2) * 4))
          (trace (outcome_state (run_main E fuel argv0 opts)))).
Proof.
  intros Hopts Hp.
  assert (Hmpx : mpx l = f32_of_int 10) by (by rewrite (parse_options_mpx _ _ _ _ _ _ Hopts Hp)).
  split; [done|]. split; [by rewrite Hmpx|]. split; [by rewrite Hmpx|]. split; [done|].
  split.
  - intros x Hx. rewrite Hmpx.
    assert (H100 : sample_value x (f32_of_int 100) = scale_sample x).
    { unfold sample_value. rewrite gain_factor_100.
      apply f32_mul_one_r. by apply scale_sample_valid. }
    split; [done|]. rewrite H100. unfold sample_value. by rewrite gain_factor_10.
  - intros E fuel Hstart Hfuel Hok. rewrite <- Hmpx in *.
    exact (run_main_plays_block E fuel argv0 opts l Hp Hstart Hfuel Hok).
Qed.

Lemma C10_default_gain_witness :
  mpx (set_audio_file (Some "in.wav"%string) initial_locals) = f32_of_int 10 /\
  gain_factor (mpx (set_audio_file (Some "in.wav"%string) initial_locals))
  = f32_div (f32_of_int 10) (f32_of_int 100) /\
  gain_factor (mpx (set_audio_file (Some "in.wav"%string) initial_locals)) = f32_tenth /\
  gain_factor (f32_of_int 100) = f32_one /\
  (forall x, f32_valid x ->
     sample_value x (f32_of_int 100) = scale_sample x /\
     sample_value x (mpx (set_audio_file (Some "in.wav"%string) initial_locals))
     = f32_mul (sample_value x (f32_of_int 100)) f32_tenth) /\
  (forall E fuel,
     startup_ok E -> (0 < fuel)%nat -> iteration_ok E (f32_of_int 10) 0 ->
     exists vs,
       mapM (convert (f32_of_int 10)) (src_process_res E 0).2 = Some vs /\
       In (AoPlay (ao_open_live_res E) (stereo vs)
             (Z.of_nat (length (src_process_res E 0).2) * 4))
          (trace (outcome_state (run_main E fuel "mpxgen" [option_of "a" "in.wav"])))).
Proof.
  apply (C10_default_gain "mpxgen" [option_of "a" "in.wav"]
           (set_audio_file (Some "in.wav"%string) initial_locals)).
  - repeat constructor. discriminate.
  - reflexivity.
Defined.

(** * Further properties *)

(** ** The sample formatter *)

Lemma postprocess_loop_is_Some volume n : forall i j inbuf outbuf,
  is_Some (postprocess_loop n i j inbuf outbuf volume) <->
  (n = 0%nat \/
   ((i + n <= length inbuf)%nat /\ (j + 2 * n <= length outbuf)%nat /\
    Z.of_nat j + 2 * Z.of_nat n <= INT_MAX)) /\
  Forall (fun x => is_Some (convert volume x)) (take n (drop i inbuf)).
Proof.
  induction n as [|n IH]; intros i j inbuf outbuf; cbn [postprocess_loop].
  - split; [intros _|by eexists]. split; [by left|]. by rewrite take_0.
  - destruct (inbuf !! i) as [x|] eqn:Hx.
    2:{ apply lookup_ge_None in Hx. split; [by intros [? ?]|]. intros ([?|(? & ? & ?)] & _); lia. }
    pose proof (lookup_lt_Some _ _ _ Hx) as Hi.
    rewrite (drop_S _ _ _ Hx). cbn [take].
    fold (convert volume x).
    destruct (convert volume x) as [v|] eqn:Hv.
    2:{ split; [by intros [? ?]|]. intros (_ & Hall).
        apply Forall_cons in Hall as [[? ?] _]. congruence. }
    case_bool_decide as Hj.
    2:{ split; [by intros [? ?]|]. intros ([?|(? & ? & ?)] & _); lia. }
    case_bool_decide as Hjmax.
    2:{ split; [by intros [? ?]|]. intros ([?|(? & ? & ?)] & _); lia. }
    rewrite IH, !length_insert, drop_insert_lt by lia.
    split.
    + intros (Hout & Hall). split; [right; lia|].
      constructor; [by eexists|done].
    + intros (Hout & Hall). apply Forall_cons in Hall as [_ Hall].
      split; [|done]. destruct n; [by left|right; lia].
Qed.

Lemma postprocess_is_Some inbuf outbuf n volume :
  is_Some (postprocess inbuf outbuf n volume) <->
  2 * Z.of_nat n <= INT_MAX /\
  (n <= length inbuf)%nat /\
  (n = 0%nat \/ 2 * n <= length outbuf)%nat /\
  Forall (fun x => is_Some (convert volume x)) (take n inbuf).
Proof.
  unfold postprocess. case_bool_decide as Hn.
  - rewrite postprocess_loop_is_Some. cbn [drop]. intuition lia.
  - split; [by intros [? ?]|]. intros (? & _); lia.
Qed.

Lemma postprocess_Some inbuf outbuf n volume inbuf' outbuf' :
  postprocess inbuf outbuf n volume = Some (inbuf', outbuf') ->
  exists vs,
    mapM (convert volume) (take n inbuf) = Some vs /\
    inbuf' = map (fun x => sample_value x volume) (take n inbuf) ++ drop n inbuf /\
    outbuf' = stereo vs ++ drop (2 * n) outbuf /\
    length inbuf' = length inbuf /\ length outbuf' = length outbuf.
Proof.
  intros Hpost.
  assert (Hsome : is_Some (postprocess inbuf outbuf n volume)) by (by eexists).
  apply postprocess_is_Some in Hsome as (Hint & Hin & Hout & Hall).
  assert (Hvs : is_Some (mapM (convert volume) (take n inbuf))) by (by apply mapM_is_Some).
  destruct Hvs as [vs Hvs]. exists vs. split; [done|].
  assert (Hlen : length (take n inbuf) = n) by (rewrite length_take; lia).
  pose proof (postprocess_frames volume (take n inbuf) (drop n inbuf) outbuf vs Hvs) as Hf.
  rewrite Hlen, take_drop in Hf. rewrite Hf in Hpost by (destruct Hout; lia).
  injection Hpost as <- <-.
  split; [done|]. split; [done|].
  rewrite !length_app, length_map, !length_drop, Hlen, length_stereo.
  apply length_mapM in Hvs. rewrite Hlen in Hvs. split; [lia|]. destruct Hout; lia.
Qed.

(** X1: [postprocess] has undefined behaviour exactly when twice the
    count does not fit the [int] index [j], when the count exceeds what
    [inbuf] holds, when [outbuf] has no room for two values per sample,
    or when one of the samples has a value that does not fit a [short]:
    the conversion is not checked and nothing is clipped. *)
Theorem X1_postprocess_undefined inbuf outbuf n volume :
  postprocess inbuf outbuf n volume = None <->
  INT_MAX < 2 * Z.of_nat n \/
  (length inbuf < n)%nat \/
  (0 < n /\ length outbuf < 2 * n)%nat \/
  Exists (fun x => convert volume x = None) (take n inbuf).
Proof.
  pose proof (postprocess_is_Some inbuf outbuf n volume) as Hiff.
  split.
  - intros Hnone.
    destruct (Z_lt_dec INT_MAX (2 * Z.of_nat n)) as [?|Hint]; [by left|].
    destruct (decide (length inbuf < n)%nat) as [?|Hin]; [by right; left|].
    destruct (decide (0 < n /\ length outbuf < 2 * n)%nat) as [?|Hout]; [by right; right; left|].
    right; right; right.
    destruct (decide (Exists (fun x => convert volume x = None) (take n inbuf)))
      as [?|Hex]; [done|].
    exfalso. assert (Hsome : is_Some (postprocess inbuf outbuf n volume)).
    { apply Hiff. split; [lia|]. split; [lia|]. split; [lia|].
      apply not_Exists_Forall in Hex; [|apply _].
      eapply Forall_impl; [exact Hex|]. intros x Hx. cbn in Hx.
      destruct (convert volume x); [by eexists|done]. }
    rewrite Hnone in Hsome. by destruct Hsome.
  - intros Hbad. destruct (postprocess inbuf outbuf n volume) as [r|] eqn:Hp; [|done].
    exfalso. destruct Hiff as [Hiff _].
    destruct (Hiff ltac:(by eexists)) as (Hint & Hin & Hout & Hall).
    destruct Hbad as [?|[?|[?|Hex]]]; [lia|lia|lia|].
    apply Exists_exists in Hex as (x & Hx & Hnone).
    rewrite Forall_forall in Hall. destruct (Hall x Hx) as [v Hv]. congruence.
Qed.

(** X2: when [postprocess] returns, the first [n] elements of [inbuf]
    have been overwritten with their scaled values, each frame of
    [outbuf] holds the 16-bit value of its sample in both slots, and
    nothing else has changed: the rest of [inbuf], and [outbuf] from
    index [2 n] on, are as before. *)
Theorem X2_postprocess_writes inbuf outbuf n volume inbuf' outbuf' :
  postprocess inbuf outbuf n volume = Some (inbuf', outbuf') ->
  length inbuf' = length inbuf /\ length outbuf' = length outbuf /\
  (forall i, (i < n)%nat ->
     exists x v,
       inbuf !! i = Some x /\ convert volume x = Some v /\
       inbuf' !! i = Some (sample_value x volume) /\
       outbuf' !! (2 * i)%nat = Some v /\ outbuf' !! (2 * i + 1)%nat = Some v) /\
  (forall i, (n <= i)%nat -> inbuf' !! i = inbuf !! i) /\
  (forall j, (2 * n <= j)%nat -> outbuf' !! j = outbuf !! j).
Proof.
  intros Hpost.
  assert (Hsome : is_Some (postprocess inbuf outbuf n volume)) by (by eexists).
  apply postprocess_is_Some in Hsome as (_ & Hin & Hout & _).
  apply postprocess_Some in Hpost as (vs & Hvs & -> & -> & Hli & Hlo).
  assert (Hlen : length (take n inbuf) = n) by (rewrite length_take; lia).
  pose proof (length_mapM _ _ _ Hvs) as Hlvs. rewrite Hlen in Hlvs.
  split; [done|]. split; [done|]. split; [|split].
  - intros i Hi.
    destruct (lookup_lt_is_Some_2 inbuf i) as [x Hx]; [lia|].
    assert (Hxt : take n inbuf !! i = Some x) by (by rewrite lookup_take_lt).
    pose proof Hvs as Hall. rewrite mapM_Some in Hall.
    destruct (Forall2_lookup_l _ _ _ _ _ Hall Hxt) as (v & Hv & Hc).
    exists x, v. split; [done|]. split; [done|].
    destruct (stereo_lookup vs i v Hv) as [H0 H1].
    split; [|split].
    + rewrite lookup_app_l by (rewrite length_map; lia).
      by rewrite list_lookup_fmap, Hxt.
    + by apply lookup_app_l_Some.
    + by apply lookup_app_l_Some.
  - intros i Hi. rewrite lookup_app_r by (rewrite length_map; lia).
    rewrite length_map, Hlen, lookup_drop. f_equal. lia.
  - intros j Hj. rewrite lookup_app_r by (rewrite length_stereo; lia).
    rewrite length_stereo, lookup_drop. f_equal. lia.
Qed.

Lemma X2_postprocess_writes_witness :
  let inbuf := two_frames in
  let outbuf := [7; 7; 7; 7; 7] in
  let volume := f32_of_int 10 in
  let inbuf' := map (fun x => sample_value x volume) two_frames in
  let outbuf' := [0; 0; 1638; 1638; 7] in
  length inbuf' = length inbuf /\ length outbuf' = length outbuf /\
  (forall i, (i < 2)%nat ->
     exists x v,
       inbuf !! i = Some x /\ convert volume x = Some v /\
       inbuf' !! i = Some (sample_value x volume) /\
       outbuf' !! (2 * i)%nat = Some v /\ outbuf' !! (2 * i + 1)%nat = Some v) /\
  (forall i, (2 <= i)%nat -> inbuf' !! i = inbuf !! i) /\
  (forall j, (2 * 2 <= j)%nat -> outbuf' !! j = outbuf !! j).
Proof.
  apply (X2_postprocess_writes two_frames [7; 7; 7; 7; 7] 2 (f32_of_int 10)
           (map (fun x => sample_value x (f32_of_int 10)) two_frames) [0; 0; 1638; 1638; 7]).
  vm_compute. reflexivity.
Defined.

(** ** Runs of [main], call by call *)

Lemma print_af_run af : forall n f s,
  (f + n <= length af)%nat ->
  print_af n f af s =
  Returned tt
    (add_events
       (map (fun a => Printf "%f Mhz "
                        [ArgFloat (f32_div (f32_of_int (a + 875)) (f32_of_int 10))])
            (take n (drop f af))) s).
Proof.
  induction n as [|n IH]; intros f s Hlen; cbn [print_af].
  - rewrite take_0. cbn. by rewrite add_events_nil.
  - destruct (lookup_lt_is_Some_2 af f) as [a Ha]; [lia|]. rewrite Ha.
    rewrite bind_run, emit_run. cbv beta iota. rewrite IH by lia.
    rewrite add_events_app, (drop_S _ _ _ Ha). reflexivity.
Qed.

(** With the array that [main] passes, printing the RDS options makes
    exactly these calls. *)
Lemma print_rds_options_run rds pi ps rt pty l s :
  locals_ok l ->
  print_rds_options rds pi ps rt (af_array l) pty s
  = Returned tt (add_events (rds_option_events rds pi ps rt (af_array l) pty) s).
Proof.
  intros [Hlen Hsz]. unfold print_rds_options, rds_option_events, af_events, af_array.
  rewrite bind_run, emit_run. cbv beta iota.
  destruct (rds =? 0).
  { rewrite emit_run, add_events_app. reflexivity. }
  rewrite bind_run, emit_run. cbv beta iota.
  rewrite bind_run, emit_run. cbv beta iota.
  rewrite list_lookup_insert_eq by lia.
  destruct (af_size l =? 0).
  { rewrite ret_run, !add_events_app. reflexivity. }
  rewrite bind_run, emit_run. cbv beta iota.
  rewrite bind_run, emit_run. cbv beta iota.
  rewrite bind_run, print_af_run by (rewrite length_insert; lia). cbv beta iota.
  rewrite emit_run, !add_events_app. reflexivity.
Qed.

Lemma af_events_silent af : Forall silent (af_events af).
Proof.
  unfold af_events. destruct (af !! 0%nat) as [af0|]; [|constructor].
  destruct (af0 =? 0); [constructor|].
  constructor; [by repeat split|]. constructor; [by repeat split|].
  apply Forall_app. split; [|by repeat constructor].
  apply Forall_forall. intros e He.
  apply list_elem_of_fmap in He as (a & -> & _). by repeat split.
Qed.

Lemma rds_option_events_silent rds pi ps rt af pty :
  Forall silent (rds_option_events rds pi ps rt af pty).
Proof.
  unfold rds_option_events. constructor; [by repeat split|].
  destruct (rds =? 0); [by repeat constructor|].
  constructor; [by repeat split|]. constructor; [by repeat split|]. apply af_events_silent.
Qed.

(** After a successful start-up [generate_mpx] is in its loop, and these
    are the calls made so far. *)
Lemma main_generate_in_loop E fuel l :
  locals_ok l -> startup_ok E ->
  exists st,
    src_new_res E = Some st /\
    main_generate E fuel l initial_state =
    (run_loop E fuel 0 (polled_pipe E (control_pipe l)) st (rds l) (wait l) (mpx l)
       fresh_resample_out fresh_dev_out ;; mret 0)
      {| device := ao_open_live_res E; src_state := None; trace := startup_trace E l |}.
Proof.
  intros Hl ([dev Hdev] & [st Hst] & Hsrc).
  unfold main_generate. rewrite generate_mpx_unfold, Hdev, Hst.
  assert ((fm_mpx_open_res E <? 0) = false) as -> by lia.
  rewrite bind_run. fold (af_array l).
  rewrite (print_rds_options_run _ _ _ _ _ _ _ Hl). cbv beta iota.
  rewrite bind_run, init_control_pipe_run. cbv beta iota.
  exists st. split; [done|].
  f_equal. unfold sink_opened, add_events, startup_trace, startup_events;
    cbn [device src_state trace].
  rewrite Hdev. cbn [initial_state src_state trace app].
  rewrite <- !app_assoc. reflexivity.
Qed.

Lemma startup_trace_silent E l :
  Forall (fun e => is_streaming e = false) (startup_trace E l) /\
  released (startup_trace E l) = [].
Proof.
  pose proof (rds_option_events_silent (rds l) (pi l) (ps l) (rt l) (af_array l) (pty l)) as Hr.
  unfold startup_trace, startup_events. split.
  - repeat (apply Forall_app; split); try by repeat constructor.
    + eapply Forall_impl; [exact Hr|]. by intros e (_ & _ & ?).
    + destruct (control_pipe l); [|constructor]. cbn. repeat constructor. by destruct (_ =? 0).
  - by rewrite !released_app, released_open_sink, released_control_pipe, (silent_released _ Hr).
Qed.

Lemma formatted_Some E mpx i vs :
  formatted E mpx i = Some vs <->
  Z.of_nat (length (src_process_res E i).2) <= DATA_SIZE /\
  mapM (convert mpx) (src_process_res E i).2 = Some vs.
Proof.
  unfold formatted. case_bool_decide; [tauto|]. split; [done|]. intros [? _]; lia.
Qed.

Lemma frames_ok_formatted E mpx i :
  frames_ok mpx (src_process_res E i).2 <-> is_Some (formatted E mpx i).
Proof.
  unfold frames_ok, is_Some. split.
  - intros [Hlen [vs Hvs]]. exists vs. by apply formatted_Some.
  - intros [vs Hvs]. apply formatted_Some in Hvs as [? ?]. split; [done|by exists vs].
Qed.

(** Every iteration runs to its end, leaves the loop, or overruns. *)
Lemma iteration_cases E mpx i :
  iteration_ok E mpx i \/ streaming_fatal E mpx i \/ overrun E mpx i.
Proof.
  destruct (Z.ltb_spec (fm_mpx_get_samples_res E i) 0) as [Hget|Hget].
  { right; left. by apply source_fails. }
  destruct (Z.eq_dec (src_process_res E i).1 0) as [Herr|Herr].
  2:{ right; left. by apply conversion_fails. }
  destruct (formatted E mpx i) as [vs|] eqn:Hf.
  2:{ right; right. split; [done|split; done]. }
  assert (Hok : frames_ok mpx (src_process_res E i).2)
    by (apply frames_ok_formatted; by eexists).
  destruct (Z.eq_dec (ao_play_res E i) 0) as [Hplay|Hplay].
  - right; left. by apply sink_fails.
  - left. split; [done|split; [done|split; done]].
Qed.

Lemma iteration_ok_not_fatal E mpx i :
  iteration_ok E mpx i -> ~ streaming_fatal E mpx i /\ ~ overrun E mpx i.
Proof.
  intros (Hget & Herr & Hok & Hplay). split.
  - intros [?|? ?|? ? ? ?]; [lia|done|done].
  - intros (_ & _ & Hf). apply frames_ok_formatted in Hok as [? ?]. congruence.
Qed.

Lemma iteration_events_ok E cp st rds wait mpx d i :
  iteration_ok E mpx i ->
  exists vs,
    formatted E mpx i = Some vs /\
    iteration_events E cp st rds wait mpx d i =
    poll_events cp ++
    [ FmMpxGetSamples mpx_data rds_data rds wait;
      SrcProcess st src_data;
      AoPlay d (stereo vs) (Z.of_nat (length (src_process_res E i).2) * 4) ].
Proof.
  intros (Hget & Herr & Hok & Hplay).
  apply frames_ok_formatted in Hok as [vs Hvs]. exists vs. split; [done|].
  unfold iteration_events. rewrite Hvs, Herr.
  assert ((fm_mpx_get_samples_res E i <? 0) = false) as -> by lia.
  assert ((ao_play_res E i =? 0) = false) as -> by lia.
  reflexivity.
Qed.

Lemma loop_body_events E i cp st rds wait mpx rb db s :
  buffers_ok rb db ->
  let s' := add_events (iteration_events E cp st rds wait mpx (device s) i) s in
  (iteration_ok E mpx i /\
   exists rb' db', buffers_ok rb' db' /\
     loop_body E i cp st rds wait mpx rb db s = Returned (Some (rb', db')) s')
  \/ (streaming_fatal E mpx i /\ loop_body E i cp st rds wait mpx rb db s = Returned None s')
  \/ (overrun E mpx i /\ loop_body E i cp st rds wait mpx rb db s = Undefined s').
Proof.
  intros Hb. cbv zeta. unfold iteration_events.
  destruct (Z.ltb_spec (fm_mpx_get_samples_res E i) 0) as [Hget|Hget].
  { right; left. split; [by apply source_fails|].
    unfold loop_body. assert (Hget' : (fm_mpx_get_samples_res E i <? 0) = true) by lia.
    rewrite bind_run, poll_run. step_M. rewrite Hget'. step_M. reflexivity. }
  assert (Hget' : (fm_mpx_get_samples_res E i <? 0) = false) by lia.
  destruct (src_process_res E i) as [err frames] eqn:Hres. cbn [fst snd].
  destruct (Z.eq_dec err 0) as [->|Herr].
  2:{ right; left. split; [apply conversion_fails; rewrite ?Hres; done|].
      assert (Herr' : negb (err =? 0) = true) by (apply negb_true_iff; lia).
      rewrite Herr'. unfold loop_body.
      rewrite bind_run, poll_run. step_M. rewrite Hget'. step_M. rewrite Hres. step_M.
      rewrite Herr'. step_M. rewrite <- ?app_assoc. reflexivity. }
  change (negb (0 =? 0)) with false. cbv iota.
  destruct (formatted E mpx i) as [vs|] eqn:Hf.
  - apply formatted_Some in Hf as [Hlen Hvs]. rewrite Hres in Hlen, Hvs. cbn [snd] in *.
    destruct (loop_body_formats E i cp st rds wait mpx rb db s frames vs Hb Hget Hres Hlen Hvs)
      as (rb' & db' & Hb' & Heq).
    assert (Hok : frames_ok mpx (src_process_res E i).2)
      by (rewrite Hres; split; [done|by eexists]).
    destruct (Z.eq_dec (ao_play_res E i) 0) as [Hplay|Hplay].
    + right; left. split; [apply sink_fails; rewrite ?Hres; done|].
      rewrite Heq, Hplay. reflexivity.
    + left. split; [split; [done|split; [by rewrite Hres|split; done]]|].
      exists rb', db'. split; [done|]. rewrite Heq.
      by rewrite (proj2 (Z.eqb_neq _ _) Hplay).
  - right; right. split; [split; [done|]; split; [by rewrite Hres|done]|].
    unfold formatted in Hf. rewrite Hres in Hf. cbn [snd] in Hf.
    destruct Hb as [Hrb Hdb]. unfold loop_body.
    rewrite bind_run, poll_run. step_M. rewrite Hget'. step_M. rewrite Hres. step_M.
    change (negb (0 =? 0)) with false. step_M.
    unfold store_frames.
    destruct (decide (length frames <= length rb)%nat) as [Hlen|Hlen].
    2:{ rewrite (bool_decide_false _ Hlen). rewrite <- ?app_assoc. reflexivity. }
    rewrite (bool_decide_true _ Hlen). unfold DATA_SIZE in *.
    rewrite bool_decide_true in Hf by lia.
    destruct (postprocess _ _ _ _) as [[rb2 db2]|] eqn:Hpost;
      [|rewrite <- ?app_assoc; reflexivity].
    apply postprocess_Some in Hpost as (vs & Hvs & _).
    rewrite take_app_length in Hvs. congruence.
Qed.

Lemma fatal_not_overrun E mpx i : streaming_fatal E mpx i -> ~ overrun E mpx i.
Proof.
  intros [?|? ?|? ? Hok ?] (? & ? & Hf); [lia|done|].
  apply frames_ok_formatted in Hok as [? ?]. congruence.
Qed.

Lemma loop_body_ok_events E i cp st rds wait mpx rb db s :
  buffers_ok rb db -> iteration_ok E mpx i ->
  exists rb' db', buffers_ok rb' db' /\
    loop_body E i cp st rds wait mpx rb db s =
    Returned (Some (rb', db'))
      (add_events (iteration_events E cp st rds wait mpx (device s) i) s).
Proof.
  intros Hb Hok. destruct (iteration_ok_not_fatal _ _ _ Hok) as [Hf Ho].
  destruct (loop_body_events E i cp st rds wait mpx rb db s Hb) as [[_ H]|[[? _]|[? _]]]; done.
Qed.

Lemma loop_body_fatal_events E i cp st rds wait mpx rb db s :
  buffers_ok rb db -> streaming_fatal E mpx i ->
  loop_body E i cp st rds wait mpx rb db s =
  Returned None (add_events (iteration_events E cp st rds wait mpx (device s) i) s).
Proof.
  intros Hb Hf.
  destruct (loop_body_events E i cp st rds wait mpx rb db s Hb) as [[Hok _]|[[_ H]|[Ho _]]].
  - by destruct (iteration_ok_not_fatal _ _ _ Hok).
  - done.
  - by destruct (fatal_not_overrun _ _ _ Hf).
Qed.

Lemma loop_body_overrun_events E i cp st rds wait mpx rb db s :
  buffers_ok rb db -> overrun E mpx i ->
  loop_body E i cp st rds wait mpx rb db s =
  Undefined (add_events (iteration_events E cp st rds wait mpx (device s) i) s).
Proof.
  intros Hb Ho.
  destruct (loop_body_events E i cp st rds wait mpx rb db s Hb) as [[Hok _]|[[Hf _]|[_ H]]].
  - by destruct (iteration_ok_not_fatal _ _ _ Hok).
  - by destruct (fatal_not_overrun _ _ _ Hf).
  - done.
Qed.

Lemma loop_events_0 E cp st rds wait mpx d i : loop_events E cp st rds wait mpx d i 0 = [].
Proof. reflexivity. Qed.

Lemma loop_events_S E cp st rds wait mpx d i n :
  loop_events E cp st rds wait mpx d i (S n)
  = iteration_events E cp st rds wait mpx d i ++ loop_events E cp st rds wait mpx d (S i) n.
Proof. reflexivity. Qed.

Lemma loop_events_snoc E cp st rds wait mpx d i n :
  loop_events E cp st rds wait mpx d i (S n)
  = loop_events E cp st rds wait mpx d i n ++ iteration_events E cp st rds wait mpx d (i + n).
Proof.
  unfold loop_events. rewrite seq_S, bind_app. cbn. by rewrite app_nil_r.
Qed.

(** The run loop after [n] iterations that run to their end: out of fuel,
    left through [break], or undefined. *)
Lemma run_loop_events E cp st rds wait mpx n : forall fuel i rb db s,
  buffers_ok rb db ->
  (forall j, (j < n)%nat -> iteration_ok E mpx (i + j)) ->
  (n = fuel ->
   run_loop E fuel i cp st rds wait mpx rb db s
   = OutOfFuel (add_events (loop_events E cp st rds wait mpx (device s) i n) s)) /\
  ((n < fuel)%nat -> streaming_fatal E mpx (i + n) ->
   run_loop E fuel i cp st rds wait mpx rb db s
   = Returned tt (add_events (loop_events E cp st rds wait mpx (device s) i (S n)) s)) /\
  ((n < fuel)%nat -> overrun E mpx (i + n) ->
   run_loop E fuel i cp st rds wait mpx rb db s
   = Undefined (add_events (loop_events E cp st rds wait mpx (device s) i (S n)) s)).
Proof.
  induction n as [|n IH]; intros fuel i rb db s Hb Hok.
  - rewrite Nat.add_0_r. split; [|split].
    + intros <-. cbn. by rewrite add_events_nil.
    + intros Hfuel Hf. destruct fuel as [|fuel]; [lia|]. cbn [run_loop].
      rewrite bind_run, (loop_body_fatal_events _ _ _ _ _ _ _ _ _ _ Hb Hf).
      rewrite loop_events_S, loop_events_0, app_nil_r. reflexivity.
    + intros Hfuel Ho. destruct fuel as [|fuel]; [lia|]. cbn [run_loop].
      rewrite bind_run, (loop_body_overrun_events _ _ _ _ _ _ _ _ _ _ Hb Ho).
      rewrite loop_events_S, loop_events_0, app_nil_r. reflexivity.
  - assert (Hi : iteration_ok E mpx i) by (rewrite <- (Nat.add_0_r i); apply Hok; lia).
    destruct (loop_body_ok_events E i cp st rds wait mpx rb db s Hb Hi)
      as (rb' & db' & Hb' & Heq).
    set (s1 := add_events (iteration_events E cp st rds wait mpx (device s) i) s) in *.
    assert (Hok' : forall j, (j < n)%nat -> iteration_ok E mpx (S i + j)).
    { intros j Hj. replace (S i + j)%nat with (i + S j)%nat by lia. apply Hok. lia. }
    replace (i + S n)%nat with (S i + n)%nat by lia.
    split; [|split].
    + intros <-. cbn [run_loop]. rewrite bind_run, Heq. cbv beta iota.
      destruct (IH n (S i) rb' db' s1 Hb' Hok') as (Ho & _).
      rewrite (Ho eq_refl). subst s1. rewrite add_events_app. reflexivity.
    + intros Hfuel Hf. destruct fuel as [|fuel]; [lia|]. cbn [run_loop].
      rewrite bind_run, Heq. cbv beta iota.
      destruct (IH fuel (S i) rb' db' s1 Hb' Hok') as (_ & Hf' & _).
      rewrite (Hf' ltac:(lia) Hf). subst s1. rewrite add_events_app. reflexivity.
    + intros Hfuel Hf. destruct fuel as [|fuel]; [lia|]. cbn [run_loop].
      rewrite bind_run, Heq. cbv beta iota.
      destruct (IH fuel (S i) rb' db' s1 Hb' Hok') as (_ & _ & Hu).
      rewrite (Hu ltac:(lia) Hf). subst s1. rewrite add_events_app. reflexivity.
Qed.

(** The first iteration, if any, that does not run to its end. *)
Lemma first_failure E mpx fuel :
  (forall j, (j < fuel)%nat -> iteration_ok E mpx j) \/
  exists n, (n < fuel)%nat /\ (forall j, (j < n)%nat -> iteration_ok E mpx j) /\
            (streaming_fatal E mpx n \/ overrun E mpx n).
Proof.
  induction fuel as [|fuel IH].
  - left. intros j Hj. lia.
  - destruct IH as [Hall|(n & Hn & Hok & Hend)].
    + destruct (iteration_cases E mpx fuel) as [Hok|Hend].
      * left. intros j Hj. destruct (decide (j = fuel)) as [->|]; [done|]. apply Hall. lia.
      * right. exists fuel. split; [lia|]. split; [exact Hall|exact Hend].
    + right. exists n. split; [lia|]. split; [exact Hok|exact Hend].
Qed.

(** Runs that get through start-up. *)
Lemma run_main_streaming E fuel argv0 opts l n :
  parse_options argv0 opts initial_locals initial_state = Returned l initial_state ->
  startup_ok E ->
  (forall j, (j < n)%nat -> iteration_ok E (mpx l) j) ->
  exists st,
    src_new_res E = Some st /\
    let evs k := startup_trace E l ++
                 loop_events E (polled_pipe E (control_pipe l)) st (rds l) (wait l) (mpx l)
                   (ao_open_live_res E) 0 k in
    (n = fuel ->
     run_main E fuel argv0 opts
     = OutOfFuel {| device := ao_open_live_res E; src_state := None; trace := evs n |}) /\
    ((n < fuel)%nat -> streaming_fatal E (mpx l) n ->
     run_main E fuel argv0 opts
     = Exited 0 {| device := ao_open_live_res E; src_state := None;
                   trace := evs (S n) ++ teardown (ao_open_live_res E) None |}) /\
    ((n < fuel)%nat -> overrun E (mpx l) n ->
     run_main E fuel argv0 opts
     = Undefined {| device := ao_open_live_res E; src_state := None; trace := evs (S n) |}).
Proof.
  intros Hp Hstart Hok.
  destruct (parse_options_ok _ _ _ _ Hp) as [_ Hl].
  destruct (main_generate_in_loop E fuel l Hl Hstart) as (st & Hst & Hgen).
  exists st. split; [done|]. cbv zeta.
  rewrite (run_main_parsed _ _ _ _ _ Hp), bind_run, Hgen, bind_run.
  destruct (run_loop_events E (polled_pipe E (control_pipe l)) st (rds l) (wait l) (mpx l) n
              fuel 0%nat fresh_resample_out fresh_dev_out
              {| device := ao_open_live_res E; src_state := None;
                 trace := startup_trace E l |} fresh_buffers_ok Hok)
    as (Ho & Hf & Hu).
  cbn [device] in *.
  split; [|split].
  - intros Hn. rewrite (Ho Hn). reflexivity.
  - intros Hn Hfatal. rewrite (Hf Hn Hfatal). cbv beta iota.
    rewrite ret_run. cbv beta iota. rewrite terminate_run.
    unfold add_events; cbn [device src_state trace]. by rewrite <- !app_assoc.
  - intros Hn Hover. rewrite (Hu Hn Hover). reflexivity.
Qed.

Lemma played_app a b : played (a ++ b) = played a ++ played b.
Proof. apply omap_app. Qed.

Lemma calls_app f a b : calls f (a ++ b) = (calls f a + calls f b)%nat.
Proof. unfold calls. by rewrite List.filter_app, length_app. Qed.

Lemma quiet_played evs : Forall (fun e => is_streaming e = false) evs -> played evs = [].
Proof.
  induction 1 as [|e evs He _ IH]; [done|].
  unfold played in *; cbn. rewrite IH. by destruct e.
Qed.

Lemma quiet_calls f evs :
  (forall e, f e = true -> is_streaming e = true) ->
  Forall (fun e => is_streaming e = false) evs -> calls f evs = 0%nat.
Proof.
  intros Hf. induction 1 as [|e evs He _ IH]; [done|].
  unfold calls in *; cbn. destruct (f e) eqn:Hfe; [|done].
  apply Hf in Hfe. congruence.
Qed.

Lemma teardown_quiet d st : Forall (fun e => is_streaming e = false) (teardown d st).
Proof. by repeat constructor. Qed.

Lemma played_teardown d st : played (teardown d st) = [].
Proof. reflexivity. Qed.

Lemma calls_teardown f d st :
  (forall e, f e = true -> is_streaming e = true) -> calls f (teardown d st) = 0%nat.
Proof. intros Hf. apply quiet_calls; [done|apply teardown_quiet]. Qed.

Lemma iteration_events_loop E cp st rds wait mpx d i :
  Forall (loop_event_of cp) (iteration_events E cp st rds wait mpx d i).
Proof.
  unfold iteration_events. apply Forall_app. split; [by destruct cp; repeat constructor|].
  constructor; [done|].
  destruct (_ <? 0); [constructor|]. constructor; [done|].
  destruct (negb _); [by repeat constructor|].
  destruct (formatted E mpx i); [|constructor]. constructor; [done|].
  destruct (_ =? 0); by repeat constructor.
Qed.

Lemma loop_events_loop E cp st rds wait mpx d n : forall i,
  Forall (loop_event_of cp) (loop_events E cp st rds wait mpx d i n).
Proof.
  induction n as [|n IH]; intros i; [constructor|].
  rewrite loop_events_S. apply Forall_app. split; [apply iteration_events_loop|apply IH].
Qed.

Lemma played_iteration E cp st rds wait mpx d i :
  played (iteration_events E cp st rds wait mpx d i) = last_block E mpx i.
Proof.
  unfold iteration_events, last_block, block. rewrite played_app.
  assert (played (poll_events cp) = []) as -> by (by destruct cp).
  cbn. destruct (_ <? 0); [done|]. cbn.
  destruct (negb _); [done|]. cbn.
  destruct (formatted E mpx i); [|done]. cbn. by destruct (_ =? 0).
Qed.

Lemma played_loop E cp st rds wait mpx d n : forall i,
  played (loop_events E cp st rds wait mpx d i n) = seq i n ≫= last_block E mpx.
Proof.
  induction n as [|n IH]; intros i; [done|].
  rewrite loop_events_S, played_app, played_iteration, IH. reflexivity.
Qed.

Lemma last_block_ok E mpx i :
  iteration_ok E mpx i -> exists b, block E mpx i = Some b /\ last_block E mpx i = [b].
Proof.
  intros (Hget & Herr & Hok & _). apply frames_ok_formatted in Hok as [vs Hvs].
  exists (stereo vs). unfold last_block, block. rewrite Hvs, Herr.
  assert ((fm_mpx_get_samples_res E i <? 0) = false) as -> by lia. done.
Qed.

Lemma blocks_ok E mpx n : forall i,
  (forall j, (j < n)%nat -> iteration_ok E mpx (i + j)) ->
  exists bs, mapM (block E mpx) (seq i n) = Some bs /\ seq i n ≫= last_block E mpx = bs.
Proof.
  induction n as [|n IH]; intros i Hok; [by exists []|].
  destruct (last_block_ok E mpx i) as (b & Hb & Hl).
  { rewrite <- (Nat.add_0_r i). apply Hok. lia. }
  destruct (IH (S i)) as (bs & Hbs & Hls).
  { intros j Hj. replace (S i + j)%nat with (i + S j)%nat by lia. apply Hok. lia. }
  exists (b :: bs). cbn [seq]. split.
  - cbn. rewrite Hb. cbn. by rewrite Hbs.
  - cbn. by rewrite Hl, Hls.
Qed.

Lemma calls_get_iteration E cp st rds wait mpx d i :
  calls is_get_samples (iteration_events E cp st rds wait mpx d i) = 1%nat.
Proof.
  unfold iteration_events. rewrite calls_app.
  assert (calls is_get_samples (poll_events cp) = 0%nat) as -> by (by destruct cp).
  unfold calls. cbn. destruct (_ <? 0); [done|]. cbn.
  destruct (negb _); [done|]. destruct (formatted E mpx i); [|done]. cbn.
  by destruct (_ =? 0).
Qed.

Lemma calls_get_loop E cp st rds wait mpx d n : forall i,
  calls is_get_samples (loop_events E cp st rds wait mpx d i n) = n.
Proof.
  induction n as [|n IH]; intros i; [done|].
  by rewrite loop_events_S, calls_app, calls_get_iteration, IH.
Qed.

Lemma released_loop E cp st rds wait mpx d i n :
  released (loop_events E cp st rds wait mpx d i n) = [].
Proof. eapply loop_events_of_released, loop_events_loop. Qed.

(** X3: when the first [n] iterations run to their end and iteration [n]
    meets a streaming-fatal condition, the sink has been handed the
    blocks of the iterations 0 to [n - 1], each once and in order, and
    the block of iteration [n] when it is the sink that fails; the source
    was asked [n + 1] times; the process exits with code 0. *)
Theorem X3_stream_until_break E fuel argv0 opts l n :
  parse_options argv0 opts initial_locals initial_state = Returned l initial_state ->
  startup_ok E ->
  (forall j, (j < n)%nat -> iteration_ok E (mpx l) j) ->
  streaming_fatal E (mpx l) n ->
  (n < fuel)%nat ->
  exists s bs,
    run_main E fuel argv0 opts = Exited 0 s /\
    mapM (block E (mpx l)) (seq 0 n) = Some bs /\
    played (trace s) = bs ++ last_block E (mpx l) n /\
    calls is_get_samples (trace s) = S n.
Proof.
  intros Hp Hstart Hok Hfatal Hfuel.
  destruct (run_main_streaming E fuel argv0 opts l n Hp Hstart Hok)
    as (st & Hst & _ & Hrun & _).
  destruct (blocks_ok E (mpx l) n 0%nat Hok) as (bs & Hbs & Hpl).
  eexists _, bs. split; [exact (Hrun Hfuel Hfatal)|]. split; [done|].
  cbn [trace]. cbv beta zeta.
  destruct (startup_trace_silent E l) as [Hq Hrs].
  split.
  - rewrite 2!played_app, (quiet_played _ Hq), (played_teardown (ao_open_live_res E) None).
    rewrite played_loop, app_nil_r. cbn [app].
    rewrite seq_S, bind_app, Hpl. cbn. by rewrite app_nil_r.
  - assert (Hs : forall e, is_get_samples e = true -> is_streaming e = true) by (by intros []).
    rewrite 2!calls_app, (quiet_calls _ _ Hs Hq), calls_get_loop.
    rewrite (calls_teardown _ (ao_open_live_res E) None Hs). lia.
Qed.

Lemma X3_stream_until_break_witness :
  exists s bs,
    run_main (env_sink_fails 1) 2 "mpxgen" [] = Exited 0 s /\
    mapM (block (env_sink_fails 1) (f32_of_int 10)) (seq 0 1) = Some bs /\
    played (trace s) = bs ++ last_block (env_sink_fails 1) (f32_of_int 10) 1 /\
    calls is_get_samples (trace s) = 2%nat.
Proof.
  apply (X3_stream_until_break (env_sink_fails 1) 2 "mpxgen" [] initial_locals 1).
  - reflexivity.
  - repeat split; cbn; try (by eexists); lia.
  - intros j Hj. assert (j = 0%nat) as -> by lia.
    repeat split; cbn; try lia; try apply two_frames_ok.
  - apply sink_fails; cbn; try lia; try reflexivity. apply two_frames_ok.
  - lia.
Defined.

(** X4: as long as source, converter and sink succeed the loop goes on: with
    fuel for [fuel] iterations the run is still in the loop, [fuel]
    blocks have been played, and nothing has been released. *)
Theorem X4_stream_goes_on E fuel argv0 opts l :
  parse_options argv0 opts initial_locals initial_state = Returned l initial_state ->
  startup_ok E ->
  (forall j, (j < fuel)%nat -> iteration_ok E (mpx l) j) ->
  exists s,
    run_main E fuel argv0 opts = OutOfFuel s /\
    mapM (block E (mpx l)) (seq 0 fuel) = Some (played (trace s)) /\
    released (trace s) = [].
Proof.
  intros Hp Hstart Hok.
  destruct (run_main_streaming E fuel argv0 opts l fuel Hp Hstart Hok)
    as (st & Hst & Hrun & _).
  destruct (blocks_ok E (mpx l) fuel 0%nat Hok) as (bs & Hbs & Hpl).
  eexists. split; [exact (Hrun eq_refl)|]. cbn [trace]. cbv beta zeta.
  destruct (startup_trace_silent E l) as [Hq Hrs].
  split.
  - by rewrite played_app, (quiet_played _ Hq), played_loop, Hpl.
  - by rewrite released_app, Hrs, released_loop.
Qed.

Lemma X4_stream_goes_on_witness :
  exists s,
    run_main (env_ok two_frames) 3 "mpxgen" [] = OutOfFuel s /\
    mapM (block (env_ok two_frames) (f32_of_int 10)) (seq 0 3) = Some (played (trace s)) /\
    released (trace s) = [].
Proof.
  apply (X4_stream_goes_on (env_ok two_frames) 3 "mpxgen" [] initial_locals).
  - reflexivity.
  - repeat split; cbn; try (by eexists); lia.
  - intros j _. repeat split; cbn; try lia; try apply two_frames_ok.
Defined.

(** X5: when the converter delivers more frames than [resample_out] holds, or
    a sample whose value does not fit a [short], the behaviour is
    undefined from there on: the blocks before have been played, this
    one has not, and [terminate] has not run. *)
Theorem X5_overrun_is_undefined E fuel argv0 opts l n :
  parse_options argv0 opts initial_locals initial_state = Returned l initial_state ->
  startup_ok E ->
  (forall j, (j < n)%nat -> iteration_ok E (mpx l) j) ->
  overrun E (mpx l) n ->
  (n < fuel)%nat ->
  exists s,
    run_main E fuel argv0 opts = Undefined s /\
    mapM (block E (mpx l)) (seq 0 n) = Some (played (trace s)) /\
    released (trace s) = [].
Proof.
  intros Hp Hstart Hok Hover Hfuel.
  destruct (run_main_streaming E fuel argv0 opts l n Hp Hstart Hok)
    as (st & Hst & _ & _ & Hrun).
  destruct (blocks_ok E (mpx l) n 0%nat Hok) as (bs & Hbs & Hpl).
  eexists. split; [exact (Hrun Hfuel Hover)|]. cbn [trace]. cbv beta zeta.
  destruct (startup_trace_silent E l) as [Hq Hrs].
  split.
  - rewrite played_app, (quiet_played _ Hq), played_loop. cbn [app].
    rewrite seq_S, bind_app, Hpl. cbn.
    assert (last_block E (mpx l) n = []) as ->.
    { destruct Hover as (Hget & Herr & Hf). unfold last_block, block. rewrite Hf.
      by destruct (_ || _). }
    by rewrite !app_nil_r.
  - by rewrite released_app, Hrs, released_loop.
Qed.

Lemma X5_overrun_is_undefined_witness :
  let E := env_ok (replicate 4097 (S754_zero false)) in
  exists s,
    run_main E 1 "mpxgen" [] = Undefined s /\
    mapM (block E (f32_of_int 10)) (seq 0 0) = Some (played (trace s)) /\
    released (trace s) = [].
Proof.
  apply (X5_overrun_is_undefined (env_ok (replicate 4097 (S754_zero false))) 1 "mpxgen" []
           initial_locals 0).
  - reflexivity.
  - repeat split; cbn; try (by eexists); lia.
  - intros j Hj. lia.
  - split; [cbn; lia|]. split; [reflexivity|]. vm_compute. reflexivity.
  - lia.
Defined.

Lemma startup_cases E : startup_ok E \/ startup_failure E.
Proof.
  unfold startup_ok, startup_failure.
  destruct (ao_open_live_res E); [|by right; left].
  destruct (src_new_res E); [|by right; right; left].
  destruct (Z.ltb_spec (fm_mpx_open_res E) 0); [by right; right; right|].
  left. split; [by eexists|]. split; [by eexists|done].
Qed.

Lemma run_main_startup_failure E fuel argv0 opts l :
  parse_options argv0 opts initial_locals initial_state = Returned l initial_state ->
  startup_failure E ->
  exists evs,
    Forall (fun e => is_streaming e = false) evs /\ released evs = [] /\
    run_main E fuel argv0 opts =
      Exited 1
        {| device := ao_open_live_res E; src_state := None;
           trace := evs ++ teardown (ao_open_live_res E) None |}.
Proof.
  intros Hp Hfail.
  rewrite (run_main_parsed _ _ _ _ _ Hp), bind_run.
  unfold main_generate. rewrite generate_mpx_unfold.
  assert (Hsink : Forall (fun e => is_streaming e = false) (open_sink_events E))
    by (repeat constructor).
  destruct (ao_open_live_res E) as [dev|] eqn:Hdev.
  2:{ cbv beta iota. rewrite terminate_run. unfold sink_opened. rewrite Hdev.
      eexists. split; [|split; [|reflexivity]]; [|done].
      apply Forall_app; split; [done|by repeat constructor]. }
  destruct (src_new_res E) as [cst|] eqn:Hcst.
  2:{ cbv beta iota. rewrite terminate_run. unfold sink_opened. rewrite Hdev.
      eexists. split; [|split; [|reflexivity]]; [|done].
      apply Forall_app; split; [done|by repeat constructor]. }
  destruct (fm_mpx_open_res E <? 0) eqn:Hsrc.
  2:{ destruct Hfail as [?|[?|?]]; [congruence|congruence|lia]. }
  cbv beta iota. rewrite terminate_run. unfold sink_opened. rewrite Hdev.
  eexists. split; [|split; [|reflexivity]]; [|done].
  apply Forall_app; split; [done|by repeat constructor].
Qed.

(** The ways a run of [main] can go. *)
Lemma run_main_cases E fuel argv0 opts :
  (exists evs,
     rejection evs /\
     run_main E fuel argv0 opts = Exited 1 (add_events evs initial_state))
  \/ run_main E fuel argv0 opts = Undefined initial_state
  \/ exists l,
       parse_options argv0 opts initial_locals initial_state = Returned l initial_state /\
       ((exists evs,
           startup_failure E /\
           Forall (fun e => is_streaming e = false) evs /\ released evs = [] /\
           run_main E fuel argv0 opts =
             Exited 1
               {| device := ao_open_live_res E; src_state := None;
                  trace := evs ++ teardown (ao_open_live_res E) None |})
        \/ (exists st n,
              startup_ok E /\ src_new_res E = Some st /\
              (forall j, (j < n)%nat -> iteration_ok E (mpx l) j) /\
              let body k :=
                startup_trace E l ++
                loop_events E (polled_pipe E (control_pipe l)) st (rds l) (wait l) (mpx l)
                  (ao_open_live_res E) 0 k in
              (n = fuel /\
               run_main E fuel argv0 opts =
                 OutOfFuel {| device := ao_open_live_res E; src_state := None;
                              trace := body n |})
              \/ ((n < fuel)%nat /\ streaming_fatal E (mpx l) n /\
                  run_main E fuel argv0 opts =
                    Exited 0
                      {| device := ao_open_live_res E; src_state := None;
                         trace := body (S n) ++ teardown (ao_open_live_res E) None |})
              \/ ((n < fuel)%nat /\ overrun E (mpx l) n /\
                  run_main E fuel argv0 opts =
                    Undefined {| device := ao_open_live_res E; src_state := None;
                                 trace := body (S n) |}))).
Proof.
  destruct (run_main_outcome E fuel argv0 opts) as [H|[H|(l & Hp & Hl & _)]];
    [by left|by right; left|].
  right; right. exists l. split; [done|].
  destruct (startup_cases E) as [Hstart|Hfail].
  2:{ left. destruct (run_main_startup_failure E fuel argv0 opts l Hp Hfail)
        as (evs & Hq & Hrel & Hrun). by exists evs. }
  right.
  destruct (first_failure E (mpx l) fuel) as [Hall|(n & Hn & Hok & Hend)].
  - destruct (run_main_streaming E fuel argv0 opts l fuel Hp Hstart Hall)
      as (st & Hst & Hrun & _).
    exists st, fuel. do 3 (split; [done|]). left. split; [done|]. by apply Hrun.
  - destruct (run_main_streaming E fuel argv0 opts l n Hp Hstart Hok)
      as (st & Hst & _ & Hf & Hu).
    exists st, n. do 3 (split; [done|]). right.
    destruct Hend as [Hfatal|Hover].
    + left. split; [done|]. split; [done|]. by apply Hf.
    + right. split; [done|]. split; [done|]. by apply Hu.
Qed.

(** The trace of any run: one message, nothing, a failed start-up with
    the teardown, or a start-up, some iterations of which all but the last
    run to their end, and the teardown when the loop was left. *)
Lemma run_main_trace E fuel argv0 opts :
  let tr := trace (outcome_state (run_main E fuel argv0 opts)) in
(exists rej, rejection rej /\ tr = rej)
  \/ tr = []
  \/ exists l,
       parse_options argv0 opts initial_locals initial_state = Returned l initial_state /\
       ((exists evs,
           Forall (fun e => is_streaming e = false) evs /\ released evs = [] /\
           tr = evs ++ teardown (ao_open_live_res E) None)
        \/ (exists st n tail,
              startup_ok E /\ src_new_res E = Some st /\
              (n <= fuel)%nat /\
              (forall j, (S j < n)%nat -> iteration_ok E (mpx l) j) /\
              (tail = [] \/ tail = teardown (ao_open_live_res E) None) /\
              tr = startup_trace E l ++
                   loop_events E (polled_pipe E (control_pipe l)) st (rds l) (wait l) (mpx l)
                     (ao_open_live_res E) 0 n ++ tail)).
Proof.
  cbv zeta.
  destruct (run_main_cases E fuel argv0 opts)
    as [(rej & Hrej & ->)|[->|(l & Hp & [(evs & _ & Hq & Hrel & ->)|
         (st & n & Hstart & Hst & Hok & Hend)])]].
  - left. by exists rej.
  - by right; left.
  - right; right. exists l. split; [done|]. left. by exists evs.
  - right; right. exists l. split; [done|]. right. cbv zeta in Hend.
    destruct Hend as [[-> ->]|[(Hn & _ & ->)|(Hn & _ & ->)]]; cbn [outcome_state trace].
    + exists st, fuel, []. do 2 (split; [done|]). split; [lia|].
      split; [intros; apply Hok; lia|]. split; [by left|]. by rewrite app_nil_r.
    + exists st, (S n), (teardown (ao_open_live_res E) None).
      do 2 (split; [done|]). split; [lia|].
      split; [intros; apply Hok; lia|]. split; [by right|]. by rewrite <- app_assoc.
    + exists st, (S n), []. do 2 (split; [done|]). split; [lia|].
      split; [intros; apply Hok; lia|]. split; [by left|]. by rewrite app_nil_r.
Qed.






Lemma released_nil evs : released evs = [] <-> Forall (fun e => release_call e = None) evs.
Proof.
  induction evs as [|e evs IH]; [by split; [constructor|]|].
  unfold released in *. cbn. destruct (release_call e) eqn:He.
  - split; [done|]. intros H. apply Forall_cons in H as [? _]. congruence.
  - rewrite IH. split; [by constructor|]. by intros H; apply Forall_cons in H as [_ ?].
Qed.

Lemma In_loop_events E cp st rds wait mpx d i n e :
  In e (loop_events E cp st rds wait mpx d i n) ->
  exists j, In e (iteration_events E cp st rds wait mpx d j).
Proof.
  unfold loop_events. intros H. apply list_elem_of_In, list_elem_of_bind in H as (j & H & _).
  exists j. by apply list_elem_of_In.
Qed.

Lemma In_iteration_play E cp st rds wait mpx d0 i d samples num_bytes :
  In (AoPlay d samples num_bytes) (iteration_events E cp st rds wait mpx d0 i) ->
  d = d0 /\
  exists vs, formatted E mpx i = Some vs /\ samples = stereo vs /\
             num_bytes = Z.of_nat (length (src_process_res E i).2) * 4.
Proof.
  unfold iteration_events. rewrite in_app_iff. intros [H|H].
  { destruct cp; cbn in H; [destruct H as [?|[]]; discriminate|done]. }
  destruct H as [?|H]; [discriminate|].
  destruct (_ <? 0); [done|]. destruct H as [?|H]; [discriminate|].
  destruct (negb _); [destruct H as [?|[]]; discriminate|].
  destruct (formatted E mpx i) as [vs|]; [|done].
  destruct H as [[= <- <- <-]|H]; [split; [done|by exists vs]|].
  destruct (_ =? 0); [destruct H as [?|[]]; discriminate|done].
Qed.


Lemma quiet_In evs e :
  Forall (fun e => is_streaming e = false) evs -> In e evs -> is_streaming e = false.
Proof. rewrite Forall_forall. intros H Hin. by apply H, list_elem_of_In. Qed.

(** X7: every block that is handed to the sink, in any run, goes to the
    device that [ao_open_live] returned, holds each formatted value of a
    block of the converter twice, and is announced with two bytes per
    value, which never exceeds the size of [dev_out]. *)
Theorem X7_played_blocks_well_formed E fuel argv0 opts d samples num_bytes :
  In (AoPlay d samples num_bytes) (trace (outcome_state (run_main E fuel argv0 opts))) ->
  d = ao_open_live_res E /\ is_Some d /\
  num_bytes = 2 * Z.of_nat (length samples) /\
  num_bytes <= 2 * OUTPUT_DATA_SIZE /\
  exists l i vs,
    parse_options argv0 opts initial_locals initial_state = Returned l initial_state /\
    formatted E (mpx l) i = Some vs /\ samples = stereo vs.
Proof.
  intros Hin.
  destruct (run_main_trace E fuel argv0 opts)
    as [(rej & (fmt & args & Hrej) & Htr)|[Htr|(l & Hp & [(evs & Hq & _ & Htr)|
         (st & n & tail & Hstart & _ & _ & _ & Htail & Htr)])]];
    cbv zeta in Htr; rewrite Htr in Hin.
  - destruct Hrej as [->|[c ->]]; cbn in Hin; intuition discriminate.
  - destruct Hin.
  - apply in_app_iff in Hin as [Hin|Hin].
    + by apply (quiet_In _ _ Hq) in Hin.
    + by apply (quiet_In _ _ (teardown_quiet _ _)) in Hin.
  - rewrite !in_app_iff in Hin. destruct Hin as [Hin|[Hin|Hin]].
    + by apply (quiet_In _ _ (proj1 (startup_trace_silent E l))) in Hin.
    + apply In_loop_events in Hin as (i & Hin).
      apply In_iteration_play in Hin as (-> & vs & Hf & -> & ->).
      split; [done|]. split; [by destruct Hstart|].
      pose proof Hf as Hf'. apply formatted_Some in Hf' as [Hlen Hvs].
      apply length_mapM in Hvs. rewrite length_stereo.
      unfold DATA_SIZE, OUTPUT_DATA_SIZE in *.
      split; [lia|]. split; [lia|]. by exists l, i, vs.
    + destruct Htail as [-> | ->]; [destruct Hin|].
      by apply (quiet_In _ _ (teardown_quiet _ _)) in Hin.
Qed.

Lemma X7_played_blocks_well_formed_witness :
  let E := env_end_of_stream 1 in
  Some 1%positive = ao_open_live_res E /\ is_Some (Some 1%positive) /\
  8 = 2 * Z.of_nat (length [0; 0; 1638; 1638]) /\
  8 <= 2 * OUTPUT_DATA_SIZE /\
  exists l i vs,
    parse_options "mpxgen" [] initial_locals initial_state = Returned l initial_state /\
    formatted E (mpx l) i = Some vs /\ [0; 0; 1638; 1638] = stereo vs.
Proof.
  apply (X7_played_blocks_well_formed (env_end_of_stream 1) 2 "mpxgen" []
           (Some 1%positive) [0; 0; 1638; 1638] 8).
  vm_compute. repeat (first [left; reflexivity | right]).
Defined.




(** X9: every run goes through its phases in order: first the calls of
    start-up, among them all acquisitions, then the calls of the loop,
    among them all streaming calls, then the releases. *)
Theorem X9_phases_in_order E fuel argv0 opts :
  exists a b c,
    trace (outcome_state (run_main E fuel argv0 opts)) = a ++ b ++ c /\
    Forall (fun e => is_streaming e = false /\ release_call e = None) a /\
    Forall (fun e => acquire_call e = None /\ release_call e = None) b /\
    Forall (fun e => acquire_call e = None /\ is_streaming e = false) c.
Proof.
  assert (Hc : Forall (fun e => acquire_call e = None /\ is_streaming e = false)
                 (teardown (ao_open_live_res E) None)) by (by repeat constructor).
  assert (Ha : forall evs, Forall (fun e => is_streaming e = false) evs -> released evs = [] ->
                 Forall (fun e => is_streaming e = false /\ release_call e = None) evs).
  { intros evs Hq Hrel. apply released_nil in Hrel.
    rewrite Forall_forall in *. intros e He. split; auto. }
  destruct (run_main_trace E fuel argv0 opts)
    as [(rej & (fmt & args & Hrej) & Htr)|[Htr|(l & Hp & [(evs & Hq & Hrel & Htr)|
         (st & n & tail & Hstart & Hst & _ & _ & Htail & Htr)])]];
    cbv zeta in Htr; rewrite Htr.
  - exists rej, [], []. split; [by rewrite app_nil_r|].
    destruct Hrej as [->|[c ->]]; by repeat constructor.
  - exists [], [], []. split; [done|]. by repeat constructor.
  - exists evs, [], (teardown (ao_open_live_res E) None). split; [done|].
    split; [by apply Ha|]. split; [constructor|done].
  - eexists _, _, tail. split; [reflexivity|].
    split; [apply Ha; apply startup_trace_silent|].
    split.
    + eapply Forall_impl; [apply loop_events_loop|]. by intros e [? _].
    + destruct Htail as [-> | ->]; [constructor|done].
Qed.

Lemma last_signal_last num sigs :
  sigs <> [] -> exists k, last sigs = Some (k, last_signal num sigs).
Proof.
  revert num. induction sigs as [|[k signum] sigs IH]; intros num Hne; [done|].
  destruct sigs as [|sg sigs]; [by exists k|].
  destruct (IH signum ltac:(done)) as [k' Hk']. exists k'. by rewrite last_cons, Hk'.
Qed.

(** A signal whose handler [generate_mpx] has installed has a number
    from 1 to 24 and is neither SIGKILL nor SIGSTOP. *)
Lemma handled_range E fuel argv0 opts k signum :
  handled (take k (trace (outcome_state (run_main E fuel argv0 opts)))) signum = true ->
  1 <= signum <= 24 /\ signum <> SIGKILL /\ signum <> SIGSTOP.
Proof.
  unfold handled. rewrite !andb_true_iff, !negb_true_iff, !Z.eqb_neq.
  intros [[[Hin H0] Hkill] Hstop]. split; [|done].
  apply existsb_exists in Hin as (e & Hin & He).
  destruct e; try discriminate. cbn in He. apply Z.eqb_eq in He. subst signum0.
  assert (Hrun : In (Sigaction signum) (trace (outcome_state (run_main E fuel argv0 opts)))).
  { rewrite <- (take_drop k). apply in_or_app. by left. }
  apply run_main_sigaction in Hrun. lia.
Qed.

(** X10: the exit status of the process. Without a signal it is 1 when an
    option is rejected or an acquisition fails, and then the source was
    never asked for a block, and it is 0 whenever the loop was entered
    and left, whatever made it stop. When signals arrive, it is the
    number of the last of them, which [terminate] as its handler passes
    to [exit]: a number from 1 to 24, not that of SIGKILL or SIGSTOP. *)
Theorem X10_exit_status E fuel argv0 opts sigs code s :
  delivered E fuel argv0 opts sigs = true ->
  run_main_signalled E fuel argv0 opts sigs = Exited code s ->
  (sigs = [] /\
   ((code = 1 /\ calls is_get_samples (trace s) = 0%nat) \/
    (code = 0 /\ startup_ok E /\
     exists l n,
       parse_options argv0 opts initial_locals initial_state = Returned l initial_state /\
       streaming_fatal E (mpx l) n /\ calls is_get_samples (trace s) = S n))) \/
  (exists k,
     last sigs = Some (k, code) /\ 1 <= code <= 24 /\ code <> SIGKILL /\ code <> SIGSTOP).
Proof.
  intros Hdel Hrun. destruct sigs as [|[k signum] sigs].
  - left. split; [done|]. cbn [run_main_signalled] in Hrun.
    assert (Hs : forall e, is_get_samples e = true -> is_streaming e = true) by (by intros []).
    destruct (run_main_cases E fuel argv0 opts)
      as [(rej & (fmt & args & Hrej) & Heq)|[Heq|(l & Hp & [(evs & _ & Hq & _ & Heq)|
           (st & n & Hstart & Hst & Hok & Hend)])]].
    + rewrite Heq in Hrun. injection Hrun as <- <-. left. split; [done|].
      by destruct Hrej as [->|[c ->]].
    + congruence.
    + rewrite Heq in Hrun. injection Hrun as <- <-. left. split; [done|]. cbn [trace].
      rewrite calls_app, (quiet_calls _ _ Hs Hq),
        (calls_teardown _ (ao_open_live_res E) None Hs).
      done.
    + cbv zeta in Hend. destruct Hend as [[_ Heq]|[(Hn & Hf & Heq)|(_ & _ & Heq)]];
        rewrite Heq in Hrun; try discriminate.
      pose proof (f_equal exit_code Hrun) as Hcode.
      pose proof (f_equal outcome_state Hrun) as Hstate.
      cbn [exit_code outcome_state] in Hcode, Hstate. injection Hcode as <-. subst s.
      right. split; [done|]. split; [done|].
      exists l, n. split; [done|]. split; [done|]. cbn [trace].
      rewrite 2!calls_app, (quiet_calls _ _ Hs (proj1 (startup_trace_silent E l))),
        calls_get_loop, (calls_teardown _ (ao_open_live_res E) None Hs). lia.
  - right. rewrite run_main_signalled_run in Hrun. cbv zeta in Hrun.
    pose proof (f_equal exit_code Hrun) as Hcode. cbn [exit_code] in Hcode.
    injection Hcode as <-.
    destruct (last_signal_last signum ((k, signum) :: sigs) ltac:(done)) as [k' Hlast].
    cbn [last_signal] in Hlast. exists k'. split; [done|].
    unfold delivered in Hdel. rewrite !andb_true_iff in Hdel.
    destruct Hdel as [[_ Hall] _]. rewrite forallb_forall in Hall.
    apply (handled_range E fuel argv0 opts k).
    apply (Hall (k', last_signal signum sigs)).
    apply list_elem_of_In. by apply last_Some_elem_of.
Qed.

Lemma X10_exit_status_witness :
  let E := env_ok two_frames in
  (exists k, last [(45%nat, 1)] = Some (k, 1) /\ 1 <= 1 <= 24 /\ 1 <> SIGKILL /\ 1 <> SIGSTOP) /\
  calls is_get_samples
    (trace (outcome_state (run_main_signalled E 3 "mpxgen" [] [(45%nat, 1)]))) = 2%nat.
Proof.
  split; [|reflexivity].
  destruct (X10_exit_status (env_ok two_frames) 3 "mpxgen" [] [(45%nat, 1)] 1
              (outcome_state (run_main_signalled (env_ok two_frames) 3 "mpxgen" []
                                [(45%nat, 1)])))
    as [[Hs _]|H].
  - vm_compute. reflexivity.
  - vm_compute. reflexivity.
  - discriminate.
  - exact H.
Defined.

(** The trace of a run that gets through start-up. *)
Lemma run_main_started_trace E fuel argv0 opts l :
  parse_options argv0 opts initial_locals initial_state = Returned l initial_state ->
  startup_ok E ->
  exists st n tail,
    src_new_res E = Some st /\ (n <= fuel)%nat /\
    (tail = [] \/ tail = teardown (ao_open_live_res E) None) /\
    trace (outcome_state (run_main E fuel argv0 opts))
    = startup_trace E l ++
      loop_events E (polled_pipe E (control_pipe l)) st (rds l) (wait l) (mpx l)
        (ao_open_live_res E) 0 n ++ tail.
Proof.
  intros Hp Hstart.
  destruct (first_failure E (mpx l) fuel) as [Hall|(n & Hn & Hok & Hend)].
  - destruct (run_main_streaming E fuel argv0 opts l fuel Hp Hstart Hall)
      as (st & Hst & Hrun & _).
    exists st, fuel, []. split; [done|]. split; [lia|]. split; [by left|].
    rewrite (Hrun eq_refl). cbn [outcome_state trace]. by rewrite app_nil_r.
  - destruct (run_main_streaming E fuel argv0 opts l n Hp Hstart Hok)
      as (st & Hst & _ & Hf & Hu).
    destruct Hend as [Hfatal|Hover].
    + exists st, (S n), (teardown (ao_open_live_res E) None).
      split; [done|]. split; [lia|]. split; [by right|].
      rewrite (Hf Hn Hfatal). cbn [outcome_state trace]. by rewrite <- app_assoc.
    + exists st, (S n), []. split; [done|]. split; [lia|]. split; [by left|].
      rewrite (Hu Hn Hover). cbn [outcome_state trace]. by rewrite app_nil_r.
Qed.

Lemma af_calls_app a b : af_calls (a ++ b) = af_calls a ++ af_calls b.
Proof. apply omap_app. Qed.

Lemma af_printed_app a b : af_printed (a ++ b) = af_printed a ++ af_printed b.
Proof. apply omap_app. Qed.

Lemma af_iteration E cp st rds wait mpx d i :
  af_calls (iteration_events E cp st rds wait mpx d i) = [] /\
  af_printed (iteration_events E cp st rds wait mpx d i) = [].
Proof.
  unfold iteration_events. rewrite af_calls_app, af_printed_app.
  assert (af_calls (poll_events cp) = [] /\ af_printed (poll_events cp) = []) as [-> ->]
    by (by destruct cp).
  cbn. destruct (_ <? 0); [done|]. cbn. destruct (negb _); [done|].
  destruct (formatted E mpx i); [|done]. cbn. by destruct (_ =? 0).
Qed.

Lemma af_loop E cp st rds wait mpx d n : forall i,
  af_calls (loop_events E cp st rds wait mpx d i n) = [] /\
  af_printed (loop_events E cp st rds wait mpx d i n) = [].
Proof.
  induction n as [|n IH]; intros i; [done|].
  rewrite loop_events_S, af_calls_app, af_printed_app.
  destruct (af_iteration E cp st rds wait mpx d i) as [-> ->].
  destruct (IH (S i)) as [-> ->]. done.
Qed.

Lemma af_printed_map xs :
  af_printed (map (fun a => Printf "%f Mhz "
                     [ArgFloat (f32_div (f32_of_int (a + 875)) (f32_of_int 10))]) xs)
  = map (fun a => f32_div (f32_of_int (a + 875)) (f32_of_int 10)) xs.
Proof. induction xs as [|x xs IH]; [done|]. cbn. f_equal. exact IH. Qed.

Lemma af_calls_map xs :
  af_calls (map (fun a => Printf "%f Mhz "
                   [ArgFloat (f32_div (f32_of_int (a + 875)) (f32_of_int 10))]) xs) = [].
Proof. induction xs as [|x xs IH]; [done|]. exact IH. Qed.

Lemma af_rds_option_events rds pi ps rt af pty af0 :
  af !! 0%nat = Some af0 ->
  let announced := negb (rds =? 0) && negb (af0 =? 0) in
  af_calls (rds_option_events rds pi ps rt af pty) = (if announced then [af] else []) /\
  af_printed (rds_option_events rds pi ps rt af pty) =
    (if announced
     then map (fun c => f32_div (f32_of_int (c + 875)) (f32_of_int 10))
              (take (Z.to_nat af0) (drop 1 af))
     else []).
Proof.
  intros H. cbv zeta. unfold rds_option_events, af_events. rewrite H.
  destruct (rds =? 0); [done|]. destruct (af0 =? 0); [done|]. cbn [negb andb].
  match goal with
  | |- context [?a :: ?b :: ?c :: ?d :: ?e :: (?t ++ ?u)] =>
      change (a :: b :: c :: d :: e :: (t ++ u)) with ([a; b; c; d; e] ++ t ++ u)
  end.
  rewrite !af_calls_app, !af_printed_app, af_calls_map, af_printed_map.
  split; [reflexivity|]. cbn [app]. by rewrite app_nil_r.
Qed.

(** X11: the alternative frequencies reach the RDS encoder, and are printed,
    exactly when RDS is on and at least one was given: [set_rds_af] is
    then called once, with the array [main] built, and each frequency
    is printed as the [float] nearest to (code + 875) / 10, in the order
    of the options. *)
Theorem X11_alternative_frequencies_announced E fuel argv0 opts l :
  parse_options argv0 opts initial_locals initial_state = Returned l initial_state ->
  startup_ok E ->
  let tr := trace (outcome_state (run_main E fuel argv0 opts)) in
  let announced := negb (rds l =? 0) && negb (af_size l =? 0) in
  af_calls tr = (if announced then [af_array l] else []) /\
  af_printed tr =
    (if announced
     then map (fun c => f32_div (f32_of_int (c + 875)) (f32_of_int 10))
              (take (Z.to_nat (af_size l)) (drop 1 (alternative_freq l)))
     else []).
Proof.
  intros Hp Hstart. cbv zeta.
  destruct (parse_options_ok _ _ _ _ Hp) as [_ [Hlen Hsz]].
  destruct (run_main_started_trace E fuel argv0 opts l Hp Hstart)
    as (st & n & tail & _ & _ & Htail & ->).
  rewrite !af_calls_app, !af_printed_app.
  destruct (af_loop E (polled_pipe E (control_pipe l)) st (rds l) (wait l) (mpx l)
              (ao_open_live_res E) n 0%nat) as [-> ->].
  assert (af_calls tail = [] /\ af_printed tail = []) as [-> ->]
    by (by destruct Htail as [-> | ->]).
  rewrite !app_nil_r.
  unfold startup_trace, startup_events.
  rewrite !af_calls_app, !af_printed_app.
  assert (af_calls (control_pipe_events E (control_pipe l)) = [] /\
          af_printed (control_pipe_events E (control_pipe l)) = []) as [-> ->].
  { destruct (control_pipe l); [|done]. cbn. by destruct (_ =? 0). }
  destruct (af_rds_option_events (rds l) (pi l) (ps l) (rt l) (af_array l) (pty l) (af_size l))
    as [-> ->].
  { unfold af_array. apply list_lookup_insert_eq. lia. }
  rewrite !app_nil_r.
  change (af_calls (open_sink_events E)) with (@nil (list Z)).
  change (af_printed (open_sink_events E)) with (@nil float32).
  change (af_calls (open_source_events _ _)) with (@nil (list Z)).
  change (af_printed (open_source_events _ _)) with (@nil float32).
  change (af_calls (set_rds_events _ _ _ _ _)) with (@nil (list Z)).
  change (af_printed (set_rds_events _ _ _ _ _)) with (@nil float32).
  cbn [app]. split; [reflexivity|].
  unfold af_array. by rewrite drop_insert_lt by lia.
Qed.

Lemma X11_alternative_frequencies_announced_witness :
  let E := env_end_of_stream 0 in
  let l := store_af 204 (store_af 1 initial_locals) in
  let tr := trace (outcome_state
              (run_main E 1 "mpxgen" [option_of "A" "87.6"; option_of "A" "107.9"])) in
  let announced := negb (rds l =? 0) && negb (af_size l =? 0) in
  af_calls tr = (if announced then [af_array l] else []) /\
  af_printed tr =
    (if announced
     then map (fun c => f32_div (f32_of_int (c + 875)) (f32_of_int 10))
              (take (Z.to_nat (af_size l)) (drop 1 (alternative_freq l)))
     else []).
Proof.
  apply (X11_alternative_frequencies_announced (env_end_of_stream 0) 1 "mpxgen"
           [option_of "A" "87.6"; option_of "A" "107.9"]
           (store_af 204 (store_af 1 initial_locals))).
  - vm_compute. reflexivity.
  - repeat split; cbn; try (by eexists); lia.
Defined.

(** ** Messages on stderr *)




Lemma stderr_app a b : stderr_messages (a ++ b) = stderr_messages a ++ stderr_messages b.
Proof. apply omap_app. Qed.

Lemma stderr_startup E l : stderr_messages (startup_trace E l) = [].
Proof.
  unfold startup_trace, startup_events. rewrite !stderr_app.
  assert (stderr_messages (control_pipe_events E (control_pipe l)) = []) as ->.
  { destruct (control_pipe l); [|done]. cbn. by destruct (_ =? 0). }
  assert (stderr_messages
            (rds_option_events (rds l) (pi l) (ps l) (rt l) (af_array l) (pty l)) = []) as ->.
  { unfold rds_option_events, af_events.
    destruct (rds l =? 0); [done|].
    destruct (af_array l !! 0%nat) as [af0|]; [|done].
    destruct (af0 =? 0); [done|].
    match goal with
    | |- context [?a :: ?b :: ?c :: ?d :: ?e :: (?t ++ ?u)] =>
        change (a :: b :: c :: d :: e :: (t ++ u)) with ([a; b; c; d; e] ++ t ++ u)
    end.
    rewrite !stderr_app.
    assert (forall xs, stderr_messages
              (map (fun a => Printf "%f Mhz "
                      [ArgFloat (f32_div (f32_of_int (a + 875)) (f32_of_int 10))]) xs) = [])
      as -> by (induction xs; done).
    done. }
  done.
Qed.

Lemma stderr_iteration_ok E cp st rds wait mpx d i :
  iteration_ok E mpx i -> stderr_messages (iteration_events E cp st rds wait mpx d i) = [].
Proof.
  intros Hok. destruct (iteration_events_ok E cp st rds wait mpx d i Hok) as (vs & _ & ->).
  by destruct cp.
Qed.

Lemma stderr_loop_ok E cp st rds wait mpx d n : forall i,
  (forall j, (j < n)%nat -> iteration_ok E mpx (i + j)) ->
  stderr_messages (loop_events E cp st rds wait mpx d i n) = [].
Proof.
  induction n as [|n IH]; intros i Hok; [done|].
  rewrite loop_events_S, stderr_app, stderr_iteration_ok, IH; [done| |].
  - intros j Hj. replace (S i + j)%nat with (i + S j)%nat by lia. apply Hok. lia.
  - rewrite <- (Nat.add_0_r i). apply Hok. lia.
Qed.

Lemma stderr_iteration_fatal E cp st rds wait mpx d i :
  streaming_fatal E mpx i ->
  stderr_messages (iteration_events E cp st rds wait mpx d i) = break_message E i.
Proof.
  intros Hf. unfold iteration_events, break_message. rewrite stderr_app.
  assert (stderr_messages (poll_events cp) = []) as -> by (by destruct cp).
  destruct Hf as [Hget|Hget Herr|Hget Herr Hok Hplay].
  - by assert ((fm_mpx_get_samples_res E i <? 0) = true) as -> by lia.
  - assert ((fm_mpx_get_samples_res E i <? 0) = false) as -> by lia.
    by assert (negb ((src_process_res E i).1 =? 0) = true) as -> by (apply negb_true_iff; lia).
  - assert ((fm_mpx_get_samples_res E i <? 0) = false) as -> by lia.
    rewrite Herr. apply frames_ok_formatted in Hok as [vs ->]. by rewrite Hplay.
Qed.

(** X13: what a run reports that leaves the loop: nothing when the source
    ends or fails, the converter's error when the conversion fails, and
    one line when the sink refuses a block; in each case this is all that
    the run writes to stderr. *)
Theorem X13_break_reported E fuel argv0 opts l n :
  parse_options argv0 opts initial_locals initial_state = Returned l initial_state ->
  startup_ok E ->
  (forall j, (j < n)%nat -> iteration_ok E (mpx l) j) ->
  streaming_fatal E (mpx l) n ->
  (n < fuel)%nat ->
  stderr_messages (trace (outcome_state (run_main E fuel argv0 opts))) = break_message E n.
Proof.
  intros Hp Hstart Hok Hfatal Hfuel.
  destruct (run_main_streaming E fuel argv0 opts l n Hp Hstart Hok)
    as (st & _ & _ & Hrun & _).
  rewrite (Hrun Hfuel Hfatal). cbn [outcome_state trace]. cbv beta zeta.
  rewrite 2!stderr_app, stderr_startup, loop_events_snoc, stderr_app.
  rewrite stderr_loop_ok by done. cbn [app Nat.add].
  rewrite stderr_iteration_fatal by done.
  change (stderr_messages (teardown (ao_open_live_res E) None)) with (@nil (string * list arg)).
  by rewrite app_nil_r.
Qed.

Lemma X13_break_reported_witness :
  stderr_messages (trace (outcome_state (run_main (env_sink_fails 1) 2 "mpxgen" [])))
  = break_message (env_sink_fails 1) 1.
Proof.
  apply (X13_break_reported (env_sink_fails 1) 2 "mpxgen" [] initial_locals 1).
  - reflexivity.
  - repeat split; cbn; try (by eexists); lia.
  - intros j Hj. assert (j = 0%nat) as -> by lia.
    repeat split; cbn; try lia; try apply two_frames_ok.
  - apply sink_fails; cbn; try lia; try reflexivity. apply two_frames_ok.
  - lia.
Defined.

(** X14: what a start-up reports that fails: the sound device or the
    converter is named on stderr, a failure of [fm_mpx_open] is not
    reported by this file; the exit status is 1 in each case. *)
Theorem X14_startup_failure_reported E fuel argv0 opts l :
  parse_options argv0 opts initial_locals initial_state = Returned l initial_state ->
  startup_failure E ->
  exists s,
    run_main E fuel argv0 opts = Exited 1 s /\
    stderr_messages (trace s) = startup_message E.
Proof.
  intros Hp Hfail.
  rewrite (run_main_parsed _ _ _ _ _ Hp), bind_run.
  unfold main_generate. rewrite generate_mpx_unfold. unfold startup_message.
  destruct (ao_open_live_res E) as [dev|] eqn:Hdev.
  2:{ cbv beta iota. rewrite terminate_run. eexists. split; [reflexivity|]. reflexivity. }
  destruct (src_new_res E) as [cst|] eqn:Hcst.
  2:{ cbv beta iota. rewrite terminate_run. eexists. split; [reflexivity|]. reflexivity. }
  destruct (fm_mpx_open_res E <? 0) eqn:Hsrc.
  2:{ destruct Hfail as [?|[?|?]]; [congruence|congruence|lia]. }
  cbv beta iota. rewrite terminate_run. eexists. split; [reflexivity|]. reflexivity.
Qed.

Lemma X14_startup_failure_reported_witness :
  exists s,
    run_main env_no_sink 1 "mpxgen" [] = Exited 1 s /\
    stderr_messages (trace s) = startup_message env_no_sink.
Proof.
  apply (X14_startup_failure_reported env_no_sink 1 "mpxgen" [] initial_locals).
  - reflexivity.
  - left. reflexivity.
Defined.

(** ** Options, one by one *)

(** Two lists that repeat related elements are related. *)
Lemma Forall2_replicate_same {A B} (P : A -> B -> Prop) x y n :
  P x y -> Forall2 P (replicate n x) (replicate n y).
Proof. intros H. induction n; constructor; done. Qed.

Lemma handle_option_af_run argv0 f l s :
  handle_option argv0 (option_of "A" f) l s =
  match af_code f with
  | None => Undefined s
  | Some c =>
      if bool_decide (Z.to_nat (af_size l + 1) < length (alternative_freq l))%nat then
        if (c <? 1) || (c >? 204) then Exited 1 (add_events [FprintfStderr af_error []] s)
        else Returned (store_af c l) s
      else Undefined s
  end.
Proof.
  unfold handle_option. cbn [opt optarg option_of].
  destruct (af_code f) as [c|]; [|reflexivity].
  case_bool_decide; [|reflexivity].
  destruct (_ || _); [apply fatal_run|reflexivity].
Qed.

(** Alternative frequencies are stored in the order of the options, from
    index 1 on; the array has room for 99 of them. *)
Lemma parse_af_options argv0 fs : forall cs l s,
  Forall2 (fun f c => af_code f = Some c /\ 1 <= c <= 204) fs cs ->
  length (alternative_freq l) = 100%nat -> 0 <= af_size l ->
  af_size l + Z.of_nat (length fs) <= 99 ->
  exists l',
    parse_options argv0 (map (option_of "A") fs) l s = Returned l' s /\
    af_size l' = af_size l + Z.of_nat (length fs) /\
    alternative_freq l' =
      take (Z.to_nat (af_size l) + 1) (alternative_freq l) ++ cs ++
      drop (Z.to_nat (af_size l) + 1 + length fs) (alternative_freq l) /\
    mpx l' = mpx l /\ rds l' = rds l /\ control_pipe l' = control_pipe l.
Proof.
  induction fs as [|f fs IH]; intros cs l s Hall Hlen Hsz Hroom.
  - apply Forall2_nil_inv_l in Hall as ->. exists l. cbn [map parse_options length].
    split; [reflexivity|]. split; [lia|]. split; [|done].
    cbn [app]. rewrite Nat.add_0_r. by rewrite take_drop.
  - apply Forall2_cons_inv_l in Hall as (c & cs' & [Hc Hr] & Hall & ->).
    cbn [length] in Hroom. rewrite Nat2Z.inj_succ in Hroom. cbn [map]. next_option.
    rewrite bind_run, handle_option_af_run, Hc.
    rewrite bool_decide_true by lia.
    assert ((c <? 1) || (c >? 204) = false) as -> by lia.
    destruct (IH cs' (store_af c l) s Hall) as (l' & Hp & Hsz' & Haf & Hm & Hrds & Hcp).
    { cbn [store_af set_alternative_freq alternative_freq]. by rewrite length_insert. }
    { cbn [store_af set_alternative_freq af_size]. lia. }
    { cbn [store_af set_alternative_freq af_size]. lia. }
    exists l'. split; [exact Hp|]. cbn [store_af set_alternative_freq af_size alternative_freq] in *.
    split; [cbn [length]; lia|]. split; [|done].
    rewrite Haf. cbn [length].
    replace (Z.to_nat (af_size l + 1)) with (S (Z.to_nat (af_size l))) by lia.
    rewrite drop_insert_lt by lia.
    replace (S (Z.to_nat (af_size l)) + 1)%nat with (S (S (Z.to_nat (af_size l)))) by lia.
    rewrite (take_S_r _ _ c) by (apply list_lookup_insert_eq; lia).
    rewrite take_insert_ge by lia.
    replace (Z.to_nat (af_size l) + 1)%nat with (S (Z.to_nat (af_size l))) by lia.
    rewrite <- app_assoc. cbn [app]. do 4 f_equal. lia.
Qed.

(** X15: [n] valid alternative frequencies, [n] at most 99, are stored
    in the order of the options, and [main] passes on the array that
    starts with [n], goes on with the [n] codes and is zero from there
    on. *)
Theorem X15_alternative_frequencies_stored argv0 fs cs :
  Forall2 (fun f c => af_code f = Some c /\ 1 <= c <= 204) fs cs ->
  (length fs <= 99)%nat ->
  exists l,
    parse_options argv0 (map (option_of "A") fs) initial_locals initial_state
    = Returned l initial_state /\
    af_array l = Z.of_nat (length fs) :: cs ++ replicate (99 - length fs) 0.
Proof.
  intros Hall Hlen.
  destruct (parse_af_options argv0 fs cs initial_locals initial_state Hall)
    as (l & Hp & Hsz & Haf & _); [done|cbn; lia|cbn; lia|].
  exists l. split; [done|]. unfold af_array. rewrite Haf, Hsz.
  change (alternative_freq initial_locals) with (replicate 100 0).
  change (af_size initial_locals) with 0.
  change (Z.to_nat 0 + 1)%nat with 1%nat.
  change (take 1 (replicate 100 0)) with [0].
  cbn [app insert list_insert].
  rewrite drop_replicate, Z.add_0_l.
  replace (100 - (1 + length fs))%nat with (99 - length fs)%nat by lia. reflexivity.
Qed.

Lemma X15_alternative_frequencies_stored_witness :
  exists l,
    parse_options "mpxgen" (map (option_of "A") ["87.6"; "107.9"]%string)
      initial_locals initial_state
    = Returned l initial_state /\
    af_array l = 2 :: [1; 204] ++ replicate 97 0.
Proof.
  apply (X15_alternative_frequencies_stored "mpxgen" ["87.6"; "107.9"]%string [1; 204]).
  - constructor; [split; [vm_compute; reflexivity|lia]|].
    constructor; [split; [vm_compute; reflexivity|lia]|]. constructor.
  - cbn. lia.
Defined.

(** X16: the array has room for 99 alternative frequencies: the 100th
    option of this kind, whatever its argument, is stored past the end of
    the array, which is undefined behaviour. *)
Theorem X16_alternative_frequency_overflow argv0 fs cs f :
  Forall2 (fun f c => af_code f = Some c /\ 1 <= c <= 204) fs cs ->
  length fs = 99%nat ->
  parse_options argv0 (map (option_of "A") (fs ++ [f])) initial_locals initial_state
  = Undefined initial_state.
Proof.
  intros Hall Hlen.
  destruct (parse_af_options argv0 fs cs initial_locals initial_state Hall)
    as (l & Hp & Hsz & Haf & _); [done|cbn; lia|cbn; lia|].
  rewrite map_app, parse_options_app, bind_run, Hp. cbn [map]. next_option.
  rewrite bind_run, handle_option_af_run.
  destruct (af_code f); [|reflexivity].
  rewrite bool_decide_false; [reflexivity|].
  rewrite Haf, Hsz, !length_app, length_take, length_drop.
  apply Forall2_length in Hall. cbn. lia.
Qed.

Lemma X16_alternative_frequency_overflow_witness :
  parse_options "mpxgen" (map (option_of "A") (replicate 99 "87.6"%string ++ ["87.7"%string]))
    initial_locals initial_state
  = Undefined initial_state.
Proof.
  apply (X16_alternative_frequency_overflow "mpxgen" (replicate 99 "87.6"%string)
           (replicate 99 1) "87.7"%string).
  - apply Forall2_replicate_same. split; [vm_compute; reflexivity|lia].
  - reflexivity.
Defined.

Lemma af_array_ok_store c l :
  af_array_ok l -> 1 <= c <= 204 ->
  (Z.to_nat (af_size l + 1) < length (alternative_freq l))%nat ->
  af_array_ok (store_af c l).
Proof.
  intros (Hlen & Hsz & H0 & Hin & Hout) Hc Hidx.
  unfold af_array_ok, store_af, set_alternative_freq. cbn [alternative_freq af_size].
  split; [by rewrite length_insert|]. split; [lia|].
  split; [rewrite list_lookup_insert_ne by lia; done|]. split.
  - intros i x Hi Hx.
    destruct (decide (i = Z.to_nat (af_size l + 1))) as [->|Hne].
    + rewrite list_lookup_insert_eq in Hx by lia. by simplify_eq.
    + rewrite list_lookup_insert_ne in Hx by done. apply (Hin i); [lia|done].
  - intros i x Hi Hx. rewrite list_lookup_insert_ne in Hx by lia. apply (Hout i); [lia|done].
Qed.

Lemma initial_af_array_ok : af_array_ok initial_locals.
Proof.
  split; [reflexivity|]. split; [cbn; lia|]. split; [reflexivity|]. split.
  - intros i c Hi. cbn in Hi. lia.
  - intros i c _ Hc. cbn [initial_locals alternative_freq] in Hc.
    apply lookup_replicate in Hc as [-> _]. done.
Qed.

Lemma strtol16_pi s : 0 <= strtol16 s mod 65536 < 65536.
Proof. apply Z.mod_pos_bound. lia. Qed.

(** What one pass through the [switch] keeps: the array of alternative
    frequencies is in order and the PI code fits 16 bits. *)
Lemma handle_option_keeps argv0 o l s l' s' :
  handle_option argv0 o l s = Returned l' s' ->
  af_array_ok l /\ 0 <= pi l < 65536 -> af_array_ok l' /\ 0 <= pi l' < 65536.
Proof.
  unfold handle_option.
  destruct (opt o) as [[] [] [] [] [] [] [] []];
    rewrite ?fatal_run, ?ret_run, ?bind_run, ?atoi_optarg_run;
    try (destruct (atoi _); [rewrite ret_run|]);
    try (intros [= <- <-]; done); try done.
  - (* i *)
    intros [= <- <-] [Haf _]. split; [done|]. apply strtol16_pi.
  - (* A *)
    destruct (af_code _) as [c|]; [|done].
    case_bool_decide as Hidx; [|done].
    destruct (_ || _) eqn:Hc; [by rewrite fatal_run|].
    intros [= <- <-] [Haf Hpi]. split; [|done].
    fold (store_af c l). apply af_array_ok_store; [done|lia|done].
  - (* P *)
    destruct (String.eqb _ _); [by intros [= <- <-]|].
    destruct (String.eqb _ _); [by intros [= <- <-]|].
    rewrite bind_run, atoi_optarg_run. destruct (atoi _); [|done].
    by intros [= <- <-].
Qed.

(** X17: whatever the options, the values that [main] passes on are in order:
    at most 99 alternative frequencies, each with a code from 1 to 204,
    in an array that is zero from there on, and a PI code of 16 bits. *)
Theorem X17_parsed_options_in_order argv0 opts l s' :
  parse_options argv0 opts initial_locals initial_state = Returned l s' ->
  0 <= pi l < 65536 /\
  0 <= af_size l <= 99 /\
  length (af_array l) = 100%nat /\
  af_array l !! 0%nat = Some (af_size l) /\
  (forall i c, (1 <= i <= Z.to_nat (af_size l))%nat ->
     af_array l !! i = Some c -> 1 <= c <= 204) /\
  (forall i c, (Z.to_nat (af_size l) < i)%nat -> af_array l !! i = Some c -> c = 0).
Proof.
  assert (Hgen : forall opts l0 s0 l s',
            parse_options argv0 opts l0 s0 = Returned l s' ->
            af_array_ok l0 /\ 0 <= pi l0 < 65536 -> af_array_ok l /\ 0 <= pi l < 65536).
  { clear. induction opts as [|o opts IH]; intros l0 s0 l s'.
    - by intros [= <- <-].
    - rewrite parse_options_cons. destruct (Ascii.eqb _ _); [done|].
      rewrite bind_run. destruct (handle_option argv0 o l0 s0) as [l1 s1| | |] eqn:H1; try done.
      intros H2 H0. eapply IH; [exact H2|]. by eapply handle_option_keeps. }
  intros Hp.
  destruct (Hgen opts initial_locals initial_state l s' Hp) as [(Hlen & Hsz & H0 & Hin & Hout) Hpi].
  { split; [apply initial_af_array_ok|cbn; lia]. }
  unfold af_array. split; [done|]. split; [lia|].
  split; [by rewrite length_insert|].
  split; [apply list_lookup_insert_eq; lia|]. split.
  - intros i c Hi Hc. rewrite list_lookup_insert_ne in Hc by lia. by apply (Hin i).
  - intros i c Hi Hc. rewrite list_lookup_insert_ne in Hc by lia. by apply (Hout i).
Qed.

Lemma X17_parsed_options_in_order_witness :
  let l := store_af 1 initial_locals in
  0 <= pi l < 65536 /\
  0 <= af_size l <= 99 /\
  length (af_array l) = 100%nat /\
  af_array l !! 0%nat = Some (af_size l) /\
  (forall i c, (1 <= i <= Z.to_nat (af_size l))%nat ->
     af_array l !! i = Some c -> 1 <= c <= 204) /\
  (forall i c, (Z.to_nat (af_size l) < i)%nat -> af_array l !! i = Some c -> c = 0).
Proof.
  apply (X17_parsed_options_in_order "mpxgen" [option_of "A" "87.6"]
           (store_af 1 initial_locals) initial_state).
  vm_compute. reflexivity.
Defined.

(** X18: the option [h], and an option that [getopt_long] rejects because
    it is unknown or ambiguous or lacks its argument, end the process at
    once with status 1: nothing has been initialised and the options
    after it are not looked at. For [h] the help text is all that is
    written. For a rejected option the message of [getopt_long] comes
    first and then the line of [main] with [argv[0]] and [optopt], so
    that stderr gets two messages. *)
Theorem X18_rejected_option_exits E fuel argv0 pre o post l :
  parse_options argv0 pre initial_locals initial_state = Returned l initial_state ->
  (opt o = "h"%char ->
   run_main E fuel argv0 (pre ++ o :: post)
   = Exited 1 {| device := None; src_state := None;
                 trace := [FprintfStderr help_text [ArgStr argv0]] |}) /\
  (opt o = "?"%char ->
   run_main E fuel argv0 (pre ++ o :: post)
   = Exited 1 {| device := None; src_state := None;
                 trace := [ GetoptError (optopt o);
                            FprintfStderr ("%s: option '-%c' is invalid. See -h (--help)" ++ nl)
                              [ArgStr argv0; ArgChar (optopt o)] ] |}).
Proof.
  intros Hp.
  split; intros Ho; unfold run_main, main;
    rewrite bind_run, parse_options_app, bind_run, Hp, parse_options_cons, Ho.
  - cbn [Ascii.eqb Bool.eqb]. cbv iota. rewrite bind_run. unfold handle_option. rewrite Ho.
    by rewrite fatal_run.
  - reflexivity.
Qed.

Lemma X18_rejected_option_exits_witness :
  run_main (env_ok two_frames) 1 "mpxgen"
    ([] ++ {| opt := "?"; optarg := ""; optopt := "x" |} :: [option_of "m" "5"])
  = Exited 1 {| device := None; src_state := None;
                trace := [ GetoptError "x";
                           FprintfStderr ("%s: option '-%c' is invalid. See -h (--help)" ++ nl)
                             [ArgStr "mpxgen"; ArgChar "x"] ] |}.
Proof.
  destruct (X18_rejected_option_exits (env_ok two_frames) 1 "mpxgen" []
              {| opt := "?"; optarg := ""; optopt := "x" |} [option_of "m" "5"]
              initial_locals) as [_ Hq].
  - reflexivity.
  - apply Hq. reflexivity.
Defined.

Lemma handle_option_override argv0 o1 o2 l s l1 s1 :
  handle_option argv0 o1 l s = Returned l1 s1 ->
  opt o1 = opt o2 -> opt o1 <> "A"%char ->
  handle_option argv0 o2 l1 s1 = handle_option argv0 o2 l s.
Proof.
  intros H1 Hopt HA. unfold handle_option in *. rewrite <- Hopt.
  destruct (opt o1) as [[] [] [] [] [] [] [] []]; try done;
    rewrite ?fatal_run, ?ret_run, ?bind_run, ?atoi_optarg_run in *;
    try discriminate;
    try (destruct (atoi (optarg o1)); [rewrite ret_run in H1|discriminate]);
    try (injection H1 as <- <-; reflexivity).
  (* P *)
  destruct (String.eqb "eu" (optarg o1)).
  { injection H1 as <- <-. reflexivity. }
  destruct (String.eqb "us" (optarg o1)).
  { injection H1 as <- <-. reflexivity. }
  rewrite bind_run, atoi_optarg_run in H1.
  destruct (atoi (optarg o1)); [|discriminate].
  injection H1 as <- <-. reflexivity.
Qed.

(** X19: of two consecutive options of the same kind, other than [A], the
    second one counts: the run is the one without the first. *)
Theorem X19_later_option_overrides E fuel argv0 pre o1 o2 post l l1 s1 :
  parse_options argv0 pre initial_locals initial_state = Returned l initial_state ->
  handle_option argv0 o1 l initial_state = Returned l1 s1 ->
  opt o1 = opt o2 -> opt o1 <> "A"%char ->
  run_main E fuel argv0 (pre ++ o1 :: o2 :: post) = run_main E fuel argv0 (pre ++ o2 :: post).
Proof.
  intros Hp H1 Hopt HA.
  assert (Hq : opt o1 <> "?"%char).
  { intros Hq. by rewrite (handle_option_rejects argv0 o1 l initial_state Hq) in H1. }
  unfold run_main, main. rewrite !bind_run, !parse_options_app, !bind_run, Hp.
  rewrite (parse_options_cons argv0 o1), (parse_options_cons argv0 o2 post l), <- Hopt.
  destruct (Ascii.eqb_spec (opt o1) "?") as [|_]; [done|].
  rewrite !bind_run, H1. cbv beta iota.
  rewrite (parse_options_cons argv0 o2 post l1), <- Hopt.
  destruct (Ascii.eqb_spec (opt o1) "?") as [|_]; [done|].
  rewrite bind_run.
  rewrite (handle_option_override argv0 o1 o2 l initial_state l1 s1 H1 Hopt HA).
  reflexivity.
Qed.

Lemma X19_later_option_overrides_witness :
  run_main (env_end_of_stream 1) 2 "mpxgen" ([] ++ option_of "m" "5" :: option_of "m" "7" :: [])
  = run_main (env_end_of_stream 1) 2 "mpxgen" ([] ++ option_of "m" "7" :: []).
Proof.
  apply (X19_later_option_overrides (env_end_of_stream 1) 2 "mpxgen" []
           (option_of "m" "5") (option_of "m" "7") [] initial_locals
           (set_mpx (f32_of_int 5) initial_locals) initial_state).
  - reflexivity.
  - vm_compute. reflexivity.
  - reflexivity.
  - discriminate.
Defined.

(** ** Decimal arguments of options *)

Lemma read_digits_uint d : forall rest acc cnt,
  no_digit_ahead rest ->
  read_digits 10 (NilEmpty.string_of_uint d ++ rest) acc cnt
  = (uint_value d acc, (cnt + Decimal.nb_digits d)%nat, rest).
Proof.
  induction d; intros rest acc cnt Hrest; cbn [NilEmpty.string_of_uint String.append];
    try (cbn [read_digits uint_value Decimal.nb_digits];
         change (digit_in 10 _) with (Some 0) || change (digit_in 10 _) with (Some 1)
         || change (digit_in 10 _) with (Some 2) || change (digit_in 10 _) with (Some 3)
         || change (digit_in 10 _) with (Some 4) || change (digit_in 10 _) with (Some 5)
         || change (digit_in 10 _) with (Some 6) || change (digit_in 10 _) with (Some 7)
         || change (digit_in 10 _) with (Some 8) || change (digit_in 10 _) with (Some 9);
         cbv iota; rewrite IHd by done; rewrite ?Z.add_0_r; do 2 f_equal; lia).
  cbn [uint_value Decimal.nb_digits]. rewrite Nat.add_0_r.
  destruct rest as [|c rest]; [done|]. cbn [read_digits]. cbn in Hrest. by rewrite Hrest.
Qed.

Lemma uint_value_acc d : forall p, uint_value d (Z.pos p) = Z.pos (Pos.of_uint_acc d p).
Proof. induction d; intros p; cbn [uint_value Pos.of_uint_acc]; rewrite <- ?IHd; f_equal; lia. Qed.

Lemma uint_value_of_uint d : uint_value d 0 = Z.of_N (Pos.of_uint d).
Proof.
  induction d; cbn [uint_value Pos.of_uint]; try done;
    rewrite ?Z.mul_0_r, ?Z.add_0_l; try apply uint_value_acc.
Qed.

Lemma decimal_digits n :
  0 <= n ->
  exists d, decimal n = NilEmpty.string_of_uint d /\ d <> Decimal.Nil /\ uint_value d 0 = n.
Proof.
  intros Hn. unfold decimal.
  pose proof (DecimalN.Unsigned.of_to (Z.to_N n)) as Hof. unfold N.of_uint in Hof.
  destruct (N.to_uint (Z.to_N n)) as [|d|d|d|d|d|d|d|d|d|d] eqn:Hd;
    [exists (Decimal.D0 Decimal.Nil); split; [done|]; split; [done|];
     cbn in Hof; cbn; lia|..];
    eexists; (split; [reflexivity|]); (split; [done|]);
    rewrite uint_value_of_uint, Hof; lia.
Qed.

Lemma digits_head d rest :
  d <> Decimal.Nil ->
  exists c s, (NilEmpty.string_of_uint d ++ rest)%string = String c s /\
              isspace c = false /\ c <> "-"%char /\ c <> "+"%char.
Proof. destruct d; [done|..]; intros _; eexists _, _; by repeat split. Qed.

(** [atoi] takes the decimal number at the head of its argument and
    ignores what follows it. *)
Lemma atoi_decimal n rest :
  0 <= n <= INT_MAX -> no_digit_ahead rest -> atoi (decimal n ++ rest) = Some n.
Proof.
  intros Hn Hrest. destruct (decimal_digits n) as (d & -> & Hd & Hv); [lia|].
  destruct (digits_head d rest Hd) as (c & s & Heq & Hsp & Hm & Hp).
  unfold atoi. rewrite Heq. cbn [skip_space]. rewrite Hsp.
  assert (read_sign (String c s) = (false, String c s)) as ->.
  { unfold read_sign. destruct c as [[] [] [] [] [] [] [] []]; done. }
  rewrite <- Heq, read_digits_uint by done. rewrite Hv. cbn [apply_sign].
  unfold in_range, INT_MIN, INT_MAX in *.
  assert ((-2147483648 <=? n) && (n <=? 2147483647) = true) as -> by lia. reflexivity.
Qed.

(** X20: the numeric options take the decimal number at the head of their
    argument and ignore the rest: the gain, the wait switch, the RDS
    switch, the programme type and the traffic flag are set to that
    number. *)
Theorem X20_numeric_option_argument argv0 pre n rest l :
  parse_options argv0 pre initial_locals initial_state = Returned l initial_state ->
  0 <= n <= INT_MAX -> no_digit_ahead rest ->
  let arg := (decimal n ++ rest)%string in
  parse_options argv0 (pre ++ [option_of "m" arg]) initial_locals initial_state
  = Returned (set_mpx (f32_of_int n) l) initial_state /\
  parse_options argv0 (pre ++ [option_of "W" arg]) initial_locals initial_state
  = Returned (set_wait n l) initial_state /\
  parse_options argv0 (pre ++ [option_of "R" arg]) initial_locals initial_state
  = Returned (set_rds n l) initial_state /\
  parse_options argv0 (pre ++ [option_of "p" arg]) initial_locals initial_state
  = Returned (set_pty n l) initial_state /\
  parse_options argv0 (pre ++ [option_of "T" arg]) initial_locals initial_state
  = Returned (set_tp n l) initial_state.
Proof.
  intros Hp Hn Hrest. cbv zeta.
  pose proof (atoi_decimal n rest Hn Hrest) as Ha.
  repeat split;
    rewrite parse_options_app, bind_run, Hp; next_option;
    rewrite bind_run; unfold handle_option; cbn [opt optarg option_of];
    rewrite bind_run, atoi_optarg_run, Ha; reflexivity.
Qed.

Lemma X20_numeric_option_argument_witness :
  let arg := (decimal 50 ++ "%")%string in
  let l := initial_locals in
  parse_options "mpxgen" ([] ++ [option_of "m" arg]) initial_locals initial_state
  = Returned (set_mpx (f32_of_int 50) l) initial_state /\
  parse_options "mpxgen" ([] ++ [option_of "W" arg]) initial_locals initial_state
  = Returned (set_wait 50 l) initial_state /\
  parse_options "mpxgen" ([] ++ [option_of "R" arg]) initial_locals initial_state
  = Returned (set_rds 50 l) initial_state /\
  parse_options "mpxgen" ([] ++ [option_of "p" arg]) initial_locals initial_state
  = Returned (set_pty 50 l) initial_state /\
  parse_options "mpxgen" ([] ++ [option_of "T" arg]) initial_locals initial_state
  = Returned (set_tp 50 l) initial_state.
Proof.
  apply (X20_numeric_option_argument "mpxgen" [] 50 "%" initial_locals).
  - reflexivity.
  - unfold INT_MAX. lia.
  - reflexivity.
Defined.

(** ** The sign of a sample *)

Lemma finish_opp prec emax s m e :
  finish prec emax (negb s) m e = SFopp (finish prec emax s m e).
Proof. unfold finish. destruct m; [done| |done]. by destruct (_ <=? _). Qed.

Lemma binary_round_aux_opp prec emax s m e l :
  0 <= m ->
  binary_round_aux prec emax (negb s) m e l = SFopp (binary_round_aux prec emax s m e l).
Proof.
  intros Hm. rewrite !binary_round_aux_steps by done. cbv zeta. apply finish_opp.
Qed.

Lemma SFmul_opp_l prec emax x y :
  SFmul prec emax (SFopp x) y = SFopp (SFmul prec emax x y).
Proof.
  destruct x as [sx|sx| |sx mx ex], y as [sy|sy| |sy my ey]; try done;
    cbn [SFopp SFmul]; rewrite <- ?negb_xorb_l; try done.
  by apply binary_round_aux_opp.
Qed.

Lemma SFmul_opp_r prec emax x y :
  SFmul prec emax x (SFopp y) = SFopp (SFmul prec emax x y).
Proof.
  destruct x as [sx|sx| |sx mx ex], y as [sy|sy| |sy my ey]; try done;
    cbn [SFopp SFmul]; rewrite <- ?negb_xorb_r; try done.
  by apply binary_round_aux_opp.
Qed.

Lemma SFdiv_opp_l prec emax x y :
  SFdiv prec emax (SFopp x) y = SFopp (SFdiv prec emax x y).
Proof.
  destruct x as [sx|sx| |sx mx ex], y as [sy|sy| |sy my ey]; try done;
    cbn [SFopp SFdiv]; rewrite <- ?negb_xorb_l; try done.
  rewrite SFdiv_core_binary_eq. apply binary_round_aux_opp.
  apply Z.div_pos; [|lia]. apply Z.mul_nonneg_nonneg; [lia|].
  apply Z.pow_nonneg. lia.
Qed.

Lemma sample_value_opp x g :
  sample_value (SFopp x) g = SFopp (sample_value x g) /\
  sample_value x (SFopp g) = SFopp (sample_value x g).
Proof.
  unfold sample_value, scale_sample, gain_factor, f32_mul, f32_div.
  by rewrite !SFdiv_opp_l, !SFmul_opp_l, SFmul_opp_r.
Qed.

Lemma short_of_float_opp y v :
  short_of_float y = Some v -> v <> SHRT_MIN -> short_of_float (SFopp y) = Some (- v).
Proof.
  unfold short_of_float, to_integer, in_range, SHRT_MIN, SHRT_MAX.
  destruct y as [s|s| |s m e]; cbn [SFopp SFtrunc]; try done.
  - intros [= <-] _. reflexivity.
  - destruct (_ && _) eqn:Hr; [|done]. intros [= <-] Hne.
    assert (cond_Zopp (negb s) (Z.shiftl (Z.pos m) e) = - cond_Zopp s (Z.shiftl (Z.pos m) e))
      as -> by (destruct s; cbn; lia).
    assert ((-32768 <=? - cond_Zopp s (Z.shiftl (Z.pos m) e)) &&
            (- cond_Zopp s (Z.shiftl (Z.pos m) e) <=? 32767) = true) as -> by lia.
    reflexivity.
Qed.

(** X21: negating a sample, or the gain, negates the value of the sample
    before truncation; the 16-bit value is negated too, except that the
    value -32768 has no negative in a [short]. *)
Theorem X21_sample_sign x g v :
  convert g x = Some v -> v <> SHRT_MIN ->
  sample_value (SFopp x) g = SFopp (sample_value x g) /\
  sample_value x (SFopp g) = SFopp (sample_value x g) /\
  convert g (SFopp x) = Some (- v) /\
  convert (SFopp g) x = Some (- v).
Proof.
  intros Hv Hne. destruct (sample_value_opp x g) as [Hx Hg].
  split; [done|]. split; [done|].
  unfold convert in *. rewrite Hx, Hg. split; by apply short_of_float_opp.
Qed.

Lemma X21_sample_sign_witness :
  let x := f32_of_int 5 in
  let g := f32_of_int 10 in
  sample_value (SFopp x) g = SFopp (sample_value x g) /\
  sample_value x (SFopp g) = SFopp (sample_value x g) /\
  convert g (SFopp x) = Some (- 1638) /\
  convert (SFopp g) x = Some (- 1638).
Proof.
  apply (X21_sample_sign (f32_of_int 5) (f32_of_int 10) 1638).
  - vm_compute. reflexivity.
  - discriminate.
Defined.

(** ** Rounding keeps an integer bound *)

Section Bounds.

Variables prec emax : Z.
Hypothesis prec_gt_1 : 1 < prec.
Hypothesis prec_lt_emax : prec < emax.

Lemma round1_exact m n :
  0 <= m -> m mod 2 ^ Z.max n 0 = 0 -> round1 m loc_Exact n = m / 2 ^ Z.max n 0.
Proof.
  intros Hm Hmod. unfold round1, shr. cbn [shr_record_of_loc].
  destruct n as [|p|p]; cbn [fst].
  - cbn. by rewrite Z.div_1_r.
  - rewrite (Z.max_l (Z.pos p) 0) in * by lia.
    rewrite iter_pos_iterate.
    set (k := m / 2 ^ Z.pos p).
    assert (Hk : m = k * 2 ^ Z.of_nat (Pos.to_nat p)).
    { rewrite positive_nat_Z. subst k.
      rewrite (Z.div_mod m (2 ^ Z.pos p)) at 1 by (apply Z.pow_nonzero; lia). lia. }
    assert (Hk0 : 0 <= k) by (subst k; apply Z.div_pos; lia).
    clearbody k. subst m. rewrite shr_iter_exact by done.
    reflexivity.
  - cbn. by rewrite Z.div_1_r.
Qed.

Lemma Zdigits2_bound m N k :
  0 <= m -> 0 <= N -> 0 <= k -> m <= N * 2 ^ k -> Zdigits2 m <= Zdigits2 N + k.
Proof.
  intros Hm HN Hk Hle.
  destruct (Z.eq_dec N 0) as [->|HN0].
  { assert (m = 0) as -> by lia. rewrite Zdigits2_0. lia. }
  rewrite <- (Zdigits2_mul_pow2 N k) by lia.
  apply Zdigits2_mono. lia.
Qed.

(** A number that is at most [N], rounded, is at most [N]: [N] has fewer
    digits than the precision and is therefore a value of the format. *)
Lemma binary_round_aux_le s m e l N :
  0 <= m -> e <= fexp prec emax (Zdigits2 m + e) -> e <= 0 ->
  0 <= N -> Zdigits2 N < prec ->
  m + (if l is loc_Exact then 0 else 1) <= N * 2 ^ (- e) ->
  abs_le (binary_round_aux prec emax s m e l) N = true.
Proof.
  intros Hm He He0 HN HdN Hle.
  assert (Hmle : m <= N * 2 ^ (- e)) by (destruct l; lia).
  pose proof (Zdigits2_bound m N (- e) Hm HN ltac:(lia) Hmle) as Hd.
  set (F := fexp prec emax (Zdigits2 m + e)) in *.
  assert (HF : F <= -1).
  { subst F. unfold fexp, emin. lia. }
  destruct (binary_round_aux_spec prec emax prec_gt_1 s m e l Hm He)
    as [->|[(p & e' & Heq & _ & He')|[_ Hinf]]].
  - cbn. lia.
  - pose proof (binary_round_aux_steps prec emax s m e l Hm) as Hsteps. cbv zeta in Hsteps.
    fold F in Hsteps. rewrite Heq in Hsteps.
    rewrite (Z.max_l (F - e) 0) in Hsteps by lia.
    replace (e + (F - e)) with F in Hsteps by lia.
    set (m1 := round1 m l (F - e)) in *.
    set (j := Z.max (fexp prec emax (Zdigits2 m1 + F) - F) 0) in *.
    assert (Hj0 : 0 <= j) by (subst j; lia).
    unfold finish in Hsteps.
    destruct (m1 / 2 ^ j) as [|p2|p2] eqn:Hm2; try discriminate.
    destruct (F + j <=? emax - prec); [|discriminate].
    injection Hsteps as Hp2 He2. subst p2 e'.
    assert (Hj : F + j <= 0) by lia.
    (* the mantissa after the first rounding *)
    assert (Hm1 : m1 <= N * 2 ^ (- F)).
    { assert (Hsplit : N * 2 ^ (- e) = N * 2 ^ (- F) * 2 ^ (F - e)).
      { rewrite <- Z.mul_assoc, <- Z.pow_add_r by lia. do 2 f_equal. lia. }
      assert (H2 : 0 < 2 ^ (F - e)) by (apply Z.pow_pos_nonneg; lia).
      assert (Hfloor : m / 2 ^ (F - e) <= N * 2 ^ (- F)).
      { apply Z.div_le_upper_bound; [lia|]. rewrite Z.mul_comm. lia. }
      destruct (round1_bounds m l (F - e) Hm) as [Hr|Hr]; fold m1 in Hr;
        rewrite (Z.max_l (F - e) 0) in Hr by lia; [lia|].
      destruct (Z.eq_dec (m / 2 ^ (F - e)) (N * 2 ^ (- F))) as [Heqf|Hne]; [|lia].
      (* the quotient is the bound: the number is the bound, and exact *)
      assert (Hge : N * 2 ^ (- F) * 2 ^ (F - e) <= m).
      { rewrite <- Heqf. rewrite Z.mul_comm. apply Z.mul_div_le. lia. }
      assert (Hl : l = loc_Exact) by (destruct l; [done|lia]).
      assert (Hmeq : m = N * 2 ^ (- F) * 2 ^ (F - e)) by (subst l; lia).
      subst l. pose proof (round1_exact m (F - e) Hm) as Hex.
      rewrite (Z.max_l (F - e) 0) in Hex by lia.
      assert (Hmod : m mod 2 ^ (F - e) = 0) by (rewrite Hmeq; apply Z.mod_mul; lia).
      specialize (Hex Hmod). subst m1. lia. }
    rewrite Heq. cbn [abs_le]. assert ((F + j <=? 0) = true) as -> by lia.
    apply Z.leb_le. rewrite <- Hm2.
    assert (Hsplit : N * 2 ^ (- F) = N * 2 ^ (- (F + j)) * 2 ^ j).
    { rewrite <- Z.mul_assoc, <- Z.pow_add_r by lia. do 2 f_equal. lia. }
    apply Z.div_le_upper_bound; [apply Z.pow_pos_nonneg; lia|].
    rewrite Z.mul_comm. lia.
  - subst F. lia.
Qed.

Lemma abs_le_finite s m e N :
  bounded prec emax m e = true -> abs_le (S754_finite s m e) N = true ->
  0 <= N -> Zdigits2 N < prec ->
  e <= 0 /\ Z.pos m <= N * 2 ^ (- e).
Proof.
  intros Hb Hle HN HdN. cbn [abs_le] in Hle.
  destruct (Z.leb_spec e 0) as [He|He]; [split; [done|lia]|].
  exfalso. apply Z.leb_le in Hle.
  apply bounded_elim in Hb as [Hc _]. unfold fexp, emin in Hc.
  assert (Hd : Zdigits2 (Z.pos m) = prec) by lia.
  destruct (Zdigits2_bounds (Z.pos m) ltac:(lia)) as [_ [Hlo _]]. rewrite Hd in Hlo.
  assert (H2e : 2 <= 2 ^ e) by (change 2 with (2 ^ 1) at 1; apply Z.pow_le_mono_r; lia).
  assert (HNge : 2 ^ prec <= N).
  { replace prec with (prec - 1 + 1) at 1 by lia. rewrite Z.pow_add_r by lia.
    change (2 ^ 1) with 2. nia. }
  assert (Hpos : 0 < N) by (pose proof (Z.pow_pos_nonneg 2 prec); lia).
  destruct (Zdigits2_bounds N Hpos) as [_ [_ Hhi]].
  assert (2 ^ Zdigits2 N <= 2 ^ prec) by (apply Z.pow_le_mono_r; lia). lia.
Qed.

(** The product of two numbers that are at most [Nx] and [Ny]. *)
Lemma SFmul_le x y Nx Ny :
  valid_binary prec emax x = true -> valid_binary prec emax y = true ->
  abs_le x Nx = true -> abs_le y Ny = true ->
  0 <= Nx -> 0 <= Ny -> Zdigits2 Nx < prec -> Zdigits2 Ny < prec ->
  Zdigits2 (Nx * Ny) < prec ->
  abs_le (SFmul prec emax x y) (Nx * Ny) = true.
Proof.
  intros Hx Hy Hlx Hly HNx HNy Hdx Hdy Hd.
  destruct x as [sx|sx| |sx mx ex], y as [sy|sy| |sy my ey]; try done;
    cbn [SFmul abs_le]; try (apply Z.leb_le; nia).
  destruct (abs_le_finite _ _ _ _ Hx Hlx HNx Hdx) as [Hex Hmx].
  destruct (abs_le_finite _ _ _ _ Hy Hly HNy Hdy) as [Hey Hmy].
  apply binary_round_aux_le; try lia.
  - by apply SFmul_enough_digits.
  - rewrite Z.add_0_r, Pos2Z.inj_mul.
    replace (- (ex + ey)) with (- ex + - ey) by lia. rewrite Z.pow_add_r by lia.
    assert (0 <= 2 ^ (- ex)) by (apply Z.pow_nonneg; lia).
    assert (0 <= 2 ^ (- ey)) by (apply Z.pow_nonneg; lia). nia.
Qed.

Lemma new_location_exact d r :
  0 < d -> 0 <= r < d -> (new_location d r = loc_Exact <-> r = 0).
Proof.
  intros Hd Hr. unfold new_location, new_location_even, new_location_odd.
  destruct (IntDef.Z.even d); destruct (Z.eqb_spec r 0); split; try done.
  all: by destruct (_ ?= _).
Qed.

(** A number that is at most [C], divided by [C], is at most 1. *)
Lemma SFdiv_le sx mx ex sy my ey C :
  bounded prec emax mx ex = true ->
  0 < C -> ex <= 0 -> ey <= 0 ->
  Z.pos mx <= C * 2 ^ (- ex) -> Z.pos my = C * 2 ^ (- ey) ->
  abs_le (SFdiv prec emax (S754_finite sx mx ex) (S754_finite sy my ey)) 1 = true.
Proof.
  intros Hb HC Hex Hey Hmx Hmy. cbn [SFdiv]. rewrite SFdiv_core_binary_eq.
  pose proof (SFdiv_quotient_digits prec emax prec_gt_1 mx ex my ey) as Hq. cbv zeta in Hq.
  pose proof (div_shift_nonneg prec emax mx ex my ey) as Hsh.
  set (sh := div_shift prec emax mx ex my ey) in *.
  set (e' := div_exponent prec emax mx ex my ey) in *.
  set (q := (Z.pos mx * 2 ^ sh) / Z.pos my) in *.
  set (r := (Z.pos mx * 2 ^ sh) mod Z.pos my).
  destruct Hq as (Hq0 & He' & _ & _).
  assert (Hshe : sh = ex - ey - e') by reflexivity.
  (* the quotient is computed at a negative exponent *)
  assert (HD : Zdigits2 (Z.pos mx) + ex - (Zdigits2 (Z.pos my) + ey) <= 0).
  { pose proof (Zdigits2_bound (Z.pos mx) C (- ex) ltac:(lia) ltac:(lia) ltac:(lia) Hmx).
    rewrite Hmy, Zdigits2_mul_pow2 by lia. lia. }
  assert (He0 : e' <= -1).
  { subst e'. unfold div_exponent.
    pose proof (fexp_mono prec emax _ _ HD) as Hm.
    assert (fexp prec emax 0 <= -1) by (unfold fexp, emin; lia). lia. }
  assert (Hbound : Z.pos mx * 2 ^ sh <= Z.pos my * 2 ^ (- e')).
  { rewrite Hmy, <- Z.mul_assoc, <- Z.pow_add_r by lia.
    replace (- ey + - e') with (- ex + sh) by lia. rewrite Z.pow_add_r by lia.
    assert (0 <= 2 ^ sh) by (apply Z.pow_nonneg; lia). nia. }
  pose proof (Z.div_mod (Z.pos mx * 2 ^ sh) (Z.pos my) ltac:(lia)) as Hdm.
  pose proof (Z.mod_pos_bound (Z.pos mx * 2 ^ sh) (Z.pos my) ltac:(lia)) as Hr.
  fold q in Hdm. fold r in Hdm, Hr.
  apply binary_round_aux_le; try lia; [done|].
  rewrite Z.mul_1_l.
  assert (H2 : 0 < 2 ^ (- e')) by (apply Z.pow_pos_nonneg; lia).
  destruct (new_location (Z.pos my) r) eqn:Hloc.
  - assert (q * Z.pos my <= Z.pos my * 2 ^ (- e')) by lia. nia.
  - assert (Hr0 : r <> 0).
    { intros Hr0. apply (new_location_exact (Z.pos my) r) in Hr0; [congruence|lia|lia]. }
    assert (q * Z.pos my < Z.pos my * 2 ^ (- e')) by lia. nia.
Qed.

End Bounds.

(** ** Samples and gains in range *)

Lemma f32_div_const_le x C mc ec :
  f32_valid x -> abs_le x C = true ->
  0 < C -> Zdigits2 C < 24 -> ec <= 0 -> Z.pos mc = C * 2 ^ (- ec) ->
  abs_le (f32_div x (S754_finite false mc ec)) 1 = true.
Proof.
  intros Hx Hle HC HdC Hec Hmc. destruct x as [s|s| |s m e]; try done.
  destruct (abs_le_finite 24 128 ltac:(lia) ltac:(lia) s m e C Hx Hle ltac:(lia) HdC) as [He Hm].
  unfold f32_div. by apply (SFdiv_le 24 128 ltac:(lia) ltac:(lia) s m e false mc ec C).
Qed.

Lemma to_integer_le y N lo hi :
  abs_le y N = true -> lo <= - N -> N <= hi ->
  exists v, to_integer lo hi y = Some v /\ - N <= v <= N.
Proof.
  intros Hle Hlo Hhi. unfold to_integer, in_range.
  destruct y as [s|s| |s m e]; try done; cbn [abs_le SFtrunc] in *.
  - apply Z.leb_le in Hle. exists 0.
    assert ((lo <=? 0) && (0 <=? hi) = true) as -> by lia. split; [done|lia].
  - assert (Hv : 0 <= Z.shiftl (Z.pos m) e <= N).
    { destruct (Z.leb_spec e 0) as [He|He]; apply Z.leb_le in Hle.
      - rewrite Z.shiftl_div_pow2 by lia. split; [apply Z.div_pos; lia|].
        apply Z.div_le_upper_bound; [apply Z.pow_pos_nonneg; lia|]. lia.
      - rewrite Z.shiftl_mul_pow2 by lia.
        assert (0 < 2 ^ e) by (apply Z.pow_pos_nonneg; lia). nia. }
    exists (cond_Zopp s (Z.shiftl (Z.pos m) e)).
    assert (Hc : - N <= cond_Zopp s (Z.shiftl (Z.pos m) e) <= N) by (destruct s; cbn; lia).
    assert ((lo <=? cond_Zopp s (Z.shiftl (Z.pos m) e)) &&
            (cond_Zopp s (Z.shiftl (Z.pos m) e) <=? hi) = true) as -> by lia.
    by split.
Qed.

Lemma sample_value_le x g :
  sample_in_range x -> gain_in_range g -> abs_le (sample_value x g) 32767 = true.
Proof.
  intros [Hx Hlx] [Hg Hlg].
  assert (H10 : f32_of_int 10 = S754_finite false 10485760 (-20)) by reflexivity.
  assert (H100 : f32_of_int 100 = S754_finite false 13107200 (-17)) by reflexivity.
  assert (H1 : abs_le (f32_div x (f32_of_int 10)) 1 = true).
  { rewrite H10. by apply (f32_div_const_le x 10). }
  assert (Hk : abs_le (gain_factor g) 1 = true).
  { unfold gain_factor. rewrite H100. by apply (f32_div_const_le g 100). }
  assert (Hs : abs_le (scale_sample x) (1 * 32767) = true).
  { unfold scale_sample, f32_mul. apply SFmul_le; try done; try lia.
    apply f32_div_valid; [done|apply f32_of_int_valid_10]. }
  unfold sample_value, f32_mul.
  change 32767 with (1 * 32767 * 1). apply SFmul_le; try done; try lia.
  all: first [by apply scale_sample_valid | by apply gain_factor_valid].
Qed.

(** A sample between -10 and 10 at a gain between -100 and 100 has a
    16-bit value, and that lies between -32767 and 32767. *)
Lemma convert_in_range x g :
  sample_in_range x -> gain_in_range g ->
  exists v, convert g x = Some v /\ -32767 <= v <= 32767.
Proof.
  intros Hx Hg. unfold convert, short_of_float.
  apply (to_integer_le _ 32767); [by apply sample_value_le|done|done].
Qed.

(** X22: on samples between -10 and 10, at a gain between -100 and 100,
    [postprocess] has no undefined behaviour, provided the buffers have
    the room and the [int] index [j] can count the values written
    (twice the number of samples is at most [INT_MAX]): every conversion
    to [short] is of a value that fits, and what it writes lies between
    -32767 and 32767. *)
Theorem X22_postprocess_in_range inbuf outbuf n g :
  gain_in_range g ->
  2 * Z.of_nat n <= INT_MAX -> (n <= length inbuf)%nat -> (2 * n <= length outbuf)%nat ->
  Forall sample_in_range (take n inbuf) ->
  exists inbuf' outbuf',
    postprocess inbuf outbuf n g = Some (inbuf', outbuf') /\
    Forall (fun v => -32767 <= v <= 32767) (take (2 * n) outbuf').
Proof.
  intros Hg Hint Hin Hout Hall.
  assert (Hsome : is_Some (postprocess inbuf outbuf n g)).
  { apply postprocess_is_Some. split; [done|]. split; [done|]. split; [by right|].
    eapply Forall_impl; [exact Hall|]. intros x Hx.
    destruct (convert_in_range x g Hx Hg) as (v & -> & _). by eexists. }
  destruct Hsome as [[inbuf' outbuf'] Hpost]. exists inbuf', outbuf'. split; [done|].
  apply postprocess_Some in Hpost as (vs & Hvs & _ & -> & _).
  pose proof (length_mapM _ _ _ Hvs) as Hlen. rewrite length_take in Hlen.
  rewrite take_app_length' by (rewrite length_stereo; lia).
  rewrite mapM_Some in Hvs.
  assert (Hvs' : Forall (fun v => -32767 <= v <= 32767) vs).
  { apply Forall_forall. intros v Hv.
    apply list_elem_of_lookup in Hv as [i Hi].
    destruct (Forall2_lookup_r _ _ _ _ _ Hvs Hi) as (x & Hx & Hc).
    rewrite Forall_forall in Hall.
    destruct (convert_in_range x g (Hall x (list_elem_of_lookup_2 _ _ _ Hx)) Hg) as (v' & Hv' & ?).
    congruence. }
  clear -Hvs'. induction Hvs' as [|v vs Hv _ IH]; [constructor|].
  cbn. constructor; [done|]. constructor; [done|]. exact IH.
Qed.

Lemma X22_postprocess_in_range_witness :
  exists inbuf' outbuf',
    postprocess two_frames [7; 7; 7; 7; 7] 2 (f32_of_int 10) = Some (inbuf', outbuf') /\
    Forall (fun v => -32767 <= v <= 32767) (take (2 * 2) outbuf').
Proof.
  apply (X22_postprocess_in_range two_frames [7; 7; 7; 7; 7] 2 (f32_of_int 10)).
  - split; reflexivity.
  - unfold INT_MAX. lia.
  - cbn. lia.
  - cbn. lia.
  - constructor; [split; reflexivity|]. constructor; [split; reflexivity|]. constructor.
Defined.

(** X23: when the options are accepted with a gain between -100 and 100 and
    the converter delivers blocks that fit, of samples between -10 and
    10, no run of [main] has undefined behaviour. *)
Theorem X23_no_undefined_behaviour E fuel argv0 opts l s :
  parse_options argv0 opts initial_locals initial_state = Returned l initial_state ->
  gain_in_range (mpx l) ->
  blocks_in_range E ->
  run_main E fuel argv0 opts <> Undefined s.
Proof.
  intros Hp Hg Hblocks Hrun.
  assert (Hnot : forall i, ~ overrun E (mpx l) i).
  { intros i (_ & _ & Hf). destruct (Hblocks i) as [Hlen Hall].
    assert (Hok : frames_ok (mpx l) (src_process_res E i).2).
    { split; [done|]. apply mapM_is_Some. eapply Forall_impl; [exact Hall|].
      intros x Hx. destruct (convert_in_range x (mpx l) Hx Hg) as (v & Hv & _).
      cbn. rewrite Hv. by eexists. }
    apply frames_ok_formatted in Hok as [? ?]. congruence. }
  destruct (startup_cases E) as [Hstart|Hfail].
  - destruct (first_failure E (mpx l) fuel) as [Hall|(n & Hn & Hok & [Hfatal|Hover])].
    + destruct (run_main_streaming E fuel argv0 opts l fuel Hp Hstart Hall)
        as (st & _ & Ho & _). rewrite (Ho eq_refl) in Hrun. discriminate.
    + destruct (run_main_streaming E fuel argv0 opts l n Hp Hstart Hok)
        as (st & _ & _ & Hf & _). rewrite (Hf Hn Hfatal) in Hrun. discriminate.
    + by apply (Hnot n).
  - destruct (run_main_startup_failure E fuel argv0 opts l Hp Hfail) as (evs & _ & _ & Heq).
    rewrite Heq in Hrun. discriminate.
Qed.

Lemma X23_no_undefined_behaviour_witness :
  run_main (env_ok two_frames) 3 "mpxgen" [] <> Undefined initial_state.
Proof.
  apply (X23_no_undefined_behaviour (env_ok two_frames) 3 "mpxgen" [] initial_locals
           initial_state).
  - reflexivity.
  - split; reflexivity.
  - intros i. split; [cbn; unfold DATA_SIZE; lia|].
    constructor; [split; reflexivity|]. constructor; [split; reflexivity|]. constructor.
Defined.
